(** * MelNet: the alignment engine, the sequence model and the batch assembler

    A shallow embedding of [src/model/tts.py] and [src/datasets/wavloader.py].

    Conventions of the embedding.
    - A float tensor is a nested list of real numbers; the arithmetic of the
      source (exp, softmax, reciprocal, sums) is read over [R], so rounding is
      not part of the model.
    - A tensor whose shape the source reads with [.size()] carries that shape
      ([Tensor3]); intermediate tensors of known rank are nested lists.
    - A Python exception is a value of [exn]; a call that may raise returns
      [res A].
    - [nn.Linear], [nn.LSTMCell], [nn.LSTM], [DelayedRNN] hold learned
      weights: they are fields of the object that owns them, given as the
      function each applies to one row of its input. *)

From Stdlib Require Import String.
From Stdlib Require Import Ascii.
From Stdlib Require QArith.
From Stdlib Require Import Reals Lra Lia ZArith Bool Arith List Permutation.
Import ListNotations.

(* ------------------------------------------------------------------ *)
(** ** Python results *)

Module Py.

Inductive exn : Type :=
| RuntimeError
| AttributeError
| IndexError
| NameError
| UnboundLocalError
| ValueError
| NotImplementedError
| AssertionError (msg : string).

Definition res (A : Type) : Type := (exn + A)%type.

Definition ret {A : Type} (a : A) : res A := inr a.

Definition raise {A : Type} (e : exn) : res A := inl e.

Definition bind {A B : Type} (m : res A) (f : A -> res B) : res B :=
  match m with
  | inl e => inl e
  | inr a => f a
  end.

(** [for i in idx: s = body i s], stopping at the first exception. *)
Fixpoint for_each {S : Type} (body : nat -> S -> res S) (idx : list nat) (s : S)
  : res S :=
  match idx with
  | [] => ret s
  | i :: rest => bind (body i s) (for_each body rest)
  end.

(** The same function on every element, stopping at the first exception. *)
Fixpoint map_res {A B : Type} (f : A -> res B) (l : list A) : res (list B) :=
  match l with
  | [] => ret []
  | a :: rest =>
      bind (f a) (fun b => bind (map_res f rest) (fun bs => ret (b :: bs)))
  end.

(** What a call returned, whatever it did to the object. *)
Definition value {S A : Type} (r : res (S * A)) : res A :=
  match r with
  | inl e => inl e
  | inr (_, a) => inr a
  end.

(** The object a call left behind. *)
Definition object {S A : Type} (r : res (S * A)) : res S :=
  match r with
  | inl e => inl e
  | inr (s, _) => inr s
  end.

End Py.

Import Py.

Notation "x <- m ;; k" := (bind m (fun x => k))
  (at level 61, m at next level, right associativity).
Notation "' pat <- m ;; k" := (bind m (fun x => match x with pat => k end))
  (at level 61, pat pattern, m at next level, right associativity).

(* ------------------------------------------------------------------ *)
(** ** Tensors over the reals *)

Module Torch.

Local Open Scope R_scope.

Abbreviation vec := (list R).
Abbreviation mat := (list (list R)).

(** A rank-3 float tensor together with the shape [.size()] returns. *)
Record Tensor3 : Type := mkTensor3 {
  size0 : nat;
  size1 : nat;
  size2 : nat;
  data : list mat
}.

(** The nested list has the shape it claims. *)
Definition wf3 (t : Tensor3) : Prop :=
  length (data t) = size0 t /\
  Forall (fun m => length m = size1 t /\
                   Forall (fun v : vec => length v = size2 t) m) (data t).

Definition map2 {A B C : Type} (f : A -> B -> C) (l1 : list A) (l2 : list B)
  : list C :=
  map (fun p => f (fst p) (snd p)) (combine l1 l2).

(** [l[lo:hi]] *)
Definition slice {A : Type} (lo hi : nat) (l : list A) : list A :=
  firstn (hi - lo) (skipn lo l).

Definition zeros (n : nat) : vec := repeat 0 n.

(** [new_zeros(B, D)] *)
Definition zeros2 (B D : nat) : list vec := repeat (zeros D) B.

Definition Rsum (l : list R) : R := fold_right Rplus 0 l.

Definition vadd (a b : vec) : vec := map2 Rplus a b.

(** [torch.sum(m, dim=0)] of an [n]-column matrix given by its rows. *)
Definition sum_rows (n : nat) (rows : list vec) : vec :=
  fold_right vadd (zeros n) rows.

(** [F.softmax(v, dim=-1)] on one row. *)
Definition softmax (v : vec) : vec :=
  let z := Rsum (map exp v) in
  map (fun x => exp x / z) v.

(** [torch.sigmoid] *)
Definition sigmoid (x : R) : R := / (1 + exp (- x)).

(** One row vector times a matrix with [D] columns. *)
Definition vecmat (D : nat) (row : vec) (m : mat) : vec :=
  sum_rows D (map2 (fun w r => map (Rmult w) r) row m).

(** [torch.bmm(a, b)]: batch sizes must agree. *)
Definition bmm (a : list mat) (b : Tensor3) : res (list mat) :=
  if Nat.eqb (length a) (size0 b)
  then ret (map2 (fun w m => map (fun row => vecmat (size2 b) row m) w)
                 a (data b))
  else raise RuntimeError.

(** [torch.cat(ts, dim=1)] of rank-3 tensors; an empty list raises (the
    class of that exception is the library's choice and has changed between
    releases: [RuntimeError] stands for it here). *)
Definition cat_dim1 (ts : list (list mat)) : res (list mat) :=
  match ts with
  | [] => raise RuntimeError
  | t0 :: rest => ret (fold_left (fun acc t => map2 (@app vec) acc t) rest t0)
  end.

(** [torch.gather(t, 1, index.unsqueeze(-1))]: row [b] of the result holds
    [t[b][index[b]]]; an index outside the row raises, and so does an index
    vector longer than the batch. *)
Definition gather_dim1 (t : list vec) (index : list Z) : res (list vec) :=
  if Nat.leb (length index) (length t)
  then map_res
         (fun p : vec * Z =>
            let (row, ix) := p in
            if ((0 <=? ix)%Z && (ix <? Z.of_nat (length row))%Z)%bool
            then ret [nth (Z.to_nat ix) row 0]
            else raise RuntimeError)
         (combine t index)
  else raise RuntimeError.

(** [F.pad(r, [1, -1])] on the last axis: one zero in front, the last
    element dropped. *)
Definition shift_right (r : vec) : vec := removelast (0 :: r).

(** [m.transpose(0, 1)] of a matrix with [n] columns. *)
Definition transpose (n : nat) (m : mat) : mat :=
  map (fun j => map (fun row => nth j row 0) m) (seq 0 n).

End Torch.

Import Torch.

(* ------------------------------------------------------------------ *)
(** ** src/model/tts.py *)

Module Tts.

Local Open Scope R_scope.

(** *** class Attention *)

(** What [nn.LSTM] hands back beside its output: the final hidden and cell
    states. *)
Definition lstm_state : Type := (list vec * list vec)%type.

(** The value bound to the name [memory]. [TTS.forward] unpacks the text
    encoder's pair and passes the tensor; [TTS.sample] passes the pair. *)
Inductive memory_arg : Type :=
| MemTensor (t : Tensor3)
| MemTuple (t : Tensor3) (hc : lstm_state).

(** The value bound to the name [context] in [Attention.forward]:
    [new_zeros(B, D)] before the first step, the [(B, 1, D)] product of
    [bmm] afterwards. *)
Inductive context_val : Type :=
| Ctx2 (c : list vec)
| Ctx3 (c : list mat).

(** An [Attention] object: the layers built by [__init__] and the
    attributes [attention] assigns ([None] until assigned). *)
Record Attention : Type := mkAttention {
  M : nat;
  rnn_cell : vec -> vec * vec -> vec * vec;
  W_g : vec -> vec;
  ksi_hat_cum : option (list vec);
  beta_hat : option (list vec);
  alpha_hat : option (list vec);
  u : option vec;
  u_R : option vec;
  u_L : option vec
}.

(** [Attention.__init__]: [ksi_hat_cum = None], nothing else assigned. *)
Definition Attention_init (gmm : nat) (cell : vec -> vec * vec -> vec * vec)
  (proj : vec -> vec) : Attention :=
  mkAttention gmm cell proj None None None None None None.

Definition set_mixture (self : Attention) (b a : list vec) : Attention :=
  mkAttention (M self) (rnn_cell self) (W_g self) (ksi_hat_cum self)
              (Some b) (Some a) (u self) (u_R self) (u_L self).

Definition set_positions (self : Attention) (p pr pl : vec) : Attention :=
  mkAttention (M self) (rnn_cell self) (W_g self) (ksi_hat_cum self)
              (beta_hat self) (alpha_hat self) (Some p) (Some pr) (Some pl).

(** [memory.new_tensor] and [memory.size]: a tuple has neither. *)
Definition memory_tensor (memory : memory_arg) : res Tensor3 :=
  match memory with
  | MemTensor t => ret t
  | MemTuple _ _ => raise AttributeError
  end.

(** One sample of
    [torch.sum(alpha.unsqueeze(-1) *
       torch.reciprocal(1 + torch.exp((ksi.unsqueeze(-1) - pos) / beta.unsqueeze(-1))),
     dim=1)]:
    an [(M, T)] matrix, one row per mixture component, summed over the
    components. *)
Definition mixture_row (a x b : vec) (pos : vec) : vec :=
  sum_rows (length pos)
    (map (fun c : R * (R * R) =>
            let '(ak, (xk, bk)) := c in
            map (fun z => ak * / (1 + exp ((xk - z) / bk))) pos)
         (combine a (combine x b))).

(** The same over the batch. *)
Definition mixture_sum (alpha ksi beta : list vec) (pos : vec) : list vec :=
  map (fun abk : vec * (vec * vec) =>
         let '(a, (x, b)) := abk in mixture_row a x b pos)
      (combine alpha (combine ksi beta)).

(** [Attention.attention]. The attributes [self.beta_hat], [self.alpha_hat],
    [self.u], [self.u_R], [self.u_L] are written and not read; they are the
    local names [beta], [alpha], [pos], [pos_R], [pos_L] here. *)
Definition attention (self : Attention) (h_i : list vec) (memory : memory_arg)
  : res (Attention * (list mat * list mat * list vec)) :=
  let phi_hat := map (W_g self) h_i in
  let ksi_hat := map (fun p => map exp (slice 0 (M self) p)) phi_hat in
  let beta := map (fun p => map exp (slice (M self) (2 * M self) p)) phi_hat in
  let alpha :=
    map (fun p => softmax (slice (2 * M self) (3 * M self) p)) phi_hat in
  let self := set_mixture self beta alpha in
  mem <- memory_tensor memory ;;
  let pos := map INR (seq 0 (size1 mem)) in
  let pos_R := map (fun z => z + 0.5) pos in
  let pos_L := map (fun z => z - 0.5) pos in
  let self := set_positions self pos pos_R pos_L in
  let term1 := mixture_sum alpha ksi_hat beta pos_R in
  let term2 := mixture_sum alpha ksi_hat beta pos_L in
  let weights := map2 (fun t1 t2 => [map2 Rminus t1 t2]) term1 term2 in
  context <- bmm weights mem ;;
  let termination :=
    map (map (fun s => 1 - s)) (mixture_sum alpha ksi_hat beta pos_R) in
  ret (self, (context, weights, termination)).

(** [torch.cat([q, context.squeeze(1)], dim=-1)] for a query of width [D].
    [squeeze(1)] drops axis 1 only when its size is 1: on the initial
    [(B, D)] zeros with [D = 1] it leaves a rank-1 tensor, and [cat] of ranks
    2 and 1 raises. *)
Definition cat_query_context (D : nat) (q : list vec) (context : context_val)
  : res (list vec) :=
  match context with
  | Ctx2 c =>
      if Nat.eqb D 1
      then raise RuntimeError
      else if Nat.eqb (length q) (length c)
           then ret (map2 (@app R) q c)
           else raise RuntimeError
  | Ctx3 c =>
      if Nat.eqb (length q) (length c)
      then ret (map2 (fun a m => a ++ hd [] m) q c)
      else raise RuntimeError
  end.

(** The names the loop of [Attention.forward] rebinds. [termination] is
    unbound until the first step has run. *)
Record loop_state : Type := mkLoop {
  l_self : Attention;
  l_context : context_val;
  l_h : list vec;
  l_c : list vec;
  l_contexts : list (list mat);
  l_weights : list (list mat);
  l_termination : option (list vec)
}.

(** One iteration of [for i in range(T)] in [Attention.forward]. *)
Definition forward_step (input_h_c : Tensor3) (memory : memory_arg)
  (i : nat) (s : loop_state) : res loop_state :=
  x <- cat_query_context (size2 input_h_c)
                         (map (fun m : mat => nth i m []) (data input_h_c))
                         (l_context s) ;;
  let hc := map2 (fun xb hcb => rnn_cell (l_self s) xb hcb)
                 x (combine (l_h s) (l_c s)) in
  let h_i := map fst hc in
  let c_i := map snd hc in
  ' (self, (context, weight, termination)) <-
      attention (l_self s) h_i memory ;;
  ret (mkLoop self (Ctx3 context) h_i c_i
              (l_contexts s ++ [context]) (l_weights s ++ [weight])
              (Some termination)).

Definition forward_init (self : Attention) (input_h_c : Tensor3) : loop_state :=
  let B := size0 input_h_c in
  let D := size2 input_h_c in
  mkLoop self (Ctx2 (zeros2 B D)) (zeros2 B D) (zeros2 B D) [] [] None.

Definition forward_loop (self : Attention) (input_h_c : Tensor3)
  (memory : memory_arg) : res loop_state :=
  for_each (forward_step input_h_c memory) (seq 0 (size1 input_h_c))
           (forward_init self input_h_c).

(** [Attention.forward]: returns [context, alignment, termination]. *)
Definition forward (self : Attention) (input_h_c : Tensor3)
  (memory : memory_arg) (input_lengths : list Z)
  : res (Attention * (context_val * list mat * list vec)) :=
  s <- forward_loop self input_h_c memory ;;
  contexts <- cat_dim1 (l_contexts s) ;;
  alignment <- cat_dim1 (l_weights s) ;;
  last_termination <-
    match l_termination s with
    | Some t => ret t
    | None => raise UnboundLocalError
    end ;;
  termination <-
    gather_dim1 last_termination (map (fun n => (n - 1)%Z) input_lengths) ;;
  ret (l_self s, (l_context s, alignment, termination)).

(** *** class TTS *)

(** A [(B, M, T, D)] tensor. *)
Definition tensor4 : Type := list (list (list vec)).

(** The triple a [DelayedRNN] layer takes and returns. *)
Definition hidden_views : Type := (tensor4 * tensor4 * context_val)%type.

(** The part of the configuration [hp] this file reads. *)
Record HParams : Type := mkHParams {
  model_hidden : nat;
  model_gmm : nat
}.

(** The freshly initialised sub-modules [TTS.__init__] builds. *)
Record Modules : Type := mkModules {
  new_W_t_0 : vec -> vec;
  new_W_f_0 : vec -> vec;
  new_W_c_0 : vec -> vec;
  new_DelayedRNN : nat -> hidden_views -> hidden_views;
  new_W_theta : vec -> vec;
  new_TextEncoder : list (list Z) -> Tensor3 * lstm_state;
  new_rnn_cell : vec -> vec * vec -> vec * vec;
  new_W_g : vec -> vec
}.

Record TTS : Type := mkTTS {
  hp : HParams;
  tierN : Z;
  W_t_0 : vec -> vec;
  W_f_0 : vec -> vec;
  W_c_0 : vec -> vec;
  layers : list (hidden_views -> hidden_views);
  K : nat;
  W_theta : vec -> vec;
  TextEncoder : list (list Z) -> Tensor3 * lstm_state;
  self_attention : Attention
}.

(** [TTS.__init__] *)
Definition TTS_init (hp : HParams) (freq n_layers : nat) (tierN : Z)
  (mods : Modules) : res TTS :=
  if (tierN =? 1)%Z
  then ret (mkTTS hp tierN
                  (new_W_t_0 mods) (new_W_f_0 mods) (new_W_c_0 mods)
                  (map (new_DelayedRNN mods) (seq 0 n_layers))
                  (model_gmm hp) (new_W_theta mods) (new_TextEncoder mods)
                  (Attention_init (model_gmm hp) (new_rnn_cell mods)
                                  (new_W_g mods)))
  else raise (AssertionError "TTS tier must be 1").

Definition set_attention (self : TTS) (a : Attention) : TTS :=
  mkTTS (hp self) (tierN self) (W_t_0 self) (W_f_0 self) (W_c_0 self)
        (layers self) (K self) (W_theta self) (TextEncoder self) a.

Definition map3 {A B : Type} (f : A -> B) (t : list (list (list A)))
  : list (list (list B)) :=
  map (map (map f)) t.

(** [F.pad(x, [1, -1])]: every row shifted right by one frame. *)
Definition pad_time (x : list mat) : list mat := map (map shift_right) x.

(** [F.pad(x, [0, 0, 1, -1])]: every sample shifted down by one bin. *)
Definition pad_freq (T : nat) (x : list mat) : list mat :=
  map (fun m => removelast (zeros T :: m)) x.

(** [t.unsqueeze(-1)] followed by a [Linear(1, hidden)] layer. *)
Definition lift_scalar (W : vec -> vec) (x : list mat) : tensor4 :=
  map3 (fun v => W [v]) x.

(** [self.W_c_0(F.pad(x, [1, -1]).transpose(1, 2))], a [(B, T, hidden)]
    tensor. *)
Definition context_query (self : TTS) (x : Tensor3) : Tensor3 :=
  mkTensor3 (size0 x) (size2 x) (model_hidden (hp self))
            (map (fun m => map (W_c_0 self) (transpose (size2 x) m))
                 (pad_time (data x))).

(** [t.size(-2)] of a rank-4 tensor. *)
Definition size_m2 (t : tensor4) : nat :=
  match t with
  | (r :: _) :: _ => length r
  | _ => 0%nat
  end.

(** Broadcasting of a [(Bm, 1, T, 1)] mask along the batch axis of a
    [(B, ...)] tensor. *)
Definition expand_batch (mask : list (list bool)) (B : nat)
  : res (list (list bool)) :=
  if Nat.eqb (length mask) B then ret mask
  else match mask with
       | [m] => ret (repeat m B)
       | _ => raise RuntimeError
       end.

(** [t.masked_fill(mask.unsqueeze(1).unsqueeze(3), v)] *)
Definition masked_fill (t : tensor4) (mask : list (list bool)) (v : R)
  : res tensor4 :=
  rows <- expand_batch mask (length t) ;;
  ret (map2 (fun tb mb =>
               map (fun bins : list vec =>
                      map2 (fun comps (bit : bool) =>
                              if bit then map (fun _ => v) comps else comps)
                           bins mb)
                   tb)
            t rows).

(** The mask of [TTS.forward]:
    [output_lengths.unsqueeze(-1) < arange(1, T + 1).unsqueeze(0)]. *)
Definition length_mask (output_lengths : list Z) (T : nat) : list (list bool) :=
  let idx := map Z.of_nat (seq 1 T) in
  map (fun n => map (fun i => (n <? i)%Z) idx) output_lengths.

Definition run_layers (self : TTS) (h : hidden_views) : hidden_views :=
  fold_left (fun acc layer => layer acc) (layers self) h.

(** The hidden views after the layer stack, projected by [W_theta]:
    [theta_hat] of [TTS.forward], for the context [h_c] the attention
    returned. *)
Definition theta_hat_of (self : TTS) (x : Tensor3) (h_c : context_val)
  : tensor4 :=
  let h_t := lift_scalar (W_t_0 self) (pad_time (data x)) in
  let h_f := lift_scalar (W_f_0 self) (pad_freq (size2 x) (data x)) in
  let '(h_t, h_f, h_c) := run_layers self (h_t, h_f, h_c) in
  map3 (W_theta self) h_f.

(** The end of [TTS.forward]: [theta_hat] split into [mu], [std] and [pi],
    then the masking block. *)
Definition mixture_parameters (self : TTS) (theta_hat : tensor4)
  (output_lengths : list Z) : res (tensor4 * tensor4 * tensor4) :=
  let mu := map3 (slice 0 (K self)) theta_hat in
  let std := map3 (fun v => map exp (slice (K self) (2 * K self) v)) theta_hat in
  let pi := map3 (fun v => softmax (skipn (2 * K self) v)) theta_hat in
  let mask := length_mask output_lengths (size_m2 mu) in
  mu <- masked_fill mu mask 0 ;;
  std <- masked_fill std mask (1 / sqrt (2 * PI)) ;;
  ret (mu, std, pi).

(** [TTS.forward]: returns [mu, std, pi, alignment]. *)
Definition TTS_forward (self : TTS) (x : Tensor3) (text : list (list Z))
  (input_lengths output_lengths : list Z)
  : res (TTS * (tensor4 * tensor4 * tensor4 * list mat)) :=
  let '(memory, _) := TextEncoder self text in
  ' (att, (h_c, alignment, termination)) <-
      forward (self_attention self) (context_query self x)
              (MemTensor memory) input_lengths ;;
  ' (mu, std, pi) <-
      mixture_parameters self (theta_hat_of self x h_c) output_lengths ;;
  ret (set_attention self att, (mu, std, pi, alignment)).

(** [t[:, :, i]] *)
Definition index_last (t : list mat) (i : nat) : res (list vec) :=
  map_res (map_res (fun row : vec =>
                      match nth_error row i with
                      | Some v => ret v
                      | None => raise IndexError
                      end)) t.

(** [t[:, i, :]] *)
Definition index_dim1 (t : list mat) (i : nat) : res (list vec) :=
  map_res (fun m : mat =>
             match nth_error m i with
             | Some row => ret row
             | None => raise IndexError
             end) t.

(** [l[i] = v] *)
Definition setitem {A : Type} (l : list A) (i : nat) (v : A) : res (list A) :=
  if Nat.ltb i (length l)
  then ret (firstn i l ++ v :: skipn (S i) l)
  else raise IndexError.

(** [t[:, :, i] = col] *)
Definition setitem_last (t : list mat) (i : nat) (col : list vec)
  : res (list mat) :=
  map_res (fun p : mat * vec =>
             map_res (fun q : vec * R => setitem (fst q) i (snd q))
                     (combine (fst p) (snd p)))
          (combine t col).

(** [t[:, i, :] = rows] *)
Definition setitem_dim1 (t : list mat) (i : nat) (rows : list vec)
  : res (list mat) :=
  map_res (fun p : mat * vec => setitem (fst p) i (snd p)) (combine t rows).

(** The names the loop of [TTS.sample] rebinds. *)
Record sample_state : Type := mkSample {
  s_self : TTS;
  s_x_t : list mat;
  s_x_f : list mat;
  s_mu : option (list mat);
  s_pi : option tensor4;
  s_termination : option (list vec)
}.

(** One iteration of [for i in range(x.size(-1))] in [TTS.sample]. *)
Definition sample_step (x : Tensor3) (memory : memory_arg)
  (input_lengths : list Z) (i : nat) (s : sample_state) : res sample_state :=
  let self := s_self s in
  let h_t := lift_scalar (W_t_0 self) (s_x_t s) in
  let h_f := lift_scalar (W_f_0 self) (s_x_f s) in
  ' (att, (h_c, alignment, termination)) <-
      forward (self_attention self) (context_query self x)
              memory input_lengths ;;
  let '(h_t, h_f, h_c) := run_layers self (h_t, h_f, h_c) in
  let theta_hat := map3 (W_theta self) h_f in
  let mu := map3 (fun v => map sigmoid (slice 0 (K self) v)) theta_hat in
  let pi := map3 (fun v => softmax (skipn (2 * K self) v)) theta_hat in
  let mu := map2 (map2 (map2 (fun m p => Rsum (map2 Rmult m p)))) mu pi in
  col <- index_last mu i ;;
  x_t <- setitem_last (s_x_t s) (i + 1) col ;;
  row <- index_dim1 mu i ;;
  x_f <- setitem_dim1 (s_x_f s) (i + 1) row ;;
  ret (mkSample (set_attention self att) x_t x_f (Some mu) (Some pi)
                (Some termination)).

(** A local name read at the end of [TTS.sample]. *)
Definition local {A : Type} (v : option A) : res A :=
  match v with
  | Some a => ret a
  | None => raise UnboundLocalError
  end.

(** [TTS.sample]: [return mu, std, pi, termination]. The name [std] is bound
    nowhere in the function or the module. *)
Definition sample (self : TTS) (x : Tensor3) (text : list (list Z))
  (input_lengths : list Z)
  : res (TTS * (list mat * tensor4 * tensor4 * list vec)) :=
  let memory := let '(m, hc) := TextEncoder self text in MemTuple m hc in
  s <- for_each (sample_step x memory input_lengths) (seq 0 (size2 x))
                (mkSample self (data x) (data x) None None None) ;;
  mu <- local (s_mu s) ;;
  std <- @raise tensor4 NameError ;;
  pi <- local (s_pi s) ;;
  termination <- local (s_termination s) ;;
  ret (s_self s, (mu, std, pi, termination)).

End Tts.

(* ------------------------------------------------------------------ *)
(** ** src/datasets/wavloader.py *)

Module Wavloader.

(** *** Arrays and tensors of the batch assembler

    The collate functions only index, pad, stack and transpose: an array is
    its shape and its indexing function, over any element type. *)

Record ndarray (A : Type) : Type := mkArray {
  shape : list nat;
  item : list nat -> A
}.

Arguments mkArray {A} _ _.
Arguments shape {A} _.
Arguments item {A} _ _.

(** [idx] addresses an element of an array of shape [shp]. *)
Definition in_bounds (idx shp : list nat) : Prop := Forall2 lt idx shp.

(** Same shape, same element at every index within it. *)
Definition array_eq {A : Type} (a b : ndarray A) : Prop :=
  shape a = shape b /\
  forall idx, in_bounds idx (shape a) -> item a idx = item b idx.

(** [a.shape[k]] *)
Definition shape_at {A : Type} (a : ndarray A) (k : nat) : res nat :=
  match nth_error (shape a) k with
  | Some n => ret n
  | None => raise IndexError
  end.

(** [a.T]: the axes reversed. *)
Definition T {A : Type} (a : ndarray A) : ndarray A :=
  mkArray (rev (shape a)) (fun idx => item a (rev idx)).

(** [t.transpose(1, 2)] *)
Definition swap12 (l : list nat) : list nat :=
  match l with
  | a :: b :: c :: rest => a :: c :: b :: rest
  | _ => l
  end.

Definition transpose12 {A : Type} (t : ndarray A) : res (ndarray A) :=
  if Nat.leb 3 (length (shape t))
  then ret (mkArray (swap12 (shape t)) (fun idx => item t (swap12 idx)))
  else raise IndexError.

(** [t[j]] *)
Definition select0 {A : Type} (t : ndarray A) (j : nat) : ndarray A :=
  mkArray (tl (shape t)) (fun idx => item t (j :: idx)).

(** [t[..., :n]] *)
Definition narrow_last {A : Type} (t : ndarray A) (n : nat) : ndarray A :=
  mkArray (removelast (shape t) ++
             match shape t with
             | [] => []
             | _ => [Nat.min n (last (shape t) 0)]
             end)
          (item t).

(** [t[:n]] *)
Definition narrow_first {A : Type} (t : ndarray A) (n : nat) : ndarray A :=
  mkArray (match shape t with
           | [] => []
           | d :: rest => Nat.min n d :: rest
           end)
          (item t).

Definition list_max (l : list nat) : nat := fold_right Nat.max 0 l.

Definition same_shape (a b : list nat) : bool :=
  if list_eq_dec Nat.eq_dec a b then true else false.

(** [torch.nn.utils.rnn.pad_sequence(sequences, batch_first=True)]: the
    sequences, each of shape [(L_j, ...)], stacked into [(B, max L_j, ...)] with
    [padding_value] (0 by default) behind each sequence. An empty list
    raises; so does a sequence whose trailing shape differs from the
    first's. *)
Definition pad_sequence {A : Type} (padding_value : A)
  (sequences : list (ndarray A)) : res (ndarray A) :=
  match sequences with
  | [] => raise RuntimeError
  | s0 :: _ =>
      let trailing := tl (shape s0) in
      if forallb (fun s => negb (Nat.eqb (length (shape s)) 0) &&
                           same_shape (tl (shape s)) trailing) sequences
      then
        let max_len := list_max (map (fun s => hd 0 (shape s)) sequences) in
        ret (mkArray
               (length sequences :: max_len :: trailing)
               (fun idx =>
                  match idx with
                  | b :: i :: rest =>
                      match nth_error sequences b with
                      | Some s =>
                          if Nat.ltb i (hd 0 (shape s))
                          then item s (i :: rest)
                          else padding_value
                      | None => padding_value
                      end
                  | _ => padding_value
                  end))
      else raise RuntimeError
  end.

(** *** class TextCollate *)

(** One item of [AudioTextDataset]: [(seq, source, target)]. *)
Definition text_sample : Type := (ndarray Z * ndarray R * ndarray R)%type.

(** One item of [AudioOnlyDataset]: [(source, target)]. *)
Definition audio_sample : Type := (ndarray R * ndarray R)%type.

(** [torch.from_numpy(a).long()] of an integer array. *)
Definition long (a : ndarray Z) : ndarray Z := a.

(** The padded stack of the transposed arrays, transposed back:
    [pad_sequence([from_numpy(a.T) for a in arrays], batch_first=True).transpose(1, 2)]. *)
Definition pad_frames (arrays : list (ndarray R)) : res (ndarray R) :=
  padded <- pad_sequence 0%R (map T arrays) ;;
  transpose12 padded.

(** [TextCollate.__call__]: returns
    [seq_padded, text_lengths, source_padded, target_padded, audio_lengths]. *)
Definition TextCollate_call (batch : list text_sample)
  : res (ndarray Z * list nat * ndarray R * ndarray R * list nat) :=
  let seq := map (fun x : text_sample => long (fst (fst x))) batch in
  text_lengths <- map_res (fun x => shape_at x 0) seq ;;
  seq_padded <- pad_sequence 0%Z seq ;;
  audio_lengths <-
    map_res (fun x : text_sample => shape_at (snd (fst x)) 1) batch ;;
  source_padded <- pad_frames (map (fun x : text_sample => snd (fst x)) batch) ;;
  target_padded <- pad_frames (map (fun x : text_sample => snd x) batch) ;;
  ret (seq_padded, text_lengths, source_padded, target_padded, audio_lengths).

(** *** class AudioCollate *)

(** [AudioCollate.__call__]: returns
    [source_padded, target_padded, audio_lengths]. *)
Definition AudioCollate_call (batch : list audio_sample)
  : res (ndarray R * ndarray R * list nat) :=
  audio_lengths <- map_res (fun x : audio_sample => shape_at (fst x) 1) batch ;;
  source_padded <- pad_frames (map (fun x : audio_sample => fst x) batch) ;;
  target_padded <- pad_frames (map (fun x : audio_sample => snd x) batch) ;;
  ret (source_padded, target_padded, audio_lengths).

(** *** The datasets *)

(** A Python float: a finite value (a rational), an infinity or NaN. *)
Inductive pyfloat : Type :=
| Finite (q : QArith_base.Q)
| PosInf
| NegInf
| NaN.

(** [a < b] on floats. *)
Definition float_lt (a b : pyfloat) : bool :=
  match a, b with
  | Finite x, Finite y =>
      if QArith_base.Qlt_le_dec x y then true else false
  | Finite _, PosInf => true
  | NegInf, Finite _ => true
  | NegInf, PosInf => true
  | _, _ => false
  end.

(** The part of the configuration [hp] the datasets read. *)
Record HParams : Type := mkHParams {
  data_path : string;
  data_name : string;
  data_extension : string;
  audio_sr : Z;
  audio_duration : pyfloat
}.

(** What the datasets call and do not define: the file system, [os.path],
    [float], [utils.get_length], [random.shuffle] after [random.seed(123)],
    and the double-precision product behind [int(0.95 * n)]. *)
Record Env : Type := mkEnv {
  read_lines : string -> res (list string);
  glob : string -> list string;
  path_join : list string -> string;
  float : string -> res pyfloat;
  get_length : string -> Z -> pyfloat;
  shuffle : forall A : Type, list A -> list A;
  int_095 : nat -> nat
}.

(** [s.split(sep)] for a one-character separator. *)
Fixpoint split (sep : ascii) (s : string) : list string :=
  match s with
  | EmptyString => [EmptyString]
  | String c rest =>
      if Ascii.eqb c sep
      then EmptyString :: split sep rest
      else match split sep rest with
           | f :: fs => String c f :: fs
           | [] => [String c EmptyString]
           end
  end.

(** [l[::3]] *)
Fixpoint every_third {A : Type} (l : list A) : list A :=
  match l with
  | a :: _ :: _ :: rest => a :: every_third rest
  | a :: _ => [a]
  | [] => []
  end.

(** The train or validation part of the shuffled list:
    [l[:int(0.95 * len(l))]] or [l[int(0.95 * len(l)):]]. *)
Definition split_part {A : Type} (env : Env) (train : bool) (l : list A)
  : list A :=
  if train
  then firstn (int_095 env (length l)) l
  else skipn (int_095 env (length l)) l.

(** [AudioOnlyDataset.__init__]: the value of [self.file_list]. *)
Definition AudioOnlyDataset_init (env : Env) (hp : HParams) (train : bool)
  : list string :=
  let file_list :=
    glob env (path_join env [data_path hp; "**"%string; data_extension hp]) in
  let file_list := shuffle env string file_list in
  split_part env train file_list.

(** The loop over the lines of the KSS transcript. *)
Fixpoint kss_lines (env : Env) (hp : HParams) (lines : list string)
  (dataset : list (string * string)) : res (list (string * string)) :=
  match lines with
  | [] => ret dataset
  | line :: rest =>
      match split "|"%char line with
      | [wav_name; _; _; text; length; _] =>
          let wav_path :=
            path_join env [data_path hp; "kss"%string; wav_name] in
          duraton <- float env length ;;
          if float_lt duraton (audio_duration hp)
          then kss_lines env hp rest (dataset ++ [(wav_path, text)])
          else kss_lines env hp rest dataset
      | _ => raise ValueError
      end
  end.

(** The loop over the (filename, sentence) pairs of the Blizzard prompts. *)
Fixpoint blizzard_pairs (env : Env) (hp : HParams)
  (pairs : list (string * string)) (dataset : list (string * string))
  : list (string * string) :=
  match pairs with
  | [] => dataset
  | (filename, sentence) :: rest =>
      let wav_path :=
        path_join env [data_path hp; "wavn"%string;
                       (filename ++ ".wav")%string] in
      let length := get_length env wav_path (audio_sr hp) in
      if float_lt length (audio_duration hp)
      then blizzard_pairs env hp rest (dataset ++ [(wav_path, sentence)])
      else blizzard_pairs env hp rest dataset
  end.

(** [AudioTextDataset.__init__]: the value of [self.dataset]. *)
Definition AudioTextDataset_init (env : Env) (hp : HParams) (train : bool)
  : res (list (string * string)) :=
  dataset <-
    (if String.eqb (data_name hp) "KSS" then
       lines <- read_lines env
                  (path_join env [data_path hp; "transcript.v.1.3.txt"%string]) ;;
       kss_lines env hp lines []
     else if String.eqb (data_name hp) "Blizzard" then
       lines <- read_lines env
                  (path_join env [data_path hp; "prompts.gui"%string]) ;;
       let filenames := every_third lines in
       let sentences := every_third (tl lines) in
       ret (blizzard_pairs env hp (combine filenames sentences) [])
     else raise NotImplementedError) ;;
  let dataset := shuffle env (string * string)%type dataset in
  ret (split_part env train dataset).

End Wavloader.

(* ------------------------------------------------------------------ *)
(** ** The alignment engine in the words of the specification *)

Module Spec.

Local Open Scope R_scope.

(** The sum of [f k] over [0 <= k < n]. *)
Definition sum_upto (n : nat) (f : nat -> R) : R :=
  Rsum (map f (seq 0 n)).

(** CDF(z; c, s) = 1 / (1 + exp((c - z)/s)) *)
Definition logistic_cdf (z c s : R) : R := 1 / (1 + exp ((c - z) / s)).

(** center = exp(raw[0:K]) *)
Definition center (raw : vec) (k : nat) : R := exp (nth k raw 0).

(** scale = exp(raw[K:2K]) *)
Definition scale (K : nat) (raw : vec) (k : nat) : R := exp (nth (K + k) raw 0).

(** mix_weight = softmax(raw[2K:3K]) *)
Definition mix_weight (K : nat) (raw : vec) (k : nat) : R :=
  exp (nth (2 * K + k) raw 0) /
  sum_upto K (fun j => exp (nth (2 * K + j) raw 0)).

(** Alignment weight at position u =
    sum over k of mix_weight_k * (CDF(u + 0.5) - CDF(u - 0.5)). *)
Definition alignment_weight (K : nat) (raw : vec) (pos : R) : R :=
  sum_upto K (fun k =>
    mix_weight K raw k *
    (logistic_cdf (pos + 0.5) (center raw k) (scale K raw k) -
     logistic_cdf (pos - 0.5) (center raw k) (scale K raw k))).

(** The weighted sum of the rows of [m] under the weights [w], at column
    [d]. *)
Definition weighted_pool (w : vec) (m : mat) (d : nat) : R :=
  sum_upto (length m) (fun pos => nth pos w 0 * nth d (nth pos m []) 0).

(** Termination probability = 1 - sum over k of mix_weight_k * CDF(u_R),
    read at the right boundary of memory slot [pos]. *)
Definition termination_at (K : nat) (raw : vec) (pos : R) : R :=
  1 - sum_upto K (fun k =>
        mix_weight K raw k *
        logistic_cdf (pos + 0.5) (center raw k) (scale K raw k)).

End Spec.

(* ------------------------------------------------------------------ *)
(** ** The batched code read one sample at a time *)

Module Rows.

Import Tts.
Local Open Scope R_scope.

(** [nn.Linear(hidden, 3 * M)] returns [3 * M] numbers per row. *)
Definition projects_3M (self : Attention) : Prop :=
  forall h, length (W_g self h) = (3 * M self)%nat.

(** [memory.new_tensor(range(T))] *)
Definition positions (T : nat) : vec := map INR (seq 0 T).

(** One row of [ksi_hat], [beta_hat] and [alpha_hat], from one row [p] of
    [phi_hat], for [K] mixture components. *)
Definition row_ksi (K : nat) (p : vec) : vec :=
  map exp (slice 0 K p).

Definition row_beta (K : nat) (p : vec) : vec :=
  map exp (slice K (2 * K) p).

Definition row_alpha (K : nat) (p : vec) : vec :=
  softmax (slice (2 * K) (3 * K) p).

(** One row of [term1] or [term2]. *)
Definition row_term (K : nat) (p : vec) (pos : vec) : vec :=
  mixture_row (row_alpha K p) (row_ksi K p) (row_beta K p) pos.

(** One row of [term1 - term2]. *)
Definition row_weights (K : nat) (p : vec) (T : nat) : vec :=
  map2 Rminus (row_term K p (map (fun z => z + 0.5) (positions T)))
              (row_term K p (map (fun z => z - 0.5) (positions T))).

(** One row of [termination]. *)
Definition row_termination (K : nat) (p : vec) (T : nat) : vec :=
  map (fun s => 1 - s) (row_term K p (map (fun z => z + 0.5) (positions T))).

(** What one call of [attention] returns for the hidden rows [hs]. *)
Definition step_weights (self : Attention) (T : nat) (hs : list vec)
  : list mat :=
  map (fun h => [row_weights (M self) (W_g self h) T]) hs.

Definition step_termination (self : Attention) (T : nat) (hs : list vec)
  : list vec :=
  map (fun h => row_termination (M self) (W_g self h) T) hs.

Definition step_context (self : Attention) (mem : Tensor3) (hs : list vec)
  : list mat :=
  map2 (fun w m => map (fun row => vecmat (size2 mem) row m) w)
       (step_weights self (size1 mem) hs) (data mem).

(** The object one call of [attention] leaves behind. *)
Definition attention_object (self : Attention) (T : nat) (hs : list vec)
  : Attention :=
  set_positions
    (set_mixture self
       (map (fun h => row_beta (M self) (W_g self h)) hs)
       (map (fun h => row_alpha (M self) (W_g self h)) hs))
    (positions T)
    (map (fun z => z + 0.5) (positions T))
    (map (fun z => z - 0.5) (positions T)).

(** Two [Attention] objects with the same layers; their other attributes
    may differ. *)
Definition same_layers (a b : Attention) : Prop :=
  M a = M b /\ W_g a = W_g b /\ rnn_cell a = rnn_cell b.

(** The state of the loop of [Attention.forward] after the steps whose
    hidden rows are [hidden], oldest first. *)
Definition loop_inv (self : Attention) (input_h_c mem : Tensor3)
  (hidden : list (list vec)) (s : loop_state) : Prop :=
  same_layers (l_self s) self /\
  ksi_hat_cum (l_self s) = ksi_hat_cum self /\
  length (l_h s) = size0 mem /\
  length (l_c s) = size0 mem /\
  Forall (fun hs => length hs = size0 mem) hidden /\
  l_weights s = map (step_weights self (size1 mem)) hidden /\
  l_contexts s = map (step_context self mem) hidden /\
  match rev hidden with
  | [] =>
      l_context s = Ctx2 (zeros2 (size0 input_h_c) (size2 input_h_c)) /\
      l_termination s = None
  | hs :: _ =>
      l_h s = hs /\
      l_context s = Ctx3 (step_context self mem hs) /\
      l_termination s = Some (step_termination self (size1 mem) hs)
  end.

(** Row [b] of the alignment map: one weight vector per step, each from the
    hidden row of sample [b] at that step. *)
Definition alignment_of (self : Attention) (T B : nat)
  (hidden : list (list vec)) : list mat :=
  map (fun b => map (fun hs => row_weights (M self) (W_g self (nth b hs [])) T)
                    hidden)
      (seq 0 B).

(** The gathered termination: per sample, the entry of its termination row
    at index [input_length - 1]. *)
Definition gathered (self : Attention) (T : nat) (hs : list vec)
  (input_lengths : list Z) : list vec :=
  map (fun p : vec * Z =>
         [nth (Z.to_nat (snd p - 1))
              (row_termination (M self) (W_g self (fst p)) T) 0])
      (combine hs input_lengths).

(** [t[b][m][i]] of a rank-4 tensor: the vector over the mixture
    components at sample [b], frequency bin [m], timestep [i]. *)
Definition cell (t : tensor4) (b m i : nat) : option vec :=
  match nth_error t b with
  | Some bins =>
      match nth_error bins m with
      | Some steps => nth_error steps i
      | None => None
      end
  | None => None
  end.

(** Every frequency bin of every sample of [t] has [T] timesteps. *)
Definition rectangular (t : tensor4) (T : nat) : Prop :=
  Forall (Forall (fun steps : list vec => length steps = T)) t.

End Rows.

(* ------------------------------------------------------------------ *)
(** ** Batches of the assembler *)

Module Batches.

Import Wavloader.

(** The length of a token sequence. *)
Definition seq_length {A : Type} (a : ndarray A) : nat := nth 0 (shape a) 0.

(** The length of the variable axis of a spectrogram of shape [(F, T)]. *)
Definition time_length {A : Type} (a : ndarray A) : nat := nth 1 (shape a) 0.

(** [padded[j][..., :n]]: row [j] of a padded batch cut back to [n]. *)
Definition trimmed {A : Type} (padded : ndarray A) (j n : nat) : ndarray A :=
  narrow_last (select0 padded j) n.

(** A non-empty batch of [AudioTextDataset] items: rank-1 token sequences,
    sources of [F] and targets of [F'] frequency bins, source and target of
    one item having the same number of frames. *)
Definition text_batch_ok (F F' : nat) (batch : list text_sample) : Prop :=
  batch <> [] /\
  Forall (fun x : text_sample =>
            exists n frames,
              shape (fst (fst x)) = [n] /\
              shape (snd (fst x)) = [F; frames] /\
              shape (snd x) = [F'; frames]) batch.

(** A non-empty batch of [AudioOnlyDataset] items. *)
Definition audio_batch_ok (F F' : nat) (batch : list audio_sample) : Prop :=
  batch <> [] /\
  Forall (fun x : audio_sample =>
            exists frames,
              shape (fst x) = [F; frames] /\
              shape (snd x) = [F'; frames]) batch.

(** [random.shuffle] returns a rearrangement of its argument. *)
Definition shuffle_permutes (env : Env) : Prop :=
  forall (A : Type) (l : list A), Permutation l (shuffle env A l).

(** The transcript line [line] yields the sample [(path, text)] with a
    duration field below the configured maximum. *)
Definition kss_source (env : Env) (hp : HParams) (line : string)
  (sample : string * string) : Prop :=
  exists wav_name f1 f2 length f5 duration,
    split "|"%char line = [wav_name; f1; f2; snd sample; length; f5] /\
    fst sample = path_join env [data_path hp; "kss"%string; wav_name] /\
    float env length = inr duration /\
    float_lt duration (audio_duration hp) = true.

End Batches.

(* ------------------------------------------------------------------ *)
(** ** Concrete inputs *)

Module Examples.

Import Tts.
Local Open Scope R_scope.

(** An engine with one mixture component whose projection is constant and
    whose recurrent cell keeps its state. *)
Definition demo_attention : Attention :=
  Attention_init 1 (fun _ hc => hc) (fun _ => [0; 0; 0]).

(** Two samples, two memory slots, width two. *)
Definition demo_memory : Tensor3 :=
  mkTensor3 2 2 2 [ [[1; 0]; [0; 1]]; [[1; 1]; [0; 0]] ].

(** One hidden row per sample. *)
Definition demo_hidden : list vec := [ [0; 0]; [0; 0] ].

(** A query of one step and a query of two steps, for two samples. *)
Definition demo_query1 : Tensor3 :=
  mkTensor3 2 1 2 [ [[0; 0]]; [[0; 0]] ].

Definition demo_query2 : Tensor3 :=
  mkTensor3 2 2 2 [ [[0; 0]; [1; 1]]; [[0; 0]; [1; 1]] ].

(** An engine with one mixture component whose hidden row is the query
    frame of the step and whose first center follows the hidden row: what a
    step returns tells which frame it was computed from. *)
Definition demo_tracking_attention : Attention :=
  Attention_init 1 (fun x hc => (firstn 2 x, snd hc))
                 (fun h => [nth 0 h 0; 0; 0]).

(** Text lengths 1 and 2: the first sample is padded to the memory length. *)
Definition demo_lengths : list Z := [1%Z; 2%Z].

(** A sequence model with one mixture component, no [DelayedRNN] layer and
    constant projections of width two. *)
Definition demo_tts : TTS :=
  mkTTS (mkHParams 2 1) 1%Z
        (fun _ => [0; 0]) (fun _ => [0; 0]) (fun _ => [0; 0])
        [] 1 (fun _ => [1; 2; 3])
        (fun _ => (demo_memory, ([], [])))
        demo_attention.

(** Two spectrograms of one frequency bin and two frames. *)
Definition demo_x : Tensor3 :=
  mkTensor3 2 1 2 [ [[1; 2]]; [[3; 4]] ].

Definition demo_text : list (list Z) := [ [5%Z; 0%Z]; [5%Z; 6%Z] ].

(** Output lengths 1 and 2: the second frame of the first sample is
    padding. *)
Definition demo_output_lengths : list Z := [1%Z; 2%Z].

(** The sub-modules a constructor call would build for [demo_tts]. *)
Definition demo_modules : Modules :=
  mkModules (fun _ => [0; 0]) (fun _ => [0; 0]) (fun _ => [0; 0])
            (fun _ h => h) (fun _ => [1; 2; 3])
            (fun _ => (demo_memory, ([], [])))
            (fun _ hc => hc) (fun _ => [0; 0; 0]).

(** A spectrogram from its rows, one row per frequency bin. *)
Definition spectrogram (rows : list (list R)) : Wavloader.ndarray R :=
  Wavloader.mkArray
    [length rows; length (hd [] rows)]
    (fun idx => match idx with
                | [f; i] => nth i (nth f rows []) 0
                | _ => 0
                end).

(** A token sequence from its tokens. *)
Definition tokens (l : list Z) : Wavloader.ndarray Z :=
  Wavloader.mkArray
    [length l]
    (fun idx => match idx with
                | [i] => nth i l 0%Z
                | _ => 0%Z
                end).

(** Two items: two tokens and two frames, one token and one frame. *)
Definition demo_text_batch : list Wavloader.text_sample :=
  [ (tokens [7%Z; 8%Z], spectrogram [[1; 2]], spectrogram [[3; 4]]);
    (tokens [9%Z], spectrogram [[5]], spectrogram [[6]]) ].

Definition demo_audio_batch : list Wavloader.audio_sample :=
  [ (spectrogram [[1; 2]], spectrogram [[3; 4]]);
    (spectrogram [[5]], spectrogram [[6]]) ].

(** A file system with a two-line KSS transcript and one audio file of 100
    seconds; [float] reads the two durations of the transcript; the shuffle
    reverses; [int(0.95 * n)] is exact for the small [n] used here. *)
Definition demo_env : Wavloader.Env :=
  Wavloader.mkEnv
    (fun _ => inr [ "a.wav|1|2|hello|3.5|x"%string;
                    "b.wav|1|2|good bye|12.0|x"%string ])
    (fun _ => [ "long.wav"%string ])
    (fun parts => String.concat "/" parts)
    (fun s => if String.eqb s "3.5"
              then inr (Wavloader.Finite (QArith_base.Qmake 7 2))
              else if String.eqb s "12.0"
                   then inr (Wavloader.Finite (QArith_base.Qmake 12 1))
                   else inl ValueError)
    (fun _ _ => Wavloader.Finite (QArith_base.Qmake 100 1))
    (fun A l => rev l)
    (fun n => (95 * n / 100)%nat).

(** KSS, clips of at most 10 seconds. *)
Definition demo_hp : Wavloader.HParams :=
  Wavloader.mkHParams "data" "KSS" "*.wav" 22050%Z
                      (Wavloader.Finite (QArith_base.Qmake 10 1)).

End Examples.


(* ------------------------------------------------------------------ *)
(** ** The attention mass outside the memory *)

Module Mass.

Import Spec.
Local Open Scope R_scope.

(** The mass the mixture of CDFs puts to the left of memory slot 0:
    the sum over k of mix_weight_k * CDF(-0.5). *)
Definition left_mass (K : nat) (raw : vec) : R :=
  sum_upto K (fun k =>
    mix_weight K raw k * logistic_cdf (- 0.5) (center raw k) (scale K raw k)).

End Mass.

(* ------------------------------------------------------------------ *)
(** ** Entries of a spectrogram batch *)

Module Frames.

Local Open Scope R_scope.

(** [x[b, m, i]] *)
Definition entry (x : Tensor3) (b m i : nat) : R :=
  nth i (nth m (nth b (data x) []) []) 0.

End Frames.

(* ------------------------------------------------------------------ *)
(** ** src/datasets/wavloader.py: the items of the datasets *)

Module Items.

Import Wavloader.

(** [l[idx]] for a Python int: a negative index counts from the end. *)
Definition list_getitem {A : Type} (l : list A) (idx : Z) : res A :=
  let i := if (idx <? 0)%Z then (idx + Z.of_nat (length l))%Z else idx in
  if (i <? 0)%Z then raise IndexError
  else match nth_error l (Z.to_nat i) with
       | Some a => ret a
       | None => raise IndexError
       end.

(** What [__getitem__] calls and does not define: [utils.read_wav_np],
    [MelGen.get_normalized_mel], [TierUtil.cut_divide_tiers],
    [text.text_to_sequence] and [utils.process_blizzard]. *)
Record Loader : Type := mkLoader {
  read_wav_np : string -> Z -> res (ndarray R);
  get_normalized_mel : ndarray R -> res (ndarray R);
  cut_divide_tiers : ndarray R -> Z -> res (ndarray R * ndarray R);
  text_to_sequence : string -> res (ndarray Z);
  process_blizzard : string -> res (ndarray Z)
}.

(** [AudioOnlyDataset.__len__] *)
Definition AudioOnlyDataset_len (file_list : list string) : nat :=
  length file_list.

(** [AudioOnlyDataset.__getitem__], on the [file_list] the constructor
    left. *)
Definition AudioOnlyDataset_getitem (ld : Loader) (hp : HParams) (tier : Z)
  (file_list : list string) (idx : Z) : res audio_sample :=
  path <- list_getitem file_list idx ;;
  wav <- read_wav_np ld path (audio_sr hp) ;;
  mel <- get_normalized_mel ld wav ;;
  ' (source, target) <- cut_divide_tiers ld mel tier ;;
  ret (source, target).

(** [AudioTextDataset.__len__] *)
Definition AudioTextDataset_len (dataset : list (string * string)) : nat :=
  length dataset.

(** [AudioTextDataset.__getitem__], on the [dataset] the constructor left:
    [seq] is bound in the two branches on the dataset name and read at the
    [return]. *)
Definition AudioTextDataset_getitem (ld : Loader) (hp : HParams) (tier : Z)
  (dataset : list (string * string)) (idx : Z) : res text_sample :=
  entry <- list_getitem dataset idx ;;
  let text := snd entry in
  seq <- (if String.eqb (data_name hp) "KSS" then
            s <- text_to_sequence ld text ;; ret (Some s)
          else if String.eqb (data_name hp) "Blizzard" then
            s <- process_blizzard ld text ;; ret (Some s)
          else ret None) ;;
  entry <- list_getitem dataset idx ;;
  wav <- read_wav_np ld (fst entry) (audio_sr hp) ;;
  mel <- get_normalized_mel ld wav ;;
  ' (source, target) <- cut_divide_tiers ld mel tier ;;
  seq <- Tts.local seq ;;
  ret (seq, source, target).

End Items.

(* ------------------------------------------------------------------ *)
(** ** Lines of the KSS transcript *)

Module Transcript.

Import Wavloader.

(** A line the loop of [AudioTextDataset.__init__] gets through: six fields
    between the bars, the fifth one a number for [float]. *)
Definition kss_well_formed (env : Env) (line : string) : Prop :=
  exists wav_name f1 f2 text length f5 duration,
    split "|"%char line = [wav_name; f1; f2; text; length; f5] /\
    float env length = inr duration.

End Transcript.

(* ------------------------------------------------------------------ *)
(** ** More concrete inputs *)

Module Fixtures.

Import Wavloader Items Examples.

(** A Blizzard prompt file of two records, whose audio files last 3.5 and
    100 seconds, and a directory of two audio files. *)
Definition demo_blizzard_env : Env :=
  mkEnv
    (fun _ => inr [ "f1"%string; "Hello."%string; "h @ l @U"%string;
                    "f2"%string; "Bye."%string; "b aI"%string ])
    (fun _ => [ "a.wav"%string; "b.wav"%string ])
    (fun parts => String.concat "/" parts)
    (fun _ => inl ValueError)
    (fun path _ => if String.eqb path "data/wavn/f1.wav"
                   then Finite (QArith_base.Qmake 7 2)
                   else Finite (QArith_base.Qmake 100 1))
    (fun A l => rev l)
    (fun n => (95 * n / 100)%nat).

(** Blizzard, clips of at most 10 seconds. *)
Definition demo_blizzard_hp : HParams :=
  mkHParams "data" "Blizzard" "*.wav" 22050%Z
            (Finite (QArith_base.Qmake 10 1)).

(** Library calls that return fixed arrays. *)
Definition demo_loader : Loader :=
  mkLoader (fun _ _ => inr (spectrogram [[0%R]]))
           (fun w => inr w)
           (fun m _ => inr (m, m))
           (fun _ => inr (tokens [1%Z]))
           (fun _ => inr (tokens [2%Z])).

(** The spectrograms of [demo_x] with another last entry. *)
Definition demo_x_other : Tensor3 :=
  mkTensor3 2 1 2 [ [[1%R; 5%R]]; [[3%R; 7%R]] ].

End Fixtures.
(* ------------------------------------------------------------------ *)
(** * Proofs *)

(** ** Lists, sums and the error monad *)

Module Facts.

Import Torch.
Local Open Scope R_scope.

(** Membership in a mapped list, opened: [H : In y (map f l)] becomes
    [Hx : In x l] with [y] replaced by [f x]. *)
Ltac in_map H x Hx :=
  apply in_map_iff in H; destruct H as (x & <- & Hx).

Lemma bind_ok {A B : Type} (m : res A) (f : A -> res B) (b : B) :
  bind m f = inr b -> exists a, m = inr a /\ f a = inr b.
Proof.
  destruct m as [e | a]; simpl; intros H; [discriminate | eauto].
Qed.

Lemma map_res_ok {A B : Type} (f : A -> res B) (g : A -> B) (l : list A) :
  (forall a, In a l -> f a = inr (g a)) -> map_res f l = inr (map g l).
Proof.
  induction l as [| a l IH]; intros H; simpl; [reflexivity |].
  rewrite (H a (or_introl eq_refl)). simpl.
  rewrite IH by (intros x Hx; apply H; now right). reflexivity.
Qed.

Lemma nth_error_combine {A B : Type} (l1 : list A) (l2 : list B) (i : nat) :
  nth_error (combine l1 l2) i =
  match nth_error l1 i, nth_error l2 i with
  | Some a, Some b => Some (a, b)
  | _, _ => None
  end.
Proof.
  revert l2 i; induction l1 as [| a l1 IH]; intros [| b l2] [| i]; simpl; auto.
  destruct (nth_error l1 i); reflexivity.
Qed.

Lemma nth_error_map2 {A B C : Type} (f : A -> B -> C) l1 l2 (i : nat) :
  nth_error (map2 f l1 l2) i =
  match nth_error l1 i, nth_error l2 i with
  | Some a, Some b => Some (f a b)
  | _, _ => None
  end.
Proof.
  unfold map2. rewrite nth_error_map, nth_error_combine.
  destruct (nth_error l1 i), (nth_error l2 i); reflexivity.
Qed.

Lemma length_map2 {A B C : Type} (f : A -> B -> C) l1 l2 :
  length (map2 f l1 l2) = Nat.min (length l1) (length l2).
Proof. unfold map2. now rewrite length_map, length_combine. Qed.

Lemma nth_map2 {C : Type} (f : R -> R -> C) (d : C) l1 l2 (i : nat) :
  (i < length l1)%nat -> (i < length l2)%nat ->
  nth i (map2 f l1 l2) d = f (nth i l1 0) (nth i l2 0).
Proof.
  intros H1 H2. apply nth_error_nth.
  rewrite nth_error_map2.
  rewrite (nth_error_nth' l1 0 H1), (nth_error_nth' l2 0 H2). reflexivity.
Qed.

(** A list is its elements read by position. *)
Lemma list_by_position {A : Type} (d : A) (l : list A) :
  l = map (fun k => nth k l d) (seq 0 (length l)).
Proof.
  apply nth_ext with (d := d) (d' := d).
  - now rewrite length_map, length_seq.
  - intros n Hn.
    rewrite (nth_indep (map _ _) d (nth 0 l d))
      by now rewrite length_map, length_seq.
    rewrite (map_nth (fun k => nth k l d)), seq_nth by assumption.
    reflexivity.
Qed.

Lemma map_by_position {A B : Type} (d : A) (f : A -> B) (l : list A) :
  map f l = map (fun k => f (nth k l d)) (seq 0 (length l)).
Proof.
  rewrite (list_by_position d l) at 1. now rewrite map_map.
Qed.

Lemma Rsum_app (l1 l2 : list R) : Rsum (l1 ++ l2) = Rsum l1 + Rsum l2.
Proof.
  induction l1 as [| a l1 IH]; simpl; [lra |]. rewrite IH. lra.
Qed.

Lemma Rsum_ext {A : Type} (f g : A -> R) (l : list A) :
  (forall a, In a l -> f a = g a) -> Rsum (map f l) = Rsum (map g l).
Proof.
  intros H. f_equal. apply map_ext_in. exact H.
Qed.

Lemma Rsum_minus {A : Type} (f g : A -> R) (l : list A) :
  Rsum (map (fun a => f a - g a) l) = Rsum (map f l) - Rsum (map g l).
Proof.
  induction l as [| a l IH]; simpl; [lra |]. rewrite IH. lra.
Qed.

Lemma Rsum_scal {A : Type} (c : R) (f : A -> R) (l : list A) :
  Rsum (map (fun a => c * f a) l) = c * Rsum (map f l).
Proof.
  induction l as [| a l IH]; simpl; [lra |]. rewrite IH. lra.
Qed.

Lemma Rsum_nonneg (l : list R) : Forall (fun x => 0 <= x) l -> 0 <= Rsum l.
Proof.
  induction 1 as [| x l Hx _ IH]; simpl; lra.
Qed.

Lemma Rsum_le {A : Type} (f g : A -> R) (l : list A) :
  (forall a, In a l -> f a <= g a) -> Rsum (map f l) <= Rsum (map g l).
Proof.
  induction l as [| a l IH]; simpl; intros H; [lra |].
  specialize (IH (fun x Hx => H x (or_intror Hx))).
  specialize (H a (or_introl eq_refl)). lra.
Qed.

(** Summing a table by rows or by columns gives the same total. *)
Lemma Rsum_swap {A B : Type} (f : A -> B -> R) (la : list A) (lb : list B) :
  Rsum (map (fun a => Rsum (map (fun b => f a b) lb)) la) =
  Rsum (map (fun b => Rsum (map (fun a => f a b) la)) lb).
Proof.
  induction la as [| a la IH]; simpl.
  - induction lb as [| b lb IHb]; simpl; [reflexivity | rewrite <- IHb; lra].
  - rewrite IH. clear IH.
    induction lb as [| b lb IHb]; simpl; [lra |]. rewrite <- IHb. lra.
Qed.

Lemma length_zeros n : length (zeros n) = n.
Proof. apply repeat_length. Qed.

Lemma nth_zeros n i : nth i (zeros n) 0 = 0.
Proof.
  unfold zeros. destruct (Nat.lt_ge_cases i n) as [H | H].
  - now apply nth_repeat_lt.
  - apply nth_overflow. now rewrite repeat_length.
Qed.

Lemma length_sum_rows n rows :
  Forall (fun r : vec => length r = n) rows -> length (sum_rows n rows) = n.
Proof.
  induction 1 as [| r rows Hr _ IH]; simpl.
  - apply length_zeros.
  - unfold vadd. rewrite length_map2, IH, Hr. apply Nat.min_id.
Qed.

(** Column [i] of the sum of the rows is the sum of column [i]. *)
Lemma nth_sum_rows n rows i :
  Forall (fun r : vec => length r = n) rows -> (i < n)%nat ->
  nth i (sum_rows n rows) 0 = Rsum (map (fun r => nth i r 0) rows).
Proof.
  intros Hall Hi. induction Hall as [| r rows Hr Hrows IH]; simpl.
  - apply nth_zeros.
  - unfold vadd. rewrite nth_map2.
    + fold (sum_rows n rows). now rewrite IH.
    + now rewrite Hr.
    + fold (sum_rows n rows). now rewrite length_sum_rows.
Qed.

(** Lengths of the list operations, as rewrite rules. *)
Create Rewrite HintDb shapes.
#[export] Hint Rewrite @length_map @length_seq @repeat_length @length_app
  @length_combine @length_map2 length_zeros Nat.min_id : shapes.

End Facts.
(* ------------------------------------------------------------------ *)
(** ** One step of the alignment engine: [Attention.attention] *)

Module AttentionStep.

Import Tts Facts Spec Rows.
Local Open Scope R_scope.

Lemma map_combine3 {A B C D E : Type} (fa : A -> B) (fx : A -> C) (fb : A -> D)
  (g : B * (C * D) -> E) (l : list A) :
  map g (combine (map fa l) (combine (map fx l) (map fb l))) =
  map (fun a => g (fa a, (fx a, fb a))) l.
Proof. induction l as [| a l IH]; simpl; [reflexivity | now rewrite IH]. Qed.

Lemma map2_diag {A B C D : Type} (f : B -> C -> D) (g : A -> B) (h : A -> C) l :
  map2 f (map g l) (map h l) = map (fun a => f (g a) (h a)) l.
Proof. unfold map2. induction l as [| a l IH]; simpl; [reflexivity | now rewrite IH]. Qed.

Lemma mixture_sum_rows self phi pos :
  mixture_sum (map (row_alpha (M self)) phi) (map (row_ksi (M self)) phi)
              (map (row_beta (M self)) phi) pos =
  map (fun p => row_term (M self) p pos) phi.
Proof. unfold mixture_sum. now rewrite map_combine3. Qed.

Lemma attention_rows self h_i mem :
  attention self h_i (MemTensor mem) =
  (context <- bmm (map (fun h => [row_weights (M self) (W_g self h) (size1 mem)]) h_i) mem ;;
   ret (set_positions
          (set_mixture self (map (fun h => row_beta (M self) (W_g self h)) h_i)
                            (map (fun h => row_alpha (M self) (W_g self h)) h_i))
          (positions (size1 mem))
          (map (fun z => z + 0.5) (positions (size1 mem)))
          (map (fun z => z - 0.5) (positions (size1 mem))),
        (context,
         map (fun h => [row_weights (M self) (W_g self h) (size1 mem)]) h_i,
         map (fun h => row_termination (M self) (W_g self h) (size1 mem)) h_i))).
Proof.
  unfold attention, row_weights, row_termination, positions. simpl.
  set (pos := map INR (seq 0 (size1 mem))).
  set (pos_R := map (fun z => z + 0.5) pos).
  set (pos_L := map (fun z => z - 0.5) pos).
  change (map (fun p => map exp (slice 0 (M self) p)) (map (W_g self) h_i))
    with (map (row_ksi (M self)) (map (W_g self) h_i)).
  change (map (fun p => map exp (slice (M self) (M self + (M self + 0)) p)) (map (W_g self) h_i))
    with (map (row_beta (M self)) (map (W_g self) h_i)).
  change (map (fun p => softmax (slice (M self + (M self + 0)) (M self + (M self + (M self + 0))) p)) (map (W_g self) h_i))
    with (map (row_alpha (M self)) (map (W_g self) h_i)).
  rewrite !mixture_sum_rows.
  rewrite map2_diag. rewrite !map_map.
  reflexivity.
Qed.

Lemma bmm_ok (a : list mat) (b : Tensor3) :
  length a = size0 b ->
  bmm a b = inr (map2 (fun w m => map (fun row => vecmat (size2 b) row m) w)
                      a (data b)).
Proof.
  intros H. unfold bmm. now rewrite H, Nat.eqb_refl.
Qed.

(** With batch sizes that agree, [attention] returns, and what it returns
    is made of the per-sample rows. *)
Lemma attention_ok self hs mem :
  length hs = size0 mem ->
  attention self hs (MemTensor mem) =
  inr (attention_object self (size1 mem) hs,
       (step_context self mem hs,
        step_weights self (size1 mem) hs,
        step_termination self (size1 mem) hs)).
Proof.
  intros H. rewrite attention_rows, bmm_ok by now rewrite length_map.
  reflexivity.
Qed.

Lemma nth_slice (lo hi k : nat) (l : vec) :
  (hi <= length l)%nat -> (lo + k < hi)%nat -> nth k (slice lo hi l) 0 = nth (lo + k) l 0.
Proof.
  intros Hhi Hk. unfold slice.
  rewrite nth_firstn.
  replace (k <? hi - lo)%nat with true by (symmetry; apply Nat.ltb_lt; lia).
  now rewrite nth_skipn.
Qed.

Lemma length_slice {A : Type} (lo hi : nat) (l : list A) :
  (lo <= hi)%nat -> (hi <= length l)%nat -> length (slice lo hi l) = (hi - lo)%nat.
Proof.
  intros H1 H2. unfold slice. rewrite length_firstn, length_skipn. lia.
Qed.

Lemma nth_map_R (f : R -> R) (l : vec) (k : nat) :
  (k < length l)%nat -> nth k (map f l) 0 = f (nth k l 0).
Proof.
  intros H. rewrite (nth_indep _ 0 (f 0)) by now rewrite length_map.
  apply map_nth.
Qed.

Lemma nth_positions (f : R -> R) (T u : nat) :
  (u < T)%nat -> nth u (map f (positions T)) 0 = f (INR u).
Proof.
  intros H. unfold positions. rewrite map_map.
  rewrite (nth_indep _ 0 (f (INR 0))) by now rewrite length_map, length_seq.
  rewrite (map_nth (fun x => f (INR x))), seq_nth by assumption. reflexivity.
Qed.

Lemma length_positions (f : R -> R) T : length (map f (positions T)) = T.
Proof. unfold positions. now autorewrite with shapes. Qed.

(** The per-component form of one column of [mixture_row]. *)
Lemma nth_mixture_row (n : nat) (a x b pos : vec) (i : nat) :
  length a = n -> length x = n -> length b = n -> (i < length pos)%nat ->
  nth i (mixture_row a x b pos) 0 =
  sum_upto n (fun k =>
    nth k a 0 * / (1 + exp ((nth k x 0 - nth i pos 0) / nth k b 0))).
Proof.
  intros Ha Hx Hb Hi. unfold mixture_row, sum_upto.
  rewrite nth_sum_rows; [| | exact Hi].
  - rewrite map_map.
    rewrite (map_by_position (0, (0, 0))).
    rewrite !length_combine, Ha, Hx, Hb, !Nat.min_id.
    apply Rsum_ext. intros k Hk. apply in_seq in Hk.
    rewrite combine_nth by (rewrite length_combine; lia).
    rewrite combine_nth by lia.
    now rewrite nth_map_R.
  - apply Forall_forall. intros r Hr. apply in_map_iff in Hr.
    destruct Hr as [[ak [xk bk]] [<- _]]. apply length_map.
Qed.

(** *** One row of the projection

    A row [p] of [phi_hat] holds [3 * K] numbers: the lemmas of this section
    read the rows of the step off it. *)

Section Row.

Variable K : nat.
Variable p : vec.
Hypothesis Hp : length p = (3 * K)%nat.

Lemma Rsum_softmax_den :
  Rsum (map exp (slice (2 * K) (3 * K) p)) =
  sum_upto K (fun j => exp (nth (2 * K + j) p 0)).
Proof.
  unfold sum_upto.
  rewrite (map_by_position 0), length_slice by lia.
  replace (3 * K - 2 * K)%nat with K by lia.
  apply Rsum_ext. intros k Hk. apply in_seq in Hk.
  rewrite nth_slice by lia. reflexivity.
Qed.

Lemma nth_row_alpha k :
  (k < K)%nat -> nth k (row_alpha K p) 0 = mix_weight K p k.
Proof.
  intros Hk. unfold row_alpha, softmax, mix_weight.
  rewrite nth_map_R by (rewrite length_slice; lia).
  rewrite nth_slice by lia. now rewrite Rsum_softmax_den.
Qed.

Lemma nth_row_ksi k :
  (k < K)%nat -> nth k (row_ksi K p) 0 = center p k.
Proof.
  intros Hk. unfold row_ksi, center.
  rewrite nth_map_R by (rewrite length_slice; lia).
  now rewrite nth_slice by lia.
Qed.

Lemma nth_row_beta k :
  (k < K)%nat -> nth k (row_beta K p) 0 = scale K p k.
Proof.
  intros Hk. unfold row_beta, scale.
  rewrite nth_map_R by (rewrite length_slice; lia).
  now rewrite nth_slice by lia.
Qed.

Lemma length_row_parts :
  length (row_alpha K p) = K /\ length (row_ksi K p) = K /\
  length (row_beta K p) = K.
Proof.
  unfold row_alpha, row_ksi, row_beta, softmax.
  rewrite !length_map, !length_slice by lia. lia.
Qed.

Lemma length_row_term pos : length (row_term K p pos) = length pos.
Proof.
  unfold row_term, mixture_row. apply length_sum_rows.
  apply Forall_forall. intros r Hr. in_map Hr c Hc. destruct c as [ak [xk bk]].
  apply length_map.
Qed.

(** One column of the mixture sum, in the words of the specification. *)
Lemma nth_row_term (f : R -> R) T i :
  (i < T)%nat ->
  nth i (row_term K p (map f (positions T))) 0 =
  sum_upto K (fun k =>
    mix_weight K p k *
    logistic_cdf (f (INR i)) (center p k) (scale K p k)).
Proof.
  intros Hi. destruct length_row_parts as (Ha & Hx & Hb).
  unfold row_term.
  rewrite (nth_mixture_row K); try assumption;
    [| now rewrite length_positions].
  apply Rsum_ext. intros k Hk. apply in_seq in Hk.
  rewrite nth_row_alpha, nth_row_ksi, nth_row_beta, nth_positions by lia.
  unfold logistic_cdf, Rdiv. now rewrite Rmult_1_l.
Qed.

Lemma length_row_weights T : length (row_weights K p T) = T.
Proof.
  unfold row_weights.
  autorewrite with shapes. rewrite !length_row_term, !length_positions.
  apply Nat.min_id.
Qed.

Lemma length_row_termination T : length (row_termination K p T) = T.
Proof.
  unfold row_termination.
  now rewrite length_map, length_row_term, length_positions.
Qed.

Lemma nth_row_weights T i :
  (i < T)%nat ->
  nth i (row_weights K p T) 0 = alignment_weight K p (INR i).
Proof.
  intros Hi. unfold row_weights.
  rewrite nth_map2 by (rewrite length_row_term, length_positions; exact Hi).
  rewrite !nth_row_term by assumption.
  unfold alignment_weight, sum_upto. rewrite <- Rsum_minus.
  apply Rsum_ext. intros k _. lra.
Qed.

Lemma nth_row_termination T i :
  (i < T)%nat ->
  nth i (row_termination K p T) 0 = termination_at K p (INR i).
Proof.
  intros Hi. unfold row_termination.
  rewrite nth_map_R by (rewrite length_row_term, length_positions; exact Hi).
  now rewrite nth_row_term.
Qed.

(** The row of weights is the alignment weights of the specification, slot
    by slot. *)
Lemma row_weights_spec T :
  row_weights K p T = map (fun i => alignment_weight K p (INR i)) (seq 0 T).
Proof.
  rewrite (list_by_position 0 (row_weights K p T)).
  rewrite length_row_weights. apply map_ext_in. intros i Hi.
  apply in_seq in Hi. apply nth_row_weights. lia.
Qed.

End Row.

Lemma length_vecmat D (w : vec) (m : mat) :
  Forall (fun v : vec => length v = D) m -> length (vecmat D w m) = D.
Proof.
  intros Hm. unfold vecmat. apply length_sum_rows.
  apply Forall_forall. intros r Hr. unfold map2 in Hr.
  apply in_map_iff in Hr. destruct Hr as [[wk rk] [<- Hin]]. simpl.
  rewrite length_map. apply in_combine_r in Hin.
  rewrite Forall_forall in Hm. now apply Hm.
Qed.

Lemma nth_vecmat D (w : vec) (m : mat) d :
  Forall (fun v : vec => length v = D) m -> length w = length m -> (d < D)%nat ->
  nth d (vecmat D w m) 0 = weighted_pool w m d.
Proof.
  intros Hm Hw Hd. unfold vecmat, weighted_pool, sum_upto.
  rewrite nth_sum_rows; [| | exact Hd].
  - unfold map2. rewrite map_map.
    rewrite (map_by_position (0, [])), length_combine, Hw, Nat.min_id.
    apply Rsum_ext. intros k Hk. apply in_seq in Hk.
    rewrite combine_nth by exact Hw. simpl.
    apply nth_map_R.
    rewrite Forall_forall in Hm. rewrite (Hm (nth k m [])); [exact Hd |].
    apply nth_In. lia.
  - apply Forall_forall. intros r Hr. unfold map2 in Hr.
    apply in_map_iff in Hr. destruct Hr as [[wk rk] [<- Hin]]. simpl.
    rewrite length_map. apply in_combine_r in Hin.
    rewrite Forall_forall in Hm. now apply Hm.
Qed.

Lemma wf3_row (mem : Tensor3) b m :
  wf3 mem -> nth_error (data mem) b = Some m ->
  length m = size1 mem /\ Forall (fun v : vec => length v = size2 mem) m.
Proof.
  intros [_ Hall] Hb. rewrite Forall_forall in Hall.
  apply Hall. eapply nth_error_In; eassumption.
Qed.

Lemma logistic_cdf_bounds z c s : 0 < logistic_cdf z c s < 1.
Proof.
  unfold logistic_cdf.
  pose proof (exp_pos ((c - z) / s)) as He.
  split.
  - apply Rdiv_lt_0_compat; lra.
  - apply (Rmult_lt_reg_r (1 + exp ((c - z) / s))); [lra |].
    unfold Rdiv. rewrite Rmult_assoc, Rinv_l by lra. lra.
Qed.

Lemma exp_le x y : x <= y -> exp x <= exp y.
Proof.
  intros [H | ->]; [left; now apply exp_increasing | right; reflexivity].
Qed.

Lemma logistic_cdf_mono z1 z2 c s :
  0 < s -> z1 <= z2 -> logistic_cdf z1 c s <= logistic_cdf z2 c s.
Proof.
  intros Hs Hz. unfold logistic_cdf, Rdiv. rewrite !Rmult_1_l.
  pose proof (exp_pos ((c - z2) * / s)) as He2.
  apply Rinv_le_contravar; [lra |].
  apply Rplus_le_compat_l, exp_le.
  apply Rmult_le_compat_r; [left; now apply Rinv_0_lt_compat | lra].
Qed.

Lemma sum_upto_pos n (f : nat -> R) :
  (0 < n)%nat -> (forall k, 0 < f k) -> 0 < sum_upto n f.
Proof.
  intros Hn Hf. unfold sum_upto. destruct n as [| n]; [lia |].
  simpl. pose proof (Hf 0%nat) as H0.
  assert (0 <= Rsum (map f (seq 1 n))).
  { apply Rsum_nonneg, Forall_forall. intros x Hx.
    apply in_map_iff in Hx. destruct Hx as [k [<- _]]. left. apply Hf. }
  lra.
Qed.

Lemma mix_weight_nonneg K p k : (k < K)%nat -> 0 <= mix_weight K p k.
Proof.
  intros Hk. unfold mix_weight. left. apply Rdiv_lt_0_compat; [apply exp_pos |].
  apply sum_upto_pos; [lia | intros j; apply exp_pos].
Qed.

Lemma sum_mix_weight K p : (0 < K)%nat -> sum_upto K (mix_weight K p) = 1.
Proof.
  intros HK. unfold mix_weight.
  set (Z := sum_upto K (fun j => exp (nth (2 * K + j) p 0))).
  assert (HZ : 0 < Z) by (apply sum_upto_pos; [lia | intros j; apply exp_pos]).
  unfold sum_upto, Rdiv.
  rewrite (Rsum_ext _ (fun k => / Z * exp (nth (2 * K + k) p 0)))
    by (intros; apply Rmult_comm).
  rewrite Rsum_scal. fold (sum_upto K (fun k => exp (nth (2 * K + k) p 0))).
  fold Z. apply Rinv_l. lra.
Qed.

Lemma sum_mix_weight_le K p : sum_upto K (mix_weight K p) <= 1.
Proof.
  destruct K as [| K]; [unfold sum_upto; simpl; lra |].
  right. apply sum_mix_weight. lia.
Qed.

(** A mixture of values between [lo] and [hi] lies between [lo] and [hi]
    times the total weight. *)
Lemma mixture_between K p (f : nat -> R) :
  (forall k, 0 <= f k <= 1) ->
  0 <= sum_upto K (fun k => mix_weight K p k * f k) <= 1.
Proof.
  intros Hf. split.
  - apply Rsum_nonneg, Forall_forall. intros x Hx.
    apply in_map_iff in Hx. destruct Hx as [k [<- Hk]]. apply in_seq in Hk.
    apply Rmult_le_pos; [apply mix_weight_nonneg; lia | apply Hf].
  - apply Rle_trans with (sum_upto K (mix_weight K p));
      [| apply sum_mix_weight_le].
    apply Rsum_le. intros k Hk. apply in_seq in Hk.
    pose proof (mix_weight_nonneg K p k ltac:(lia)). specialize (Hf k). nra.
Qed.

Lemma scale_pos K p k : 0 < scale K p k.
Proof. apply exp_pos. Qed.

Lemma center_pos p k : 0 < center p k.
Proof. apply exp_pos. Qed.

Lemma alignment_weight_bounds K p pos :
  0 <= alignment_weight K p pos <= 1.
Proof.
  unfold alignment_weight. apply mixture_between. intros k.
  pose proof (logistic_cdf_bounds (pos + 0.5) (center p k) (scale K p k)).
  pose proof (logistic_cdf_bounds (pos - 0.5) (center p k) (scale K p k)).
  pose proof (logistic_cdf_mono (pos - 0.5) (pos + 0.5) (center p k)
                (scale K p k) (scale_pos K p k) ltac:(lra)).
  lra.
Qed.

(** The slots tile the line: the mass of slots [0 .. T-1] telescopes. *)
Lemma slots_telescope (F : R -> R) (T : nat) :
  sum_upto T (fun i => F (INR i + 0.5) - F (INR i - 0.5)) =
  F (INR T - 0.5) - F (- 0.5).
Proof.
  unfold sum_upto. induction T as [| T IH].
  - simpl. replace (0 - 0.5) with (- 0.5) by lra. lra.
  - rewrite seq_S, map_app, Rsum_app, IH. simpl Rsum.
    rewrite S_INR. replace (INR T + 1 - 0.5) with (INR T + 0.5) by lra. lra.
Qed.

Lemma alignment_mass K p (T : nat) :
  sum_upto T (fun i => alignment_weight K p (INR i)) =
  sum_upto K (fun k =>
    mix_weight K p k *
    (logistic_cdf (INR T - 0.5) (center p k) (scale K p k) -
     logistic_cdf (- 0.5) (center p k) (scale K p k))).
Proof.
  unfold alignment_weight, sum_upto at 1 2.
  rewrite Rsum_swap. apply Rsum_ext. intros k _.
  rewrite Rsum_scal. f_equal.
  apply (slots_telescope (fun z => logistic_cdf z (center p k) (scale K p k))).
Qed.

Lemma alignment_mass_le K p (T : nat) :
  sum_upto T (fun i => alignment_weight K p (INR i)) <= 1.
Proof.
  rewrite alignment_mass. apply mixture_between. intros k.
  pose proof (logistic_cdf_bounds (INR T - 0.5) (center p k) (scale K p k)).
  pose proof (logistic_cdf_bounds (- 0.5) (center p k) (scale K p k)).
  pose proof (logistic_cdf_mono (- 0.5) (INR T - 0.5) (center p k)
                (scale K p k) (scale_pos K p k)) as Hm.
  pose proof (pos_INR T). lra.
Qed.

Lemma mix_weight_pos K p k : (0 < K)%nat -> 0 < mix_weight K p k.
Proof.
  intros HK. unfold mix_weight. apply Rdiv_lt_0_compat; [apply exp_pos |].
  apply sum_upto_pos; [exact HK | intros j; apply exp_pos].
Qed.

Lemma sum_upto_minus n (f g : nat -> R) :
  sum_upto n (fun k => f k - g k) = sum_upto n f - sum_upto n g.
Proof. unfold sum_upto. apply Rsum_minus. Qed.

(** A mixture of values below 1 stays below 1. *)
Lemma mixture_below K p (f : nat -> R) :
  (forall k, f k < 1) -> sum_upto K (fun k => mix_weight K p k * f k) < 1.
Proof.
  intros Hf. destruct K as [| K]; [unfold sum_upto; simpl; lra |].
  assert (Hgap : 0 < sum_upto (S K) (fun k => mix_weight (S K) p k * (1 - f k))).
  { apply sum_upto_pos; [lia |]. intros k.
    apply Rmult_lt_0_compat; [apply mix_weight_pos; lia |].
    specialize (Hf k). lra. }
  assert (Heq : sum_upto (S K) (fun k => mix_weight (S K) p k * (1 - f k)) =
                sum_upto (S K) (mix_weight (S K) p) -
                sum_upto (S K) (fun k => mix_weight (S K) p k * f k)).
  { rewrite <- sum_upto_minus. unfold sum_upto. apply Rsum_ext.
    intros k _. lra. }
  rewrite sum_mix_weight in Heq by lia. lra.
Qed.

Lemma alignment_mass_lt K p (T : nat) :
  sum_upto T (fun i => alignment_weight K p (INR i)) < 1.
Proof.
  rewrite alignment_mass. apply mixture_below. intros k.
  pose proof (logistic_cdf_bounds (INR T - 0.5) (center p k) (scale K p k)).
  pose proof (logistic_cdf_bounds (- 0.5) (center p k) (scale K p k)).
  lra.
Qed.

Lemma row_weights_bounded self p T :
  length p = (3 * M self)%nat ->
  Forall (fun x => 0 <= x <= 1) (row_weights (M self) p T) /\
  Rsum (row_weights (M self) p T) <= 1 /\
  Rsum (row_weights (M self) p T) <> 1.
Proof.
  intros Hp. rewrite row_weights_spec by assumption. split; [| split].
  - apply Forall_forall. intros x Hx. apply in_map_iff in Hx.
    destruct Hx as [i [<- _]]. apply alignment_weight_bounds.
  - apply (alignment_mass_le (M self) p T).
  - pose proof (alignment_mass_lt (M self) p T) as Hlt.
    unfold sum_upto in Hlt. lra.
Qed.

End AttentionStep.

(* ------------------------------------------------------------------ *)
(** ** The loop of the alignment engine: [Attention.forward] *)

Module AttentionForward.

Import Tts Facts Spec Rows AttentionStep.
Local Open Scope R_scope.

Lemma same_layers_step self s T hs :
  same_layers s self -> 
  step_weights s T hs = step_weights self T hs /\
  step_termination s T hs = step_termination self T hs.
Proof.
  intros (HM & HW & _). unfold step_weights, step_termination.
  now rewrite HM, HW.
Qed.

Lemma same_layers_context self s mem hs :
  same_layers s self -> step_context s mem hs = step_context self mem hs.
Proof.
  intros H. unfold step_context.
  now rewrite (proj1 (same_layers_step self s (size1 mem) hs H)).
Qed.

Lemma length_step_context self mem hs :
  length (data mem) = size0 mem -> length hs = size0 mem ->
  length (step_context self mem hs) = size0 mem.
Proof.
  intros Hm Hh. unfold step_context, step_weights.
  rewrite length_map2, length_map, Hm, Hh. apply Nat.min_id.
Qed.

Lemma for_each_seq {S : Type} (body : nat -> S -> res S) (P : nat -> S -> Prop)
  (len : nat) :
  forall start s,
    P start s ->
    (forall i s, (start <= i < start + len)%nat -> P i s ->
                 exists s', body i s = inr s' /\ P (Datatypes.S i) s') ->
    exists s', for_each body (seq start len) s = inr s' /\ P (start + len)%nat s'.
Proof.
  induction len as [| len IH]; intros start s HP Hstep; simpl.
  - exists s. rewrite Nat.add_0_r. now split.
  - destruct (Hstep start s ltac:(lia) HP) as (s1 & Hs1 & HP1).
    rewrite Hs1. simpl.
    destruct (IH (Datatypes.S start) s1 HP1) as (s' & Hs' & HP').
    + intros i s2 Hi. apply Hstep. lia.
    + exists s'. split; [exact Hs' |].
      now replace (start + Datatypes.S len)%nat with (Datatypes.S start + len)%nat by lia.
Qed.

Lemma nth_map2_gen {A B C : Type} (f : A -> B -> C) (da : A) (db : B) (dc : C)
  l1 l2 (i : nat) :
  (i < length l1)%nat -> (i < length l2)%nat ->
  nth i (map2 f l1 l2) dc = f (nth i l1 da) (nth i l2 db).
Proof.
  intros H1 H2. apply nth_error_nth.
  rewrite nth_error_map2.
  rewrite (nth_error_nth' l1 da H1), (nth_error_nth' l2 db H2). reflexivity.
Qed.

Lemma cat_fold (B : nat) (rest : list (list mat)) :
  forall acc : list mat,
    length acc = B -> Forall (fun t => length t = B) rest ->
    fold_left (fun acc t => map2 (@app vec) acc t) rest acc =
    map (fun b => nth b acc [] ++ concat (map (fun t => nth b t []) rest))
        (seq 0 B).
Proof.
  induction rest as [| t rest IH]; intros acc Hacc Hall; simpl.
  - subst B. rewrite (list_by_position [] acc) at 1.
    apply map_ext. intros b. now rewrite app_nil_r.
  - apply Forall_cons_iff in Hall as [Ht Hrest].
    rewrite IH; [| now rewrite length_map2, Hacc, Ht, Nat.min_id | exact Hrest].
    apply map_ext_in. intros b Hb. apply in_seq in Hb.
    rewrite (nth_map2_gen _ [] []) by lia. now rewrite app_assoc.
Qed.

Lemma cat_dim1_steps (B : nat) (ts : list (list mat)) :
  ts <> [] -> Forall (fun t => length t = B) ts ->
  cat_dim1 ts = inr (map (fun b => concat (map (fun t => nth b t []) ts))
                         (seq 0 B)).
Proof.
  intros Hne Hall. destruct ts as [| t0 rest]; [congruence |].
  apply Forall_cons_iff in Hall as [Ht Hrest]. simpl.
  unfold ret. f_equal. now apply cat_fold.
Qed.

Lemma gather_dim1_ok (t : list vec) (index : list Z) :
  (length index <= length t)%nat ->
  (forall row ix, In (row, ix) (combine t index) ->
                  (0 <= ix < Z.of_nat (length row))%Z) ->
  gather_dim1 t index =
  inr (map (fun p : vec * Z => [nth (Z.to_nat (snd p)) (fst p) 0])
           (combine t index)).
Proof.
  intros Hlen Hidx. unfold gather_dim1.
  apply Nat.leb_le in Hlen. rewrite Hlen.
  apply map_res_ok. intros [row ix] Hin. simpl.
  specialize (Hidx row ix Hin).
  replace (0 <=? ix)%Z with true by (symmetry; apply Z.leb_le; lia).
  replace (ix <? Z.of_nat (length row))%Z with true
    by (symmetry; apply Z.ltb_lt; lia).
  reflexivity.
Qed.

Lemma cat_step_weights self T B hidden :
  Forall (fun hs : list vec => length hs = B) hidden ->
  map (fun b => concat (map (fun t : list mat => nth b t [])
                            (map (step_weights self T) hidden)))
      (seq 0 B) =
  alignment_of self T B hidden.
Proof.
  intros Hall. unfold alignment_of. apply map_ext_in.
  intros b Hb. apply in_seq in Hb. rewrite map_map.
  induction Hall as [| h0 hidden Hh0 _ IH]; simpl; [reflexivity |].
  rewrite IH. f_equal. unfold step_weights.
  rewrite (nth_indep _ [] [row_weights (M self) (W_g self []) T])
    by (rewrite length_map, Hh0; lia).
  now rewrite (map_nth (fun h => [row_weights (M self) (W_g self h) T])).
Qed.

Lemma gathered_combine self T hs input_lengths :
  map (fun p : vec * Z => [nth (Z.to_nat (snd p)) (fst p) 0])
      (combine (step_termination self T hs)
               (map (fun n => (n - 1)%Z) input_lengths)) =
  gathered self T hs input_lengths.
Proof.
  unfold gathered, step_termination. revert input_lengths.
  induction hs as [| h hs IH]; intros [| n lens]; simpl; try reflexivity.
  now rewrite IH.
Qed.

(** *** The loop on well-shaped tensors

    The query [(B, T, D)] and the memory share the batch size [B], and the
    query is wider than one number (on width 1 the first [squeeze] breaks
    the first [cat]). *)

Section Loop.

Variable self : Attention.
Variables input mem : Tensor3.
Hypothesis Hin : length (data input) = size0 input.
Hypothesis Hmem : length (data mem) = size0 mem.
Hypothesis HB : size0 input = size0 mem.
Hypothesis HD : size2 input <> 1%nat.

(** One iteration keeps the invariant and records its hidden rows. *)
Lemma forward_step_ok hidden s i :
  loop_inv self input mem hidden s ->
  exists s' hs,
    forward_step input (MemTensor mem) i s = inr s' /\
    loop_inv self input mem (hidden ++ [hs]) s'.
Proof.
  intros (Hlay & Hcum & Hh & Hc & Hall & Hw & Hcs & Hlast).
  unfold forward_step.
  assert (Hx : exists x, cat_query_context (size2 input)
                 (map (fun m : mat => nth i m []) (data input)) (l_context s) = inr x
                 /\ length x = size0 mem).
  { destruct (rev hidden) as [| hs rest].
    - destruct Hlast as [-> _]. simpl.
      rewrite (proj2 (Nat.eqb_neq _ _) HD).
      unfold zeros2. rewrite length_map, repeat_length, Hin, Nat.eqb_refl.
      eexists. split; [reflexivity |].
      rewrite length_map2, length_map, repeat_length, Hin, HB. apply Nat.min_id.
    - destruct Hlast as (Hhs & -> & _). simpl.
      rewrite length_map, length_step_context, Hin, HB, Nat.eqb_refl;
        [| assumption | now rewrite <- Hhs].
      eexists. split; [reflexivity |].
      rewrite length_map2, length_map, length_step_context, Hin, HB;
        [apply Nat.min_id | assumption | now rewrite <- Hhs]. }
  destruct Hx as (x & -> & Hxlen). simpl.
  set (hc := map2 (fun xb hcb => rnn_cell (l_self s) xb hcb) x
                  (combine (l_h s) (l_c s))).
  assert (Hhc : length hc = size0 mem).
  { unfold hc. rewrite length_map2, length_combine, Hxlen, Hh, Hc.
    now rewrite !Nat.min_id. }
  rewrite attention_ok by now rewrite length_map.
  simpl. eexists. exists (map fst hc). split; [reflexivity |].
  assert (Hlen : length (map fst hc) = size0 mem) by now rewrite length_map.
  destruct (same_layers_step self (l_self s) (size1 mem) (map fst hc) Hlay)
    as [Hsw Hst].
  pose proof (same_layers_context self (l_self s) mem (map fst hc) Hlay) as Hsc.
  unfold loop_inv. simpl.
  split; [exact Hlay |]. split; [exact Hcum |].
  split; [exact Hlen |]. split; [now rewrite length_map |].
  split; [apply Forall_app; split; [exact Hall | now constructor] |].
  split; [now rewrite map_app, Hw, Hsw |].
  split; [now rewrite map_app, Hcs, Hsc |].
  rewrite rev_app_distr. simpl.
  now rewrite Hsc, Hst.
Qed.

(** The loop runs to its end, one record of hidden rows per step. *)
Lemma forward_loop_ok :
  exists s hidden,
    forward_loop self input (MemTensor mem) = inr s /\
    length hidden = size1 input /\
    loop_inv self input mem hidden s.
Proof.
  unfold forward_loop.
  destruct (for_each_seq (forward_step input (MemTensor mem))
              (fun n s => exists hidden,
                 length hidden = n /\ loop_inv self input mem hidden s)
              (size1 input) 0%nat (forward_init self input))
    as (s & Hs & hidden & Hlen & Hinv).
  - exists []. split; [reflexivity |].
    unfold loop_inv, forward_init, same_layers, zeros2. simpl.
    rewrite !repeat_length. repeat split; auto.
  - intros i s _ (hidden & Hlen & Hinv).
    destruct (forward_step_ok hidden s i Hinv)
      as (s' & hs & Hs' & Hinv').
    exists s'. split; [exact Hs' |]. exists (hidden ++ [hs]).
    split; [rewrite length_app; simpl; lia | exact Hinv'].
  - exists s, hidden. split; [exact Hs | split; [exact Hlen | exact Hinv]].
Qed.

(** With at least one step and text lengths within the memory, [forward]
    returns: the context of the last step, the alignment rows of all steps,
    and the termination entries picked by the text lengths. *)
Lemma forward_ok input_lengths :
  (1 <= size1 input)%nat ->
  (length input_lengths <= size0 mem)%nat ->
  Forall (fun n => (1 <= n <= Z.of_nat (size1 mem))%Z) input_lengths ->
  exists s hidden,
    forward_loop self input (MemTensor mem) = inr s /\
    length hidden = size1 input /\
    Forall (fun hs => length hs = size0 mem) hidden /\
    last hidden [] = l_h s /\
    length (l_h s) = size0 mem /\
    same_layers (l_self s) self /\
    ksi_hat_cum (l_self s) = ksi_hat_cum self /\
    forward self input (MemTensor mem) input_lengths =
    inr (l_self s,
         (Ctx3 (step_context self mem (l_h s)),
          alignment_of self (size1 mem) (size0 mem) hidden,
          gathered self (size1 mem) (l_h s) input_lengths)).
Proof.
  intros HT Hlens Hrange.
  destruct forward_loop_ok
    as (s & hidden & Hloop & Hlen & Hinv).
  exists s, hidden.
  destruct Hinv as (Hlay & Hcum & Hh & Hc & Hall & Hw & Hcs & Hlast).
  assert (Hne : hidden <> []) by (intros ->; simpl in Hlen; lia).
  destruct (exists_last Hne) as (front & hs & ->).
  rewrite rev_app_distr in Hlast. simpl in Hlast.
  destruct Hlast as (Hhs & Hctx & Hterm).
  split; [exact Hloop |]. split; [exact Hlen |]. split; [exact Hall |].
  split; [now rewrite last_last |]. split; [exact Hh |].
  split; [exact Hlay |]. split; [exact Hcum |].
  unfold forward. rewrite Hloop. simpl.
  rewrite Hcs, Hw, Hterm, Hctx, Hhs.
  rewrite (cat_dim1_steps (size0 mem)).
  2:{ destruct front; discriminate. }
  2:{ apply Forall_forall. intros t Ht. in_map Ht h0 Hh0. rewrite Forall_forall in Hall.
      apply length_step_context; [exact Hmem | now apply Hall]. }
  simpl.
  rewrite (cat_dim1_steps (size0 mem)).
  2:{ destruct front; discriminate. }
  2:{ apply Forall_forall. intros t Ht. in_map Ht h0 Hh0. rewrite Forall_forall in Hall.
      unfold step_weights. rewrite length_map. now apply Hall. }
  simpl.
  rewrite gather_dim1_ok.
  - rewrite cat_step_weights by exact Hall.
    rewrite gathered_combine. reflexivity.
  - unfold step_termination. rewrite !length_map, <- Hhs, Hh. exact Hlens.
  - intros row ix Hin'. unfold step_termination in Hin'.
    pose proof (in_combine_l _ _ _ _ Hin') as Hrow.
    pose proof (in_combine_r _ _ _ _ Hin') as Hix.
    apply in_map_iff in Hrow. destruct Hrow as (h & <- & _).
    in_map Hix n Hn.
    rewrite Forall_forall in Hrange. specialize (Hrange n Hn).
    rewrite length_row_termination. lia.
Qed.

End Loop.

End AttentionForward.

(* ------------------------------------------------------------------ *)
(** ** The alignment engine: what the specification says of it *)

Module Engine.

Import Tts Facts Spec Rows AttentionStep AttentionForward Examples.
Local Open Scope R_scope.

(** *** The concrete inputs are well formed *)

Lemma demo_projects : projects_3M demo_attention.
Proof. intros h. reflexivity. Defined.

Lemma demo_memory_wf : wf3 demo_memory.
Proof. unfold wf3, demo_memory; simpl. repeat constructor. Defined.

Lemma demo_query1_wf : wf3 demo_query1.
Proof. unfold wf3, demo_query1; simpl. repeat constructor. Defined.

Lemma demo_query2_wf : wf3 demo_query2.
Proof. unfold wf3, demo_query2; simpl. repeat constructor. Defined.

Lemma demo_lengths_ok :
  Forall (fun n => (1 <= n <= Z.of_nat (size1 demo_memory))%Z) demo_lengths.
Proof. unfold demo_lengths; simpl. repeat constructor; discriminate. Defined.

Lemma nth_error_length {A : Type} (l : list A) j a :
  nth_error l j = Some a -> (j < length l)%nat.
Proof. intros H. apply nth_error_Some. congruence. Qed.

Lemma length_alignment_of self T B hidden :
  length (alignment_of self T B hidden) = B /\
  Forall (fun ab => length ab = length hidden) (alignment_of self T B hidden).
Proof.
  unfold alignment_of. split.
  - now rewrite length_map, length_seq.
  - apply Forall_forall. intros ab Hab. apply in_map_iff in Hab. destruct Hab as (b & <- & _). apply length_map.
Qed.

(** *** One step *)

(** C1. One step of the alignment engine on a batch of hidden rows [h_i] and
    a memory of shape [(B, T, D)] returns, and for every sample [b]: the
    alignment weight at memory position [i] is the sum over the mixture
    components [k] of [mix_weight_k * (CDF(i + 0.5) - CDF(i - 0.5))], with
    center, scale and mix_weight read off the raw projection [W_g h] as
    [exp], [exp] and softmax of its three thirds; and the context vector is
    the sum of the memory rows weighted by these alignment weights. *)
Theorem attention_weights_and_context (self : Attention) (h_i : list vec)
  (mem : Tensor3) :
  wf3 mem -> length h_i = size0 mem -> projects_3M self ->
  exists self' context weights termination,
    attention self h_i (MemTensor mem) =
      inr (self', (context, weights, termination)) /\
    length weights = size0 mem /\ length context = size0 mem /\
    forall b h m,
      nth_error h_i b = Some h -> nth_error (data mem) b = Some m ->
      exists w c,
        nth_error weights b = Some [w] /\ nth_error context b = Some [c] /\
        length w = size1 mem /\ length c = size2 mem /\
        (forall i, (i < size1 mem)%nat ->
           nth i w 0 = alignment_weight (M self) (W_g self h) (INR i)) /\
        (forall d, (d < size2 mem)%nat -> nth d c 0 = weighted_pool w m d).
Proof.
  intros Hwf Hlen Hproj.
  rewrite attention_rows, bmm_ok by now rewrite length_map.
  simpl. do 4 eexists. split; [reflexivity |].
  split; [now rewrite length_map |].
  split; [rewrite length_map2, length_map, Hlen; destruct Hwf as [-> _]; apply Nat.min_id |].
  intros b h m Hh Hm.
  destruct (wf3_row mem b m Hwf Hm) as [Hrows Hcols].
  exists (row_weights (M self) (W_g self h) (size1 mem)).
  eexists. split; [| split]; [| | split; [| split; [| split]]].
  - rewrite nth_error_map, Hh. reflexivity.
  - rewrite nth_error_map2, nth_error_map, Hh, Hm. reflexivity.
  - apply length_row_weights.
  - now apply length_vecmat.
  - intros i Hi. now apply nth_row_weights.
  - intros d Hd. apply nth_vecmat; try assumption.
    now rewrite length_row_weights.
Qed.

(** C1 at the two-sample example. *)
Lemma attention_weights_and_context_witness :
  exists self' context weights termination,
    attention demo_attention demo_hidden (MemTensor demo_memory) =
      inr (self', (context, weights, termination)) /\
    length weights = 2%nat /\ length context = 2%nat.
Proof.
  destruct (attention_weights_and_context demo_attention demo_hidden
              demo_memory demo_memory_wf eq_refl demo_projects)
    as (s & c & w & t & H & Hw & Hc & _).
  exists s, c, w, t. split; [exact H |]. split; [exact Hw | exact Hc].
Defined.


(** C4. Whatever the projection returns (centers and scales are
    exponentials, the mixture weights a softmax) and whatever the memory
    length [T], every alignment weight vector the step returns has [T]
    entries, each between 0 and 1, and their sum is at most 1: the step
    returns the differences of the mixture of CDFs as they are. *)
Theorem attention_weights_bounded (self : Attention) (h_i : list vec)
  (mem : Tensor3) :
  length h_i = size0 mem -> projects_3M self ->
  exists self' context weights termination,
    attention self h_i (MemTensor mem) =
      inr (self', (context, weights, termination)) /\
    length weights = size0 mem /\
    Forall (fun wb => exists w,
              wb = [w] /\ length w = size1 mem /\
              Forall (fun x => 0 <= x <= 1) w /\
              Rsum w <= 1) weights.
Proof.
  intros Hlen Hproj.
  rewrite attention_rows, bmm_ok by now rewrite length_map.
  simpl. do 4 eexists. split; [reflexivity |].
  split; [now rewrite length_map |].
  apply Forall_forall. intros wb Hwb. apply in_map_iff in Hwb.
  destruct Hwb as [h [<- _]]. eexists. split; [reflexivity |].
  split; [apply length_row_weights |].
  destruct (row_weights_bounded self (W_g self h) (size1 mem) (Hproj h))
    as (Hrange & Hsum & _).
  split; [exact Hrange | exact Hsum].
Qed.

(** C4 at the two-sample example. *)
Lemma attention_weights_bounded_witness :
  exists self' context weights termination,
    attention demo_attention demo_hidden (MemTensor demo_memory) =
      inr (self', (context, weights, termination)) /\
    length weights = 2%nat /\
    Forall (fun wb => exists w,
              wb = [w] /\ length w = 2%nat /\
              Forall (fun x => 0 <= x <= 1) w /\
              Rsum w <= 1) weights.
Proof.
  exact (attention_weights_bounded demo_attention demo_hidden demo_memory
           eq_refl demo_projects).
Defined.


(** C5. The centers of a step are [exp] of that step's first [K] raw
    projection outputs and nothing else: whatever attributes earlier steps
    left on the object [prev] (the layers being those of [self]), the step
    returns what a fresh object returns on the same hidden rows, every
    weight row is the mixture of the specification with
    [center_k = exp(raw_k)] of this step's projection [W_g h], and
    [ksi_hat_cum], the only place a running sum could live, is left as it
    was. *)
Theorem attention_centers_per_step (self prev : Attention) (h_i : list vec)
  (mem : Tensor3) :
  same_layers prev self -> length h_i = size0 mem -> projects_3M self ->
  exists self' context weights termination,
    attention prev h_i (MemTensor mem) =
      inr (self', (context, weights, termination)) /\
    ksi_hat_cum self' = ksi_hat_cum prev /\
    value (attention self h_i (MemTensor mem)) =
      inr (context, weights, termination) /\
    weights =
      map (fun h =>
             [map (fun i => alignment_weight (M self) (W_g self h) (INR i))
                  (seq 0 (size1 mem))])
          h_i.
Proof.
  intros Hlay Hlen Hproj.
  rewrite !attention_ok by exact Hlen.
  do 4 eexists. split; [reflexivity |]. split; [reflexivity |].
  destruct (same_layers_step self prev (size1 mem) h_i Hlay) as [Hw Ht].
  rewrite (same_layers_context self prev mem h_i Hlay), Hw, Ht.
  split; [reflexivity |].
  unfold step_weights. apply map_ext. intros h.
  now rewrite row_weights_spec by apply Hproj.
Qed.

(** C5 at the two-sample example, on an object a previous step has used. *)
Lemma attention_centers_per_step_witness :
  exists self' context weights termination,
    attention (attention_object demo_attention 2 demo_hidden) demo_hidden
              (MemTensor demo_memory) =
      inr (self', (context, weights, termination)) /\
    ksi_hat_cum self' = None /\
    value (attention demo_attention demo_hidden (MemTensor demo_memory)) =
      inr (context, weights, termination) /\
    weights =
      map (fun h =>
             [map (fun i => alignment_weight 1 (W_g demo_attention h) (INR i))
                  (seq 0 2)])
          demo_hidden.
Proof.
  exact (attention_centers_per_step demo_attention
           (attention_object demo_attention 2 demo_hidden) demo_hidden
           demo_memory (conj eq_refl (conj eq_refl eq_refl)) eq_refl
           demo_projects).
Defined.

(** *** The loop *)

(** C2, amended. On a query and a memory of the same batch size and the
    same feature width (the hidden size the recurrent cell is built for):
    each step's termination output is a vector over the memory positions,
    whose entry at position [pos] is
    [1 - sum_k mix_weight_k * CDF(pos + 0.5)]; [forward] keeps the vector of
    its final step, and the value it returns for sample [j] is that vector's
    entry at memory position [input_lengths[j] - 1], computed from the
    hidden row of sample [j] at the final step. *)
Theorem forward_termination_by_text_length (self : Attention)
  (input mem : Tensor3) (input_lengths : list Z) :
  wf3 input -> wf3 mem -> size0 input = size0 mem ->
  size2 mem = size2 input ->
  (1 <= size1 input)%nat -> size2 input <> 1%nat ->
  (length input_lengths <= size0 mem)%nat ->
  Forall (fun n => (1 <= n <= Z.of_nat (size1 mem))%Z) input_lengths ->
  projects_3M self ->
  (forall hs, length hs = size0 mem ->
     exists self' context weights termination,
       attention self hs (MemTensor mem) =
         inr (self', (context, weights, termination)) /\
       forall j h pos,
         nth_error hs j = Some h -> (pos < size1 mem)%nat ->
         nth pos (nth j termination []) 0 =
         termination_at (M self) (W_g self h) (INR pos)) /\
  exists s context alignment termination,
    forward_loop self input (MemTensor mem) = inr s /\
    forward self input (MemTensor mem) input_lengths =
      inr (l_self s, (context, alignment, termination)) /\
    forall j h n,
      nth_error (l_h s) j = Some h -> nth_error input_lengths j = Some n ->
      nth_error termination j =
      Some [termination_at (M self) (W_g self h) (INR (Z.to_nat (n - 1)))].
Proof.
  intros [Hin _] [Hmem _] HB _ HT HD Hlens Hrange Hproj. split.
  - intros hs Hhs. rewrite attention_ok by exact Hhs.
    do 4 eexists. split; [reflexivity |].
    intros j h pos Hj Hpos. unfold step_termination.
    rewrite (nth_indep _ [] (row_termination (M self) (W_g self []) (size1 mem)))
      by (rewrite length_map; eapply nth_error_length; eassumption).
    rewrite (map_nth (fun h => row_termination (M self) (W_g self h) (size1 mem))).
    rewrite (nth_error_nth _ _ _ Hj).
    apply nth_row_termination; [apply Hproj | exact Hpos].
  - destruct (forward_ok self input mem Hin Hmem HB HD input_lengths HT Hlens
                Hrange) as (s & hidden & Hloop & _ & _ & _ & _ & _ & _ & Hfw).
    exists s. do 3 eexists. split; [exact Hloop |]. split; [exact Hfw |].
    intros j h n Hj Hn. unfold gathered.
    rewrite nth_error_map, nth_error_combine, Hj, Hn. simpl. f_equal. f_equal.
    apply nth_row_termination; [apply Hproj |].
    rewrite Forall_forall in Hrange.
    specialize (Hrange n (nth_error_In _ _ Hn)). lia.
Qed.

(** C2, amended, at a one-step query over the two-slot memory. *)
Lemma forward_termination_by_text_length_witness :
  exists s context alignment termination,
    forward_loop demo_attention demo_query1 (MemTensor demo_memory) = inr s /\
    forward demo_attention demo_query1 (MemTensor demo_memory) demo_lengths =
      inr (l_self s, (context, alignment, termination)) /\
    forall j h n,
      nth_error (l_h s) j = Some h -> nth_error demo_lengths j = Some n ->
      nth_error termination j =
      Some [termination_at (M demo_attention) (W_g demo_attention h)
                           (INR (Z.to_nat (n - 1)))].
Proof.
  exact (proj2 (forward_termination_by_text_length demo_attention demo_query1
                  demo_memory demo_lengths demo_query1_wf demo_memory_wf
                  eq_refl eq_refl (le_n 1)
                  (fun H => O_S 0 (eq_sym (eq_add_S _ _ H)))
                  (le_n 2) demo_lengths_ok demo_projects)).
Defined.


(** The tracking engine on the two-step query, step by step. *)
Lemma tracking_step0 :
  forward_step demo_query2 (MemTensor demo_memory) 0
               (forward_init demo_tracking_attention demo_query2) =
  inr (mkLoop (attention_object demo_tracking_attention 2 [[0; 0]; [0; 0]])
              (Ctx3 (step_context demo_tracking_attention demo_memory
                                  [[0; 0]; [0; 0]]))
              [[0; 0]; [0; 0]] [[0; 0]; [0; 0]]
              [step_context demo_tracking_attention demo_memory
                            [[0; 0]; [0; 0]]]
              [step_weights demo_tracking_attention 2 [[0; 0]; [0; 0]]]
              (Some (step_termination demo_tracking_attention 2
                                      [[0; 0]; [0; 0]]))).
Proof.
  unfold forward_step.
  set (q := cat_query_context _ _ _).
  assert (Hq : q = inr [[0; 0; 0; 0]; [0; 0; 0; 0]]) by reflexivity.
  rewrite Hq. clear q Hq. cbv beta iota delta [bind].
  set (hc := map2 _ _ _).
  assert (Hhc : hc = [([0; 0], [0; 0]); ([0; 0], [0; 0])]) by reflexivity.
  rewrite Hhc. clear hc Hhc. cbn [map fst snd].
  rewrite attention_ok by reflexivity. reflexivity.
Qed.

Lemma tracking_step1 :
  exists s,
    forward_step demo_query2 (MemTensor demo_memory) 1
      (mkLoop (attention_object demo_tracking_attention 2 [[0; 0]; [0; 0]])
              (Ctx3 (step_context demo_tracking_attention demo_memory
                                  [[0; 0]; [0; 0]]))
              [[0; 0]; [0; 0]] [[0; 0]; [0; 0]]
              [step_context demo_tracking_attention demo_memory
                            [[0; 0]; [0; 0]]]
              [step_weights demo_tracking_attention 2 [[0; 0]; [0; 0]]]
              (Some (step_termination demo_tracking_attention 2
                                      [[0; 0]; [0; 0]]))) = inr s /\
    l_h s = [[1; 1]; [1; 1]].
Proof.
  unfold forward_step.
  cbn [l_context l_self l_h l_c l_contexts l_weights l_termination].
  set (q := cat_query_context _ _ _).
  assert (Hq : exists a b, q = inr [1 :: 1 :: a; 1 :: 1 :: b]).
  { do 2 eexists. reflexivity. }
  destruct Hq as (a & b & Hq). rewrite Hq. clear q Hq.
  cbv beta iota delta [bind].
  set (hc := map2 _ _ _).
  assert (Hhc : hc = [([1; 1], [0; 0]); ([1; 1], [0; 0])]) by reflexivity.
  rewrite Hhc. clear hc Hhc. cbn [map fst snd].
  rewrite attention_ok by reflexivity.
  eexists. split; reflexivity.
Qed.

(** After the two steps of [demo_query2] the hidden rows of the tracking
    engine are its last frame. *)
Lemma tracking_loop :
  exists s,
    forward_loop demo_tracking_attention demo_query2 (MemTensor demo_memory) =
      inr s /\
    l_h s = [[1; 1]; [1; 1]].
Proof.
  destruct tracking_step1 as (s & Hs & Hh). exists s. split; [| exact Hh].
  unfold forward_loop.
  change (seq 0 (size1 demo_query2)) with [0%nat; 1%nat].
  cbn [for_each]. rewrite tracking_step0.
  cbv beta iota delta [bind]. rewrite Hs. reflexivity.
Qed.

Lemma termination_one_component (a z : R) :
  termination_at 1 [a; 0; 0] z = 1 - 1 / (1 + exp (exp a - (z + 0.5))).
Proof.
  unfold termination_at, mix_weight, sum_upto, center, scale, logistic_cdf.
  simpl. rewrite exp_0. unfold Rdiv. rewrite !Rplus_0_r, !Rinv_1, !Rmult_1_r.
  rewrite Rmult_1_l. reflexivity.
Qed.

Lemma termination_one_component_lt (a b y z : R) :
  exp a - z < exp b - y ->
  termination_at 1 [a; 0; 0] z < termination_at 1 [b; 0; 0] y.
Proof.
  intros H. rewrite !termination_one_component.
  assert (He : exp (exp a - (z + 0.5)) < exp (exp b - (y + 0.5)))
    by (apply exp_increasing; lra).
  pose proof (exp_pos (exp a - (z + 0.5))) as Hp.
  set (u := exp (exp a - (z + 0.5))) in *.
  set (w := exp (exp b - (y + 0.5))) in *. clearbody u w.
  assert (/ (1 + w) < / (1 + u))
    by (apply Rinv_lt_contravar; [apply Rmult_lt_0_compat; lra | lra]).
  unfold Rdiv. lra.
Qed.

(** C2 as stated fails. On a query of two steps whose first sample has text
    length 1 (and, as [TTS.forward] would be told, output length 1, so that
    the step index [L_j - 1] is 0) over a memory padded to [T = 2]: the
    value [forward] returns for that sample is the entry at memory position
    0 of the termination vector of the final step (step 1); it is no entry
    of the termination vector the engine produced at step 0, and it is not
    the final step's entry at the last memory slot [T - 1] either. *)
Lemma termination_gather_counterexample :
  exists s0 t0 self' context alignment termination v,
    forward_step demo_query2 (MemTensor demo_memory) 0
                 (forward_init demo_tracking_attention demo_query2) = inr s0 /\
    l_termination s0 = Some t0 /\
    forward demo_tracking_attention demo_query2 (MemTensor demo_memory)
            demo_lengths = inr (self', (context, alignment, termination)) /\
    nth_error termination 0 = Some [v] /\
    v = termination_at 1 [1; 0; 0] (INR 0) /\
    (forall pos, (pos < 2)%nat -> nth pos (nth 0 t0 []) 0 <> v) /\
    v <> termination_at 1 [1; 0; 0] (INR (size1 demo_memory - 1)).
Proof.
  destruct (forward_ok demo_tracking_attention demo_query2 demo_memory
              eq_refl eq_refl eq_refl
              (fun H => O_S 0 (eq_sym (eq_add_S _ _ H)))
              demo_lengths (le_S 1 1 (le_n 1)) (le_n 2) demo_lengths_ok)
    as (s & hidden & Hloop & _ & _ & _ & _ & _ & _ & Hfw).
  destruct tracking_loop as (s' & Hloop' & Hh).
  rewrite Hloop in Hloop'. injection Hloop' as <-.
  rewrite Hh in Hfw.
  pose proof (exp_ineq1 1 R1_neq_R0) as He.
  eexists. eexists. do 4 eexists.
  exists (termination_at 1 [1; 0; 0] (INR 0)).
  split; [exact tracking_step0 |]. split; [reflexivity |].
  split; [exact Hfw |]. split.
  - unfold gathered, demo_lengths.
    cbn [combine map nth_error fst snd]. do 2 f_equal.
    exact (nth_row_termination 1 [1; 0; 0] eq_refl 2 0 (le_S 1 1 (le_n 1))).
  - split; [reflexivity |]. split.
    + intros pos Hpos.
      change (nth 0 (step_termination demo_tracking_attention 2
                       [[0; 0]; [0; 0]]) [])
        with (row_termination 1 [0; 0; 0] 2).
      rewrite (nth_row_termination 1 [0; 0; 0] eq_refl 2 pos Hpos).
      apply Rlt_not_eq. apply termination_one_component_lt.
      rewrite exp_0. pose proof (pos_INR pos). simpl. lra.
    + apply Rgt_not_eq. apply termination_one_component_lt.
      simpl. lra.
Qed.


(** C3 (the code departs from it). [forward] returns the name [context],
    which holds the product of the last step only: one row per sample, while
    the loop has collected one context per step in [contexts] and the
    alignment map has one row per step. *)
Theorem forward_returns_last_context_only (self : Attention)
  (input mem : Tensor3) (input_lengths : list Z) :
  wf3 input -> wf3 mem -> size0 input = size0 mem ->
  (1 <= size1 input)%nat -> size2 input <> 1%nat ->
  (length input_lengths <= size0 mem)%nat ->
  Forall (fun n => (1 <= n <= Z.of_nat (size1 mem))%Z) input_lengths ->
  exists s context alignment termination,
    forward_loop self input (MemTensor mem) = inr s /\
    forward self input (MemTensor mem) input_lengths =
      inr (l_self s, (Ctx3 context, alignment, termination)) /\
    context = step_context self mem (l_h s) /\
    length context = size0 input /\
    Forall (fun cb => length cb = 1%nat) context /\
    length (l_contexts s) = size1 input /\
    length alignment = size0 input /\
    Forall (fun ab => length ab = size1 input) alignment.
Proof.
  intros [Hin _] [Hmem _] HB HT HD Hlens Hrange.
  destruct (forward_loop_ok self input mem Hin Hmem HB HD)
    as (s0 & hidden0 & Hloop0 & Hlen0 & Hinv0).
  destruct (forward_ok self input mem Hin Hmem HB HD input_lengths HT Hlens
              Hrange)
    as (s & hidden & Hloop & Hlen & Hall & Hlast & Hh & _ & _ & Hfw).
  rewrite Hloop in Hloop0. injection Hloop0 as <-.
  destruct Hinv0 as (_ & _ & _ & _ & _ & _ & Hcs & _).
  destruct (length_alignment_of self (size1 mem) (size0 mem) hidden)
    as [Hal Hrows].
  exists s. do 3 eexists. split; [exact Hloop |]. split; [exact Hfw |].
  split; [reflexivity |].
  split; [rewrite HB; now apply length_step_context |].
  split.
  - apply Forall_forall. intros cb Hcb. unfold step_context, map2 in Hcb.
    apply in_map_iff in Hcb. destruct Hcb as ([w m] & <- & Hwm). simpl.
    apply in_combine_l in Hwm. unfold step_weights in Hwm.
    apply in_map_iff in Hwm. destruct Hwm as (h & <- & _). reflexivity.
  - split; [now rewrite Hcs, length_map |].
    split; [now rewrite HB |]. now rewrite <- Hlen.
Qed.

(** C3 at a two-step query: two contexts collected, one returned. *)
Lemma forward_returns_last_context_only_witness :
  exists s context alignment termination,
    forward_loop demo_attention demo_query2 (MemTensor demo_memory) = inr s /\
    forward demo_attention demo_query2 (MemTensor demo_memory) demo_lengths =
      inr (l_self s, (Ctx3 context, alignment, termination)) /\
    context = step_context demo_attention demo_memory (l_h s) /\
    length context = 2%nat /\
    Forall (fun cb => length cb = 1%nat) context /\
    length (l_contexts s) = 2%nat /\
    length alignment = 2%nat /\
    Forall (fun ab => length ab = 2%nat) alignment.
Proof.
  exact (forward_returns_last_context_only demo_attention demo_query2
           demo_memory demo_lengths demo_query2_wf demo_memory_wf
           eq_refl (le_S 1 1 (le_n 1))
           (fun H => O_S 0 (eq_sym (eq_add_S _ _ H)))
           (le_n 2) demo_lengths_ok).
Defined.


End Engine.

(* ------------------------------------------------------------------ *)
(** ** The sequence model: [TTS] *)

Module SequenceModel.

Import Tts Facts Spec Rows AttentionStep AttentionForward Examples Engine.
Local Open Scope R_scope.

(** *** The length mask of [TTS.forward] *)

Lemma masked_fill_ok (t : tensor4) (mask : list (list bool)) (v : R) :
  length mask = length t ->
  masked_fill t mask v =
  inr (map2 (fun tb mb =>
               map (fun bins : list vec =>
                      map2 (fun comps (bit : bool) =>
                              if bit then map (fun _ => v) comps else comps)
                           bins mb)
                   tb)
            t mask).
Proof.
  intros H. unfold masked_fill, expand_batch.
  now rewrite H, Nat.eqb_refl.
Qed.

Lemma length_length_mask ol T : length (length_mask ol T) = length ol.
Proof. unfold length_mask. apply length_map. Qed.

Lemma nth_error_length_mask ol T b n :
  nth_error ol b = Some n ->
  nth_error (length_mask ol T) b =
  Some (map (fun i => (n <? i)%Z) (map Z.of_nat (seq 1 T))).
Proof.
  intros H. unfold length_mask. now rewrite nth_error_map, H.
Qed.

Lemma nth_error_mask_row n T i :
  (i < T)%nat ->
  nth_error (map (fun i => (n <? i)%Z) (map Z.of_nat (seq 1 T))) i =
  Some (n <? Z.of_nat (S i))%Z.
Proof.
  intros H. rewrite !nth_error_map.
  rewrite (nth_error_nth' _ 0%nat) by now rewrite length_seq.
  now rewrite seq_nth.
Qed.

Lemma size_m2_map3 (f : vec -> vec) (t : tensor4) :
  size_m2 (map3 f t) = size_m2 t.
Proof.
  destruct t as [| [| r bins] t]; simpl; auto. apply length_map.
Qed.

Lemma cell_map3 (f : vec -> vec) (t : tensor4) b m i :
  cell (map3 f t) b m i = option_map f (cell t b m i).
Proof.
  unfold cell, map3. rewrite nth_error_map.
  destruct (nth_error t b) as [bins |]; simpl; [| reflexivity].
  rewrite nth_error_map.
  destruct (nth_error bins m) as [steps |]; simpl; [| reflexivity].
  apply nth_error_map.
Qed.

(** One cell of a masked tensor: filled where the mask bit is set, kept
    elsewhere. *)
Lemma cell_masked (t : tensor4) (ol : list Z) (T : nat) (v : R) b m i n comps :
  rectangular t T ->
  nth_error ol b = Some n -> cell t b m i = Some comps ->
  cell (map2 (fun tb mb =>
                map (fun bins : list vec =>
                       map2 (fun comps (bit : bool) =>
                               if bit then map (fun _ => v) comps else comps)
                            bins mb)
                    tb)
             t (length_mask ol T)) b m i =
  Some (if (n <? Z.of_nat (S i))%Z then map (fun _ => v) comps else comps).
Proof.
  intros Hrect Hn Hcell. unfold cell in *.
  rewrite nth_error_map2, (nth_error_length_mask _ _ _ _ Hn).
  destruct (nth_error t b) as [bins |] eqn:Hb; [| discriminate].
  rewrite nth_error_map.
  destruct (nth_error bins m) as [steps |] eqn:Hm; [| discriminate]. simpl.
  rewrite nth_error_map2, Hcell.
  assert (Hlen : length steps = T).
  { unfold rectangular in Hrect. rewrite Forall_forall in Hrect.
    specialize (Hrect bins (nth_error_In _ _ Hb)).
    rewrite Forall_forall in Hrect. apply Hrect. eapply nth_error_In; eassumption. }
  rewrite nth_error_mask_row; [reflexivity |].
  rewrite <- Hlen. apply nth_error_Some. congruence.
Qed.

Lemma rectangular_map3 (f : vec -> vec) t T :
  rectangular t T -> rectangular (map3 f t) T.
Proof.
  unfold rectangular, map3. intros H.
  apply Forall_map. eapply Forall_impl; [| exact H]. intros bins Hbins.
  apply Forall_map. eapply Forall_impl; [| exact Hbins]. intros steps Hs.
  now rewrite length_map.
Qed.

Lemma mixture_parameters_ok self theta_hat output_lengths :
  length output_lengths = length theta_hat ->
  rectangular theta_hat (size_m2 theta_hat) ->
  exists mu std,
    mixture_parameters self theta_hat output_lengths =
      inr (mu, std, map3 (fun v => softmax (skipn (2 * K self) v)) theta_hat) /\
    forall b m i n v,
      nth_error output_lengths b = Some n ->
      cell theta_hat b m i = Some v ->
      cell mu b m i =
        Some (if (n <? Z.of_nat (S i))%Z
              then map (fun _ => 0) (slice 0 (K self) v)
              else slice 0 (K self) v) /\
      cell std b m i =
        Some (if (n <? Z.of_nat (S i))%Z
              then map (fun _ => 1 / sqrt (2 * PI))
                       (slice (K self) (2 * K self) v)
              else map exp (slice (K self) (2 * K self) v)).
Proof.
  intros Hlen Hrect. unfold mixture_parameters.
  rewrite !masked_fill_ok
    by (rewrite length_length_mask; unfold map3; now rewrite length_map).
  cbv beta iota delta [bind ret]. do 2 eexists. split; [reflexivity |].
  intros b m i n v Hn Hv. rewrite size_m2_map3. split.
  - erewrite cell_masked;
      [reflexivity | now apply rectangular_map3 | exact Hn |].
    now rewrite cell_map3, Hv.
  - erewrite cell_masked;
      [| now apply (rectangular_map3
                      (fun v => map exp (slice (K self) (2 * K self) v)))
       | exact Hn
       | now rewrite (cell_map3
                        (fun v => map exp (slice (K self) (2 * K self) v))), Hv].
    destruct (n <? Z.of_nat (S i))%Z; [rewrite map_map; reflexivity | reflexivity].
Qed.

(** C6. When the alignment engine has returned, [TTS.forward] returns, and
    with [theta_hat] the projected output of the layer stack: at every
    sample [b], frequency bin [m] and timestep [i] at or beyond the sample's
    output length, the mean is 0 and the scale is 1/sqrt(2 pi) for every
    mixture component; below the output length the mean is the first [K]
    entries of [theta_hat] and the scale is [exp] of the next [K]; the mixture
    weight is the softmax of the rest at every position, masked nowhere. *)
Theorem TTS_forward_length_mask (self : TTS) (x : Tensor3)
  (text : list (list Z)) (input_lengths output_lengths : list Z)
  (att : Attention) (h_c : context_val) (alignment : list mat)
  (termination : list vec) :
  forward (self_attention self) (context_query self x)
          (MemTensor (fst (TextEncoder self text))) input_lengths =
    inr (att, (h_c, alignment, termination)) ->
  length output_lengths = length (theta_hat_of self x h_c) ->
  rectangular (theta_hat_of self x h_c) (size_m2 (theta_hat_of self x h_c)) ->
  exists mu std pi,
    TTS_forward self x text input_lengths output_lengths =
      inr (set_attention self att, (mu, std, pi, alignment)) /\
    pi = map3 (fun v => softmax (skipn (2 * K self) v))
              (theta_hat_of self x h_c) /\
    forall b m i n v,
      nth_error output_lengths b = Some n ->
      cell (theta_hat_of self x h_c) b m i = Some v ->
      ((n <= Z.of_nat i)%Z ->
         cell mu b m i = Some (map (fun _ => 0) (slice 0 (K self) v)) /\
         cell std b m i =
           Some (map (fun _ => 1 / sqrt (2 * PI))
                     (slice (K self) (2 * K self) v))) /\
      ((Z.of_nat i < n)%Z ->
         cell mu b m i = Some (slice 0 (K self) v) /\
         cell std b m i = Some (map exp (slice (K self) (2 * K self) v))).
Proof.
  intros Hfw Hlen Hrect.
  destruct (mixture_parameters_ok self (theta_hat_of self x h_c)
              output_lengths Hlen Hrect) as (mu & std & Hmp & Hcells).
  exists mu, std. eexists.
  unfold TTS_forward. destruct (TextEncoder self text) as [memory hc].
  simpl in Hfw. rewrite Hfw. cbv beta iota delta [bind ret].
  rewrite Hmp. split; [reflexivity |]. split; [reflexivity |].
  intros b m i n v Hn Hv. destruct (Hcells b m i n v Hn Hv) as [Hmu Hstd].
  split; intros Hi.
  - replace (n <? Z.of_nat (S i))%Z with true in Hmu, Hstd
      by (symmetry; apply Z.ltb_lt; lia).
    now split.
  - replace (n <? Z.of_nat (S i))%Z with false in Hmu, Hstd
      by (symmetry; apply Z.ltb_ge; lia).
    now split.
Qed.

Lemma demo_x_query_wf : wf3 (context_query demo_tts demo_x).
Proof. unfold wf3; simpl. repeat constructor. Defined.

(** C6 at two samples of output lengths 1 and 2: the second frame of the
    first sample is masked, its first frame is not. *)
Lemma TTS_forward_length_mask_witness :
  exists att h_c alignment mu std pi,
    TTS_forward demo_tts demo_x demo_text demo_lengths demo_output_lengths =
      inr (set_attention demo_tts att, (mu, std, pi, alignment)) /\
    pi = map3 (fun v => softmax (skipn 2 v)) (theta_hat_of demo_tts demo_x h_c) /\
    cell mu 0 0 1 = Some [0] /\
    cell std 0 0 1 = Some [1 / sqrt (2 * PI)] /\
    cell mu 0 0 0 = Some [1] /\
    cell std 0 0 0 = Some [exp 2].
Proof.
  destruct (forward_ok demo_attention (context_query demo_tts demo_x)
              demo_memory eq_refl eq_refl eq_refl
              (fun H => O_S 0 (eq_sym (eq_add_S _ _ H)))
              demo_lengths (le_S 1 1 (le_n 1)) (le_n 2) demo_lengths_ok)
    as (s & hidden & _ & _ & _ & _ & _ & _ & _ & Hfw).
  destruct (TTS_forward_length_mask demo_tts demo_x demo_text demo_lengths
              demo_output_lengths _ _ _ _ Hfw eq_refl
              (Forall_cons _ (Forall_cons _ eq_refl (Forall_nil _))
                 (Forall_cons _ (Forall_cons _ eq_refl (Forall_nil _))
                    (Forall_nil _))))
    as (mu & std & pi & Hrun & Hpi & Hcells).
  exists (l_self s). do 2 eexists. exists mu, std, pi.
  split; [exact Hrun |]. split; [exact Hpi |].
  destruct (Hcells 0%nat 0%nat 1%nat 1%Z [1; 2; 3] eq_refl eq_refl) as [Hmask _].
  destruct (Hcells 0%nat 0%nat 0%nat 1%Z [1; 2; 3] eq_refl eq_refl) as [_ Hkeep].
  destruct (Hmask (Z.le_refl 1)) as [Hm1 Hs1].
  destruct (Hkeep eq_refl) as [Hm0 Hs0].
  split; [exact Hm1 |]. split; [exact Hs1 |]. split; [exact Hm0 | exact Hs0].
Defined.

(** *** [TTS.sample] *)

Lemma forward_tuple_raises self input m hc input_lengths :
  length (data input) = size0 input -> (1 <= size1 input)%nat ->
  size2 input <> 1%nat ->
  forward self input (MemTuple m hc) input_lengths = inl AttributeError.
Proof.
  intros Hin HT HD. unfold forward, forward_loop.
  destruct (size1 input) as [| n]; [lia |]. simpl.
  unfold forward_step at 1. simpl.
  apply Nat.eqb_neq in HD. rewrite HD.
  unfold zeros2. rewrite length_map, repeat_length, Hin, Nat.eqb_refl.
  reflexivity.
Qed.

Lemma sample_tuple_raises self x text input_lengths :
  length (data x) = size0 x -> (1 <= size2 x)%nat ->
  model_hidden (hp self) <> 1%nat ->
  sample self x text input_lengths = inl AttributeError.
Proof.
  intros Hx HT HD. unfold sample.
  destruct (TextEncoder self text) as [m hc].
  destruct (size2 x) as [| n] eqn:Hn; [lia |]. simpl.
  unfold sample_step at 1. simpl.
  rewrite forward_tuple_raises; [reflexivity | | |]; simpl.
  - unfold pad_time. now rewrite !length_map.
  - lia.
  - exact HD.
Qed.

(** C7 (the code departs from it). [TTS.sample] returns on no input: the
    name [std] read by its [return] is bound nowhere, and before that the
    first step already raises, because [memory] is the text encoder's pair
    and not its tensor ([TTS.forward] unpacks it). At two spectrograms of
    two frames the exception is [AttributeError]. *)
Theorem sample_never_returns :
  (forall self x text input_lengths,
     exists e, sample self x text input_lengths = inl e) /\
  sample demo_tts demo_x demo_text demo_lengths = inl AttributeError.
Proof.
  split.
  - intros self x text input_lengths. unfold sample.
    destruct (TextEncoder self text) as [m hc].
    destruct (for_each _ _ _) as [e | s]; simpl; [eauto |].
    destruct (local (s_mu s)) as [e | mu]; simpl; eauto.
  - apply sample_tuple_raises; simpl; [reflexivity | lia | discriminate].
Qed.

(** C10. [TTS.__init__] raises [AssertionError('TTS tier must be 1')]
    exactly when the tier is not 1, returns an object exactly when it is 1,
    and every object it returns has tier 1. *)
Theorem TTS_init_requires_tier_1 (hp : HParams) (freq n_layers : nat)
  (tierN : Z) (mods : Modules) :
  (TTS_init hp freq n_layers tierN mods =
     inl (AssertionError "TTS tier must be 1") <-> tierN <> 1%Z) /\
  ((exists self, TTS_init hp freq n_layers tierN mods = inr self) <->
     tierN = 1%Z) /\
  match TTS_init hp freq n_layers tierN mods with
  | inr self => Tts.tierN self = 1%Z
  | inl e => e = AssertionError "TTS tier must be 1"
  end.
Proof.
  unfold TTS_init. destruct (Z.eqb_spec tierN 1) as [-> | Hne]; simpl.
  - split; [| split]; [| | reflexivity].
    + split; [discriminate | congruence].
    + split; [reflexivity | eauto].
  - split; [| split]; [| | reflexivity].
    + split; [auto | reflexivity].
    + split; [intros [self H]; discriminate | contradiction].
Qed.

(** C10 at tiers 2 and 1. *)
Lemma TTS_init_requires_tier_1_witness :
  TTS_init (mkHParams 2 1) 1 0 2%Z demo_modules =
    inl (AssertionError "TTS tier must be 1") /\
  exists self, TTS_init (mkHParams 2 1) 1 0 1%Z demo_modules = inr self.
Proof.
  split.
  - apply (proj1 (TTS_init_requires_tier_1 (mkHParams 2 1) 1 0 2%Z demo_modules)).
    discriminate.
  - apply (proj1 (proj2 (TTS_init_requires_tier_1 (mkHParams 2 1) 1 0 1%Z
                           demo_modules))).
    reflexivity.
Defined.

End SequenceModel.

(* ------------------------------------------------------------------ *)
(** ** The batch assembler: [TextCollate] and [AudioCollate] *)

Module Assembler.

Import Facts Wavloader Batches Examples.

Lemma list_max_ge (l : list nat) (x : nat) : In x l -> x <= list_max l.
Proof.
  induction l as [| a l IH]; simpl; [contradiction |].
  intros [-> | H]; [lia | specialize (IH H); lia].
Qed.

Lemma same_shape_refl (a : list nat) : same_shape a a = true.
Proof. unfold same_shape. destruct (list_eq_dec Nat.eq_dec a a); congruence. Qed.

(** Token sequences: rank 1. *)
Lemma pad_sequence_tokens (seqs : list (ndarray Z)) :
  seqs <> [] ->
  Forall (fun s => exists n, shape s = [n]) seqs ->
  exists p,
    pad_sequence 0%Z seqs = inr p /\
    shape p = [length seqs; list_max (map seq_length seqs)] /\
    forall j s i,
      nth_error seqs j = Some s ->
      item p [j; i] = if i <? seq_length s then item s [i] else 0%Z.
Proof.
  intros Hne Hall. destruct seqs as [| s0 rest]; [congruence |].
  unfold pad_sequence.
  assert (Hs0 : exists n, shape s0 = [n]) by (inversion Hall; assumption).
  destruct Hs0 as [n0 Hn0].
  replace (forallb _ (s0 :: rest)) with true.
  - eexists. split; [reflexivity |]. simpl shape. split.
    + rewrite Hn0. simpl. f_equal. f_equal.
      unfold seq_length. rewrite Hn0. simpl. f_equal. f_equal.
      apply map_ext_in. intros s Hs. rewrite Forall_forall in Hall.
      destruct (Hall s (or_intror Hs)) as [n Hn]. now rewrite Hn.
    + intros j s i Hj. simpl item. rewrite Hj.
      rewrite Forall_forall in Hall.
      destruct (Hall s (nth_error_In _ _ Hj)) as [n Hn].
      unfold seq_length. rewrite Hn. reflexivity.
  - symmetry. apply forallb_forall. intros s Hs.
    rewrite Forall_forall in Hall. destruct (Hall s Hs) as [n Hn].
    rewrite Hn, Hn0. reflexivity.
Qed.

(** Spectrograms: rank 2, frequency bins first. *)
Lemma pad_frames_ok (F : nat) (arrays : list (ndarray R)) :
  arrays <> [] ->
  Forall (fun a => exists n, shape a = [F; n]) arrays ->
  exists p,
    pad_frames arrays = inr p /\
    shape p = [length arrays; F; list_max (map time_length arrays)] /\
    forall j a f i,
      nth_error arrays j = Some a ->
      item p [j; f; i] = if i <? time_length a then item a [f; i] else 0%R.
Proof.
  intros Hne Hall. destruct arrays as [| a0 rest]; [congruence |].
  unfold pad_frames, pad_sequence. simpl map.
  assert (Ha0 : exists n, shape a0 = [F; n]) by (inversion Hall; assumption).
  destruct Ha0 as [n0 Hn0].
  replace (forallb _ (T a0 :: map T rest)) with true.
  - simpl bind. unfold transpose12. simpl shape. rewrite Hn0. simpl.
    eexists. split; [reflexivity |]. simpl shape. split.
    + rewrite length_map. f_equal. f_equal. f_equal.
      unfold time_length. rewrite Hn0. simpl. f_equal.
      rewrite map_map. f_equal. apply map_ext_in. intros a Ha.
      rewrite Forall_forall in Hall.
      destruct (Hall a (or_intror Ha)) as [n Hn]. simpl. now rewrite Hn.
    + intros j a f i Hj. simpl item.
      change (T a0 :: map T rest) with (map T (a0 :: rest)).
      rewrite nth_error_map, Hj. simpl.
      rewrite Forall_forall in Hall.
      destruct (Hall a (nth_error_In _ _ Hj)) as [n Hn].
      unfold time_length. rewrite Hn. reflexivity.
  - symmetry. change (T a0 :: map T rest) with (map T (a0 :: rest)).
    apply forallb_forall. intros s Hs. in_map Hs a Ha. rewrite Forall_forall in Hall.
    destruct (Hall a Ha) as [n Hn]. simpl. rewrite Hn, Hn0. simpl.
    now rewrite same_shape_refl.
Qed.

Lemma in_bounds_1 idx n :
  in_bounds idx [n] -> exists i, idx = [i] /\ i < n.
Proof.
  intros H. inversion H as [| i ? rest ? Hi Hrest]; subst.
  inversion Hrest; subst. eauto.
Qed.

Lemma in_bounds_2 idx m n :
  in_bounds idx [m; n] -> exists f i, idx = [f; i] /\ f < m /\ i < n.
Proof.
  intros H. inversion H as [| f ? rest ? Hf Hrest]; subst.
  destruct (in_bounds_1 _ _ Hrest) as (i & -> & Hi). eauto.
Qed.

(** Cutting row [j] of a padded stack of token sequences back to the
    sequence's length gives the sequence back. *)
Lemma trimmed_tokens (p s : ndarray Z) (B maxlen j n : nat) :
  shape p = [B; maxlen] -> shape s = [n] -> n <= maxlen ->
  (forall i, item p [j; i] = if i <? n then item s [i] else 0%Z) ->
  array_eq (trimmed p j n) s.
Proof.
  intros Hp Hs Hle Hitem.
  unfold array_eq, trimmed, narrow_last, select0. simpl. rewrite Hp, Hs. simpl.
  rewrite Nat.min_l by exact Hle. split; [reflexivity |].
  intros idx Hidx. destruct (in_bounds_1 _ _ Hidx) as (i & -> & Hi).
  rewrite Hitem. apply Nat.ltb_lt in Hi. now rewrite Hi.
Qed.

(** The same for a padded stack of spectrograms. *)
Lemma trimmed_frames (p a : ndarray R) (B F maxlen j n : nat) :
  shape p = [B; F; maxlen] -> shape a = [F; n] -> n <= maxlen ->
  (forall f i, item p [j; f; i] = if i <? n then item a [f; i] else 0%R) ->
  array_eq (trimmed p j n) a.
Proof.
  intros Hp Ha Hle Hitem.
  unfold array_eq, trimmed, narrow_last, select0. simpl. rewrite Hp, Ha. simpl.
  rewrite Nat.min_l by exact Hle. split; [reflexivity |].
  intros idx Hidx. destruct (in_bounds_2 _ _ _ Hidx) as (f & i & -> & Hf & Hi).
  rewrite Hitem. apply Nat.ltb_lt in Hi. now rewrite Hi.
Qed.

Lemma shape_at_all {A X : Type} (proj : X -> ndarray A) (k : nat)
  (len : ndarray A -> nat) (batch : list X) :
  (forall x, In x batch -> nth_error (shape (proj x)) k = Some (len (proj x))) ->
  map_res (fun x => shape_at (proj x) k) batch =
  inr (map (fun x => len (proj x)) batch).
Proof.
  intros H. apply map_res_ok. intros x Hx. unfold shape_at.
  now rewrite (H x Hx).
Qed.

Lemma Forall_map_shape {X A : Type} (proj : X -> ndarray A) (P : ndarray A -> Prop)
  (batch : list X) :
  Forall (fun x => P (proj x)) batch -> Forall P (map proj batch).
Proof. intros H. now apply Forall_map. Qed.

Lemma map_neq_nil {X Y : Type} (f : X -> Y) (l : list X) :
  l <> [] -> map f l <> [].
Proof. destruct l; [congruence | discriminate]. Qed.

Lemma AudioCollate_ok (F F' : nat) (batch : list audio_sample) :
  audio_batch_ok F F' batch ->
  exists source_padded target_padded audio_lengths,
    AudioCollate_call batch =
      inr (source_padded, target_padded, audio_lengths) /\
    audio_lengths = map (fun x : audio_sample => time_length (fst x)) batch /\
    shape source_padded = [length batch; F; list_max audio_lengths] /\
    shape target_padded = [length batch; F'; list_max audio_lengths] /\
    forall j src tgt n,
      nth_error batch j = Some (src, tgt) ->
      nth_error audio_lengths j = Some n ->
      array_eq (trimmed source_padded j n) src /\
      array_eq (trimmed target_padded j n) tgt /\
      forall f i, n <= i ->
        item source_padded [j; f; i] = 0%R /\
        item target_padded [j; f; i] = 0%R.
Proof.
  intros [Hne Hall]. unfold AudioCollate_call.
  rewrite (shape_at_all (fun x : audio_sample => fst x) 1 time_length).
  2:{ intros x Hx. rewrite Forall_forall in Hall.
      destruct (Hall x Hx) as (n & Hs & _). unfold time_length.
      now rewrite Hs. }
  destruct (pad_frames_ok F (map (fun x : audio_sample => fst x) batch))
    as (sp & Hsp & Hshape_s & Hitem_s).
  { now apply map_neq_nil. }
  { apply Forall_map. eapply Forall_impl; [| exact Hall].
    intros x (n & Hs & _). eauto. }
  destruct (pad_frames_ok F' (map (fun x : audio_sample => snd x) batch))
    as (tp & Htp & Hshape_t & Hitem_t).
  { now apply map_neq_nil. }
  { apply Forall_map. eapply Forall_impl; [| exact Hall].
    intros x (n & _ & Ht). eauto. }
  cbv beta iota delta [bind ret]. rewrite Hsp, Htp.
  exists sp, tp. eexists. split; [reflexivity |]. split; [reflexivity |].
  rewrite length_map, map_map in Hshape_s.
  rewrite length_map, map_map in Hshape_t.
  assert (Hsame : map (fun x : audio_sample => time_length (snd x)) batch =
                  map (fun x : audio_sample => time_length (fst x)) batch).
  { apply map_ext_in. intros x Hx. rewrite Forall_forall in Hall.
    destruct (Hall x Hx) as (n & Hs & Ht). unfold time_length.
    now rewrite Hs, Ht. }
  rewrite Hsame in Hshape_t.
  split; [exact Hshape_s |]. split; [exact Hshape_t |].
  intros j src tgt n Hj Hn.
  rewrite nth_error_map, Hj in Hn. simpl in Hn. injection Hn as <-.
  rewrite Forall_forall in Hall.
  destruct (Hall _ (nth_error_In _ _ Hj)) as (frames & Hs & Ht). simpl in Hs, Ht.
  assert (Hlen : time_length src = frames) by (unfold time_length; now rewrite Hs).
  assert (Hlen' : time_length tgt = frames) by (unfold time_length; now rewrite Ht).
  assert (Hmax : frames <=
                 list_max (map (fun x : audio_sample => time_length (fst x)) batch)).
  { apply list_max_ge. apply in_map_iff. exists (src, tgt).
    split; [exact Hlen | eapply nth_error_In; exact Hj]. }
  assert (Hjs : nth_error (map (fun x : audio_sample => fst x) batch) j = Some src)
    by now rewrite nth_error_map, Hj.
  assert (Hjt : nth_error (map (fun x : audio_sample => snd x) batch) j = Some tgt)
    by now rewrite nth_error_map, Hj.
  rewrite Hlen. split; [| split].
  - eapply trimmed_frames; [exact Hshape_s | exact Hs | exact Hmax |].
    intros f i. rewrite (Hitem_s j src f i Hjs). now rewrite Hlen.
  - eapply trimmed_frames; [exact Hshape_t | exact Ht | exact Hmax |].
    intros f i. rewrite (Hitem_t j tgt f i Hjt). now rewrite Hlen'.
  - intros f i Hi.
    rewrite (Hitem_s j src f i Hjs), (Hitem_t j tgt f i Hjt), Hlen, Hlen'.
    apply Nat.ltb_ge in Hi. now rewrite Hi.
Qed.

Lemma TextCollate_ok (F F' : nat) (batch : list text_sample) :
  text_batch_ok F F' batch ->
  exists seq_padded text_lengths source_padded target_padded audio_lengths,
    TextCollate_call batch =
      inr (seq_padded, text_lengths, source_padded, target_padded,
           audio_lengths) /\
    text_lengths =
      map (fun x : text_sample => seq_length (fst (fst x))) batch /\
    audio_lengths =
      map (fun x : text_sample => time_length (snd (fst x))) batch /\
    shape seq_padded = [length batch; list_max text_lengths] /\
    shape source_padded = [length batch; F; list_max audio_lengths] /\
    shape target_padded = [length batch; F'; list_max audio_lengths] /\
    forall j s src tgt n_text n_audio,
      nth_error batch j = Some (s, src, tgt) ->
      nth_error text_lengths j = Some n_text ->
      nth_error audio_lengths j = Some n_audio ->
      array_eq (trimmed seq_padded j n_text) s /\
      array_eq (trimmed source_padded j n_audio) src /\
      array_eq (trimmed target_padded j n_audio) tgt /\
      (forall i, n_text <= i -> item seq_padded [j; i] = 0%Z) /\
      (forall f i, n_audio <= i ->
         item source_padded [j; f; i] = 0%R /\
         item target_padded [j; f; i] = 0%R).
Proof.
  intros [Hne Hall]. unfold TextCollate_call, long.
  rewrite (shape_at_all (fun x : ndarray Z => x) 0 seq_length).
  2:{ intros x Hx. in_map Hx y Hy.
      rewrite Forall_forall in Hall.
      destruct (Hall y Hy) as (n & frames & Hq & _). unfold seq_length.
      now rewrite Hq. }
  rewrite (shape_at_all (fun x : text_sample => snd (fst x)) 1 time_length).
  2:{ intros x Hx. rewrite Forall_forall in Hall.
      destruct (Hall x Hx) as (n & frames & _ & Hs & _). unfold time_length.
      now rewrite Hs. }
  destruct (pad_sequence_tokens (map (fun x : text_sample => fst (fst x)) batch))
    as (qp & Hqp & Hshape_q & Hitem_q).
  { now apply map_neq_nil. }
  { apply Forall_map. eapply Forall_impl; [| exact Hall].
    intros x (n & frames & Hq & _). eauto. }
  destruct (pad_frames_ok F (map (fun x : text_sample => snd (fst x)) batch))
    as (sp & Hsp & Hshape_s & Hitem_s).
  { now apply map_neq_nil. }
  { apply Forall_map. eapply Forall_impl; [| exact Hall].
    intros x (n & frames & _ & Hs & _). eauto. }
  destruct (pad_frames_ok F' (map (fun x : text_sample => snd x) batch))
    as (tp & Htp & Hshape_t & Hitem_t).
  { now apply map_neq_nil. }
  { apply Forall_map. eapply Forall_impl; [| exact Hall].
    intros x (n & frames & _ & _ & Ht). eauto. }
  cbv beta iota delta [bind ret]. rewrite Hqp, Hsp, Htp.
  exists qp. eexists. exists sp, tp. eexists.
  split; [reflexivity |]. rewrite !map_map.
  split; [reflexivity |]. split; [reflexivity |].
  rewrite length_map, map_map in Hshape_q.
  rewrite length_map, map_map in Hshape_s.
  rewrite length_map, map_map in Hshape_t.
  assert (Hsame : map (fun x : text_sample => time_length (snd x)) batch =
                  map (fun x : text_sample => time_length (snd (fst x))) batch).
  { apply map_ext_in. intros x Hx. rewrite Forall_forall in Hall.
    destruct (Hall x Hx) as (n & frames & _ & Hs & Ht). unfold time_length.
    now rewrite Hs, Ht. }
  rewrite Hsame in Hshape_t.
  split; [exact Hshape_q |]. split; [exact Hshape_s |]. split; [exact Hshape_t |].
  intros j s src tgt n_text n_audio Hj Hnt Hna.
  rewrite nth_error_map, Hj in Hnt. simpl in Hnt. injection Hnt as <-.
  rewrite nth_error_map, Hj in Hna. simpl in Hna. injection Hna as <-.
  rewrite Forall_forall in Hall.
  destruct (Hall _ (nth_error_In _ _ Hj)) as (n & frames & Hq & Hs & Ht).
  simpl in Hq, Hs, Ht.
  assert (Hlq : seq_length s = n) by (unfold seq_length; now rewrite Hq).
  assert (Hlen : time_length src = frames) by (unfold time_length; now rewrite Hs).
  assert (Hlen' : time_length tgt = frames) by (unfold time_length; now rewrite Ht).
  assert (Hmaxq : n <= list_max
                         (map (fun x : text_sample => seq_length (fst (fst x))) batch)).
  { apply list_max_ge. apply in_map_iff. exists (s, src, tgt).
    split; [exact Hlq | eapply nth_error_In; exact Hj]. }
  assert (Hmax : frames <= list_max
                   (map (fun x : text_sample => time_length (snd (fst x))) batch)).
  { apply list_max_ge. apply in_map_iff. exists (s, src, tgt).
    split; [exact Hlen | eapply nth_error_In; exact Hj]. }
  assert (Hjq : nth_error (map (fun x : text_sample => fst (fst x)) batch) j = Some s)
    by now rewrite nth_error_map, Hj.
  assert (Hjs : nth_error (map (fun x : text_sample => snd (fst x)) batch) j = Some src)
    by now rewrite nth_error_map, Hj.
  assert (Hjt : nth_error (map (fun x : text_sample => snd x) batch) j = Some tgt)
    by now rewrite nth_error_map, Hj.
  rewrite Hlq, Hlen. split; [| split; [| split; [| split]]].
  - eapply trimmed_tokens; [exact Hshape_q | exact Hq | exact Hmaxq |].
    intros i. rewrite (Hitem_q j s i Hjq). now rewrite Hlq.
  - eapply trimmed_frames; [exact Hshape_s | exact Hs | exact Hmax |].
    intros f i. rewrite (Hitem_s j src f i Hjs). now rewrite Hlen.
  - eapply trimmed_frames; [exact Hshape_t | exact Ht | exact Hmax |].
    intros f i. rewrite (Hitem_t j tgt f i Hjt). now rewrite Hlen'.
  - intros i Hi. rewrite (Hitem_q j s i Hjq), Hlq.
    apply Nat.ltb_ge in Hi. now rewrite Hi.
  - intros f i Hi.
    rewrite (Hitem_s j src f i Hjs), (Hitem_t j tgt f i Hjt), Hlen, Hlen'.
    apply Nat.ltb_ge in Hi. now rewrite Hi.
Qed.

(** C8. On a non-empty batch of feature pairs (token sequences of rank 1,
    spectrograms of a common number of frequency bins, source and target of
    an item time-aligned), [TextCollate] and [AudioCollate] return; each
    tensor family is stacked in input order and padded on the right with
    zeros to the longest item of the batch; the length vectors hold every
    item's own length in input order; and row [j] of each padded output, cut
    back to the recorded length of item [j], is item [j] of the input:
    same shape, same element at every index. *)
Theorem collate_round_trip (F F' G G' : nat)
  (text_batch : list text_sample) (audio_batch : list audio_sample) :
  text_batch_ok F F' text_batch -> audio_batch_ok G G' audio_batch ->
  (exists seq_padded text_lengths source_padded target_padded audio_lengths,
     TextCollate_call text_batch =
       inr (seq_padded, text_lengths, source_padded, target_padded,
            audio_lengths) /\
     text_lengths =
       map (fun x : text_sample => seq_length (fst (fst x))) text_batch /\
     audio_lengths =
       map (fun x : text_sample => time_length (snd (fst x))) text_batch /\
     shape seq_padded = [length text_batch; list_max text_lengths] /\
     shape source_padded = [length text_batch; F; list_max audio_lengths] /\
     shape target_padded = [length text_batch; F'; list_max audio_lengths] /\
     forall j s src tgt n_text n_audio,
       nth_error text_batch j = Some (s, src, tgt) ->
       nth_error text_lengths j = Some n_text ->
       nth_error audio_lengths j = Some n_audio ->
       array_eq (trimmed seq_padded j n_text) s /\
       array_eq (trimmed source_padded j n_audio) src /\
       array_eq (trimmed target_padded j n_audio) tgt /\
       (forall i, n_text <= i -> item seq_padded [j; i] = 0%Z) /\
       (forall f i, n_audio <= i ->
          item source_padded [j; f; i] = 0%R /\
          item target_padded [j; f; i] = 0%R)) /\
  (exists source_padded target_padded audio_lengths,
     AudioCollate_call audio_batch =
       inr (source_padded, target_padded, audio_lengths) /\
     audio_lengths =
       map (fun x : audio_sample => time_length (fst x)) audio_batch /\
     shape source_padded = [length audio_batch; G; list_max audio_lengths] /\
     shape target_padded = [length audio_batch; G'; list_max audio_lengths] /\
     forall j src tgt n,
       nth_error audio_batch j = Some (src, tgt) ->
       nth_error audio_lengths j = Some n ->
       array_eq (trimmed source_padded j n) src /\
       array_eq (trimmed target_padded j n) tgt /\
       forall f i, n <= i ->
         item source_padded [j; f; i] = 0%R /\
         item target_padded [j; f; i] = 0%R).
Proof.
  intros Ht Ha. split.
  - exact (TextCollate_ok F F' text_batch Ht).
  - exact (AudioCollate_ok G G' audio_batch Ha).
Qed.

Lemma demo_text_batch_ok : text_batch_ok 1 1 demo_text_batch.
Proof.
  split; [discriminate |].
  repeat constructor; simpl; eauto.
Defined.

Lemma demo_audio_batch_ok : audio_batch_ok 1 1 demo_audio_batch.
Proof.
  split; [discriminate |].
  repeat constructor; simpl; eauto.
Defined.

(** C8 at a batch of two items of lengths 2 and 1. *)
Lemma collate_round_trip_witness :
  (exists seq_padded text_lengths source_padded target_padded audio_lengths,
     TextCollate_call demo_text_batch =
       inr (seq_padded, text_lengths, source_padded, target_padded,
            audio_lengths) /\
     text_lengths = [2; 1] /\ audio_lengths = [2; 1] /\
     shape seq_padded = [2; 2] /\
     array_eq (trimmed seq_padded 1 1) (tokens [9%Z]) /\
     array_eq (trimmed target_padded 1 1) (spectrogram [[6%R]]) /\
     item seq_padded [1; 1] = 0%Z) /\
  (exists source_padded target_padded audio_lengths,
     AudioCollate_call demo_audio_batch =
       inr (source_padded, target_padded, audio_lengths) /\
     audio_lengths = [2; 1] /\
     array_eq (trimmed source_padded 0 2) (spectrogram [[1%R; 2%R]])).
Proof.
  destruct (collate_round_trip 1 1 1 1 demo_text_batch demo_audio_batch
              demo_text_batch_ok demo_audio_batch_ok)
    as [(qp & tl & sp & tp & al & Hrun & Htl & Hal & Hq & _ & _ & Hrows)
        (sp' & tp' & al' & Hrun' & Hal' & _ & _ & Hrows')].
  split.
  - exists qp, tl, sp, tp, al.
    destruct (Hrows 1 (tokens [9%Z]) (spectrogram [[5%R]]) (spectrogram [[6%R]])
                1 1 eq_refl)
      as (Hs & _ & Ht & Hz & _).
    { rewrite Htl. reflexivity. }
    { rewrite Hal. reflexivity. }
    split; [exact Hrun |]. split; [exact Htl |]. split; [exact Hal |].
    split; [rewrite Hq, Htl; reflexivity |].
    split; [exact Hs |]. split; [exact Ht |]. apply Hz. apply le_n.
  - exists sp', tp', al'.
    destruct (Hrows' 0 (spectrogram [[1%R; 2%R]]) (spectrogram [[3%R; 4%R]]) 2
                eq_refl)
      as (Hs & _).
    { rewrite Hal'. reflexivity. }
    split; [exact Hrun' |]. split; [exact Hal' | exact Hs].
Defined.

End Assembler.

(* ------------------------------------------------------------------ *)
(** ** The sample source: [AudioTextDataset] and [AudioOnlyDataset] *)

Module SampleSource.

Import Facts Wavloader Batches Examples.

(** On finite floats [<] is the order of the rationals. *)
Lemma float_lt_finite (a b : QArith_base.Q) :
  float_lt (Finite a) (Finite b) = true <-> QArith_base.Qlt a b.
Proof.
  unfold float_lt. destruct (QArith_base.Qlt_le_dec a b) as [Hlt | Hle].
  - split; [intros _; exact Hlt | reflexivity].
  - split; [discriminate |].
    intros Hlt. exfalso. exact (QArith_base.Qlt_not_le _ _ Hlt Hle).
Qed.

(** NaN is below nothing, and nothing is below NaN. *)
Lemma float_lt_nan (a : pyfloat) :
  float_lt NaN a = false /\ float_lt a NaN = false.
Proof. destruct a; split; reflexivity. Qed.

Lemma kss_lines_below env hp lines :
  forall acc dataset,
    kss_lines env hp lines acc = inr dataset ->
    forall sample, In sample dataset ->
      In sample acc \/
      exists line, In line lines /\ kss_source env hp line sample.
Proof.
  induction lines as [| line rest IH]; intros acc dataset Hrun sample Hin.
  - simpl in Hrun. injection Hrun as <-. now left.
  - simpl in Hrun.
    destruct (split "|"%char line)
      as [| w [| f1 [| f2 [| text [| len [| f5 [| extra more]]]]]]] eqn:Hsplit;
      try discriminate.
    destruct (float env len) as [e | d] eqn:Hfloat; [discriminate |].
    simpl in Hrun.
    destruct (float_lt d (audio_duration hp)) eqn:Hlt.
    + destruct (IH _ _ Hrun sample Hin) as [Hacc | (l & Hl & Hsrc)].
      * apply in_app_or in Hacc. destruct Hacc as [Hacc | [<- | []]].
        -- now left.
        -- right. exists line. split; [now left |].
           exists w, f1, f2, len, f5, d. simpl. auto.
      * right. exists l. split; [now right | exact Hsrc].
    + destruct (IH _ _ Hrun sample Hin) as [Hacc | (l & Hl & Hsrc)].
      * now left.
      * right. exists l. split; [now right | exact Hsrc].
Qed.

Lemma blizzard_pairs_below env hp pairs :
  forall acc sample,
    In sample (blizzard_pairs env hp pairs acc) ->
    In sample acc \/
    float_lt (get_length env (fst sample) (audio_sr hp)) (audio_duration hp)
      = true.
Proof.
  induction pairs as [| [filename sentence] rest IH]; intros acc sample Hin.
  - now left.
  - simpl in Hin.
    destruct (float_lt _ (audio_duration hp)) eqn:Hlt.
    + destruct (IH _ _ Hin) as [Hacc | Hok]; [| now right].
      apply in_app_or in Hacc. destruct Hacc as [Hacc | [<- | []]].
      * now left.
      * right. exact Hlt.
    + exact (IH _ _ Hin).
Qed.

Lemma split_part_incl {A : Type} env train (l : list A) (x : A) :
  In x (split_part env train l) -> In x l.
Proof.
  unfold split_part. intros H.
  rewrite <- (firstn_skipn (int_095 env (length l)) l).
  apply in_or_app. destruct train; [left | right]; exact H.
Qed.

(** C9, amended. Every sample [AudioTextDataset] enumerates, in the training
    or the validation part, has a duration strictly below the configured
    maximum: for KSS the duration field of the transcript line it comes
    from, for Blizzard the length of its audio file. (The audio-only dataset
    is left out: it filters nothing.) *)
Theorem AudioTextDataset_below_maximum (env : Env) (hp : HParams)
  (train : bool) (dataset : list (string * string)) :
  shuffle_permutes env ->
  AudioTextDataset_init env hp train = inr dataset ->
  forall sample, In sample dataset ->
    (data_name hp = "KSS"%string /\
     exists lines line,
       read_lines env
         (path_join env [data_path hp; "transcript.v.1.3.txt"%string]) =
         inr lines /\
       In line lines /\ kss_source env hp line sample) \/
    (data_name hp = "Blizzard"%string /\
     float_lt (get_length env (fst sample) (audio_sr hp)) (audio_duration hp)
       = true).
Proof.
  intros Hperm Hrun sample Hin. unfold AudioTextDataset_init in Hrun.
  apply bind_ok in Hrun. destruct Hrun as (ds & Hds & Hret).
  injection Hret as <-.
  apply split_part_incl in Hin.
  apply (Permutation_in _ (Permutation_sym (Hperm _ ds))) in Hin.
  destruct (String.eqb_spec (data_name hp) "KSS") as [Hkss | _].
  - left. split; [exact Hkss |].
    apply bind_ok in Hds. destruct Hds as (lines & Hread & Hloop).
    destruct (kss_lines_below env hp lines [] ds Hloop sample Hin)
      as [[] | (line & Hline & Hsrc)].
    exists lines, line. auto.
  - destruct (String.eqb_spec (data_name hp) "Blizzard") as [Hbl | _];
      [| discriminate].
    right. split; [exact Hbl |].
    apply bind_ok in Hds. destruct Hds as (lines & Hread & Hret).
    injection Hret as <-.
    destruct (blizzard_pairs_below env hp _ [] sample Hin) as [[] | Hok].
    exact Hok.
Qed.

Lemma demo_shuffle_permutes : shuffle_permutes demo_env.
Proof. intros A l. apply Permutation_rev. Defined.

(** C9, amended, at a KSS transcript of two lines, of 3.5 and 12 seconds,
    with a maximum of 10 seconds. *)
Lemma AudioTextDataset_below_maximum_witness :
  AudioTextDataset_init demo_env demo_hp false =
    inr [("data/kss/a.wav"%string, "hello"%string)] /\
  exists lines line,
    read_lines demo_env
      (path_join demo_env [data_path demo_hp; "transcript.v.1.3.txt"%string]) =
      inr lines /\
    In line lines /\
    kss_source demo_env demo_hp line
               ("data/kss/a.wav"%string, "hello"%string).
Proof.
  split; [reflexivity |].
  destruct (AudioTextDataset_below_maximum demo_env demo_hp false
              [("data/kss/a.wav"%string, "hello"%string)]
              demo_shuffle_permutes eq_refl
              ("data/kss/a.wav"%string, "hello"%string) (or_introl eq_refl))
    as [[_ H] | [Hname _]].
  - exact H.
  - discriminate Hname.
Defined.

(** C9 as stated fails: [AudioOnlyDataset] enumerates a file of 100 seconds
    under a maximum of 10 seconds. *)
Lemma AudioOnlyDataset_keeps_long_files :
  AudioOnlyDataset_init demo_env demo_hp false = ["long.wav"%string] /\
  float_lt (get_length demo_env "long.wav" (audio_sr demo_hp))
           (audio_duration demo_hp) = false.
Proof. split; reflexivity. Qed.

End SampleSource.

(* ------------------------------------------------------------------ *)
(** ** Loops that raise *)

Module Raises.

(** A loop over [l] raises [e] when some element does and no element
    raises anything else. *)
Lemma map_res_raises {A B : Type} (f : A -> res B) (e : exn) (l : list A) :
  (forall a e', In a l -> f a = inl e' -> e' = e) ->
  (exists a, In a l /\ f a = inl e) ->
  map_res f l = inl e.
Proof.
  induction l as [| a l IH]; intros Hall (x & Hx & Hfx); [contradiction |].
  simpl. destruct (f a) as [e' | b] eqn:Hfa.
  - simpl. f_equal. apply (Hall a e'); [now left | exact Hfa].
  - simpl. rewrite IH; [reflexivity | |].
    + intros a' e' Ha'. apply Hall. now right.
    + destruct Hx as [-> | Hx]; [congruence | eauto].
Qed.

End Raises.

(* ------------------------------------------------------------------ *)
(** ** The alignment engine: what it refuses, what it conserves *)

Module EngineLimits.

Import Tts Facts Raises Spec Rows Mass AttentionStep AttentionForward.
Import Examples Engine.
Local Open Scope R_scope.

(** *** Calls that raise *)

Lemma attention_rows_mismatch (self : Attention) (h_i : list vec)
  (mem : Tensor3) :
  length h_i <> size0 mem ->
  attention self h_i (MemTensor mem) = inl RuntimeError.
Proof.
  intros Hne. rewrite attention_rows. unfold bmm.
  rewrite length_map. apply Nat.eqb_neq in Hne. now rewrite Hne.
Qed.

Lemma forward_rows_mismatch (self : Attention) (input mem : Tensor3)
  (input_lengths : list Z) :
  length (data input) = size0 input ->
  (1 <= size1 input)%nat -> size2 input <> 1%nat ->
  size0 input <> size0 mem ->
  forward self input (MemTensor mem) input_lengths = inl RuntimeError.
Proof.
  intros Hin HT HD HB. unfold forward, forward_loop.
  destruct (size1 input) as [| n]; [lia |]. simpl.
  unfold forward_step at 1. simpl.
  rewrite (proj2 (Nat.eqb_neq _ _) HD).
  unfold zeros2. rewrite length_map, repeat_length, Hin, Nat.eqb_refl.
  cbv beta iota delta [bind ret].
  rewrite attention_rows_mismatch; [reflexivity |].
  autorewrite with shapes. rewrite Hin. autorewrite with shapes. exact HB.
Qed.

(** X1. A memory whose batch size differs from the batch size of the
    queries is refused: [Attention.attention] raises [RuntimeError] at
    [torch.bmm] for hidden rows of another count, and [Attention.forward]
    (on a query of at least one step and of width other than 1) raises it
    at its first step, whatever the text lengths. *)
Theorem memory_batch_mismatch (self : Attention) (mem : Tensor3) :
  (forall h_i : list vec,
     length h_i <> size0 mem ->
     attention self h_i (MemTensor mem) = inl RuntimeError) /\
  (forall (input : Tensor3) (input_lengths : list Z),
     length (data input) = size0 input ->
     (1 <= size1 input)%nat -> size2 input <> 1%nat ->
     size0 input <> size0 mem ->
     forward self input (MemTensor mem) input_lengths = inl RuntimeError).
Proof.
  split.
  - intros h_i. apply attention_rows_mismatch.
  - intros input input_lengths. apply forward_rows_mismatch.
Qed.

(** X1 at one hidden row, and at a query of one sample, against a memory of
    two samples. *)
Lemma memory_batch_mismatch_witness :
  attention demo_attention [[0; 0]] (MemTensor demo_memory) =
    inl RuntimeError /\
  forward demo_attention (mkTensor3 1 1 2 [[[0; 0]]]) (MemTensor demo_memory)
          [1%Z] = inl RuntimeError.
Proof.
  destruct (memory_batch_mismatch demo_attention demo_memory) as [Ha Hf].
  split.
  - apply Ha. simpl. discriminate.
  - apply Hf; simpl;
      [reflexivity | apply le_n | discriminate | discriminate].
Defined.

Lemma forward_no_step (self : Attention) (input : Tensor3)
  (memory : memory_arg) (input_lengths : list Z) :
  size1 input = 0%nat ->
  forward self input memory input_lengths = inl RuntimeError.
Proof.
  intros HT. unfold forward, forward_loop. rewrite HT. reflexivity.
Qed.

Lemma forward_flat_step (self : Attention) (input : Tensor3)
  (memory : memory_arg) (input_lengths : list Z) :
  (1 <= size1 input)%nat -> size2 input = 1%nat ->
  forward self input memory input_lengths = inl RuntimeError.
Proof.
  intros HT HD. unfold forward, forward_loop.
  destruct (size1 input) as [| n]; [lia |]. simpl.
  unfold forward_step at 1. simpl. rewrite HD. reflexivity.
Qed.

(** X2. Two query shapes [Attention.forward] cannot process, whatever the
    memory (tensor or tuple) and the text lengths: with no timestep the
    loop body never runs, [torch.cat] is given the empty list of contexts
    and the call raises instead of returning (which exception is the
    library's choice); with feature width 1 (and at least one sample and
    one step) [context.squeeze(1)] drops the feature axis of the zero
    context and the first [torch.cat] raises [RuntimeError]. *)
Theorem forward_refuses_degenerate_query (self : Attention)
  (memory : memory_arg) (input_lengths : list Z) :
  (forall input : Tensor3,
     size1 input = 0%nat ->
     exists e, forward self input memory input_lengths = inl e) /\
  (forall input : Tensor3,
     (1 <= size0 input)%nat -> (1 <= size1 input)%nat ->
     size2 input = 1%nat ->
     forward self input memory input_lengths = inl RuntimeError).
Proof.
  split; intros input.
  - intros HT. eexists. now apply forward_no_step.
  - intros _. apply forward_flat_step.
Qed.

(** X2 at a query of no step and at a query of width one. *)
Lemma forward_refuses_degenerate_query_witness :
  (exists e,
     forward demo_attention (mkTensor3 2 0 2 [[]; []]) (MemTensor demo_memory)
             demo_lengths = inl e) /\
  forward demo_attention (mkTensor3 2 1 1 [[[0]]; [[0]]])
          (MemTensor demo_memory) demo_lengths = inl RuntimeError.
Proof.
  destruct (forward_refuses_degenerate_query demo_attention
              (MemTensor demo_memory) demo_lengths) as [H0 H1].
  split.
  - apply H0. reflexivity.
  - apply H1; [apply le_S, le_n | apply le_n | reflexivity].
Defined.

(** *** The termination row and the mass of a step *)

Lemma sum_mix_cdf_bounds K p z :
  (0 < K)%nat ->
  0 < sum_upto K (fun k => mix_weight K p k *
                             logistic_cdf z (center p k) (scale K p k)) < 1.
Proof.
  intros HK. split.
  - apply sum_upto_pos; [exact HK |]. intros k.
    apply Rmult_lt_0_compat; [now apply mix_weight_pos |].
    apply logistic_cdf_bounds.
  - apply mixture_below. intros k. apply logistic_cdf_bounds.
Qed.

Lemma termination_at_bounds K p z : 0 < termination_at K p z <= 1.
Proof.
  unfold termination_at. destruct K as [| K].
  - unfold sum_upto. simpl. lra.
  - pose proof (sum_mix_cdf_bounds (S K) p (z + 0.5) ltac:(lia)). lra.
Qed.

Lemma termination_at_mono K p z1 z2 :
  z1 <= z2 -> termination_at K p z2 <= termination_at K p z1.
Proof.
  intros Hz. unfold termination_at.
  assert (sum_upto K (fun k => mix_weight K p k *
                        logistic_cdf (z1 + 0.5) (center p k) (scale K p k)) <=
          sum_upto K (fun k => mix_weight K p k *
                        logistic_cdf (z2 + 0.5) (center p k) (scale K p k))).
  { apply Rsum_le. intros k Hk. apply in_seq in Hk.
    apply Rmult_le_compat_l; [apply mix_weight_nonneg; lia |].
    apply logistic_cdf_mono; [apply scale_pos | lra]. }
  lra.
Qed.

Lemma step_termination_row self T hs b h :
  nth_error hs b = Some h ->
  nth_error (step_termination self T hs) b =
  Some (row_termination (M self) (W_g self h) T).
Proof. intros H. unfold step_termination. now rewrite nth_error_map, H. Qed.

Lemma row_termination_spec K p T :
  length p = (3 * K)%nat ->
  row_termination K p T = map (fun i => termination_at K p (INR i)) (seq 0 T).
Proof.
  intros Hp. rewrite (list_by_position 0 (row_termination K p T)).
  rewrite length_row_termination. apply map_ext_in. intros i Hi.
  apply in_seq in Hi. apply nth_row_termination; [exact Hp | lia].
Qed.

(** X3. The termination output of one attention step: one row per sample
    over the memory positions, every entry between 0 and 1, and
    non-increasing along the memory (the mass past position [j] is at most
    the mass past position [i <= j]). *)
Theorem attention_termination_decreasing (self : Attention) (h_i : list vec)
  (mem : Tensor3) :
  length h_i = size0 mem -> projects_3M self ->
  exists self' context weights termination,
    attention self h_i (MemTensor mem) =
      inr (self', (context, weights, termination)) /\
    length termination = size0 mem /\
    Forall (fun t =>
              length t = size1 mem /\
              Forall (fun x => 0 <= x <= 1) t /\
              forall i j, (i <= j < size1 mem)%nat -> nth j t 0 <= nth i t 0)
           termination.
Proof.
  intros Hlen Hproj. rewrite attention_ok by exact Hlen.
  do 4 eexists. split; [reflexivity |].
  unfold step_termination. split; [now rewrite length_map |].
  apply Forall_forall. intros t Ht. in_map Ht h Hh.
  split; [apply length_row_termination |].
  rewrite row_termination_spec by apply Hproj. split.
  - apply Forall_forall. intros x Hx. in_map Hx i Hi.
    pose proof (termination_at_bounds (M self) (W_g self h) (INR i)). lra.
  - intros i j Hij.
    rewrite <- (row_termination_spec _ _ _ (Hproj h)).
    rewrite !nth_row_termination by (try apply Hproj; lia).
    apply termination_at_mono. apply le_INR. lia.
Qed.

(** X3 at the one-component engine, two samples and two memory slots. *)
Lemma attention_termination_decreasing_witness :
  exists self' context weights termination,
    attention demo_attention demo_hidden (MemTensor demo_memory) =
      inr (self', (context, weights, termination)) /\
    length termination = 2%nat /\
    Forall (fun t =>
              length t = 2%nat /\
              Forall (fun x => 0 <= x <= 1) t /\
              forall i j, (i <= j < 2)%nat -> nth j t 0 <= nth i t 0)
           termination.
Proof.
  exact (attention_termination_decreasing demo_attention demo_hidden
           demo_memory eq_refl demo_projects).
Defined.

Lemma Rsum_row_weights K p T :
  length p = (3 * K)%nat ->
  Rsum (row_weights K p T) =
  sum_upto K (fun k =>
    mix_weight K p k *
    (logistic_cdf (INR T - 0.5) (center p k) (scale K p k) -
     logistic_cdf (- 0.5) (center p k) (scale K p k))).
Proof.
  intros Hp. rewrite row_weights_spec by exact Hp.
  apply (alignment_mass K p T).
Qed.

(** X4. Nothing is lost in a step: for every sample, the weights over the
    memory slots, the termination entry at the last slot (the mass past the
    memory) and the mass before slot 0 add up to 1. The weights alone sum
    to less than 1 by exactly the two tails; no step renormalises. *)
Theorem attention_mass_conservation (self : Attention) (h_i : list vec)
  (mem : Tensor3) :
  (1 <= size1 mem)%nat -> length h_i = size0 mem -> projects_3M self ->
  exists self' context weights termination,
    attention self h_i (MemTensor mem) =
      inr (self', (context, weights, termination)) /\
    forall b h,
      nth_error h_i b = Some h ->
      exists w t,
        nth_error weights b = Some [w] /\ nth_error termination b = Some t /\
        Rsum w + nth (size1 mem - 1) t 0 + left_mass (M self) (W_g self h) = 1.
Proof.
  intros HT Hlen Hproj. rewrite attention_ok by exact Hlen.
  do 4 eexists. split; [reflexivity |].
  intros b h Hb. do 2 eexists.
  split; [unfold step_weights; now rewrite nth_error_map, Hb |].
  split; [exact (step_termination_row _ _ _ _ h Hb) |].
  rewrite Rsum_row_weights by apply Hproj.
  rewrite nth_row_termination by (try apply Hproj; lia).
  unfold termination_at, left_mass.
  replace (INR (size1 mem - 1) + 0.5) with (INR (size1 mem) - 0.5)
    by (rewrite minus_INR by lia; simpl; lra).
  set (F := fun z k => mix_weight (M self) (W_g self h) k *
                       logistic_cdf z (center (W_g self h) k)
                                    (scale (M self) (W_g self h) k)).
  assert (Heq : sum_upto (M self) (fun k =>
                  mix_weight (M self) (W_g self h) k *
                  (logistic_cdf (INR (size1 mem) - 0.5) (center (W_g self h) k)
                     (scale (M self) (W_g self h) k) -
                   logistic_cdf (- 0.5) (center (W_g self h) k)
                     (scale (M self) (W_g self h) k))) =
                sum_upto (M self) (F (INR (size1 mem) - 0.5)) -
                sum_upto (M self) (F (- 0.5))).
  { rewrite <- sum_upto_minus. unfold sum_upto, F. apply Rsum_ext.
    intros k _. lra. }
  rewrite Heq. unfold F. lra.
Qed.

(** X4 at the one-component engine, two samples and two memory slots. *)
Lemma attention_mass_conservation_witness :
  exists self' context weights termination,
    attention demo_attention demo_hidden (MemTensor demo_memory) =
      inr (self', (context, weights, termination)) /\
    forall b h,
      nth_error demo_hidden b = Some h ->
      exists w t,
        nth_error weights b = Some [w] /\ nth_error termination b = Some t /\
        Rsum w + nth 1 t 0 + left_mass 1 (W_g demo_attention h) = 1.
Proof.
  exact (attention_mass_conservation demo_attention demo_hidden demo_memory
           (le_S 1 1 (le_n 1)) eq_refl demo_projects).
Defined.

(** *** The gather at the end of [Attention.forward] *)




Section Gather.

Variable self : Attention.
Variables input mem : Tensor3.
Hypothesis Hin : length (data input) = size0 input.
Hypothesis Hmem : length (data mem) = size0 mem.
Hypothesis HB : size0 input = size0 mem.
Hypothesis HD : size2 input <> 1%nat.
Hypothesis HT : (1 <= size1 input)%nat.

(** Up to the gather, [forward] runs; what it returns is decided there. *)
Lemma forward_up_to_gather (input_lengths : list Z) :
  exists s hidden,
    forward_loop self input (MemTensor mem) = inr s /\
    length hidden = size1 input /\
    Forall (fun hs => length hs = size0 mem) hidden /\
    length (l_h s) = size0 mem /\
    forward self input (MemTensor mem) input_lengths =
    (termination <-
       gather_dim1 (step_termination self (size1 mem) (l_h s))
                   (map (fun n => (n - 1)%Z) input_lengths) ;;
     ret (l_self s,
          (Ctx3 (step_context self mem (l_h s)),
           alignment_of self (size1 mem) (size0 mem) hidden,
           termination))).
Proof.
  destruct (forward_loop_ok self input mem Hin Hmem HB HD)
    as (s & hidden & Hloop & Hlen & Hinv).
  exists s, hidden.
  destruct Hinv as (Hlay & Hcum & Hh & Hc & Hall & Hw & Hcs & Hlast).
  assert (Hne : hidden <> []) by (intros ->; simpl in Hlen; lia).
  destruct (exists_last Hne) as (front & hs & ->).
  rewrite rev_app_distr in Hlast. simpl in Hlast.
  destruct Hlast as (Hhs & Hctx & Hterm).
  split; [exact Hloop |]. split; [exact Hlen |]. split; [exact Hall |].
  split; [exact Hh |].
  unfold forward. rewrite Hloop. cbv beta iota delta [bind ret].
  rewrite Hcs, Hw, Hterm, Hctx, Hhs.
  rewrite (cat_dim1_steps (size0 mem)).
  2:{ destruct front; discriminate. }
  2:{ apply Forall_forall. intros t Ht. in_map Ht h0 Hh0.
      rewrite Forall_forall in Hall.
      apply length_step_context; [exact Hmem | now apply Hall]. }
  rewrite (cat_dim1_steps (size0 mem)).
  2:{ destruct front; discriminate. }
  2:{ apply Forall_forall. intros t Ht. in_map Ht h0 Hh0.
      rewrite Forall_forall in Hall.
      unfold step_weights. rewrite length_map. now apply Hall. }
  rewrite cat_step_weights by exact Hall. reflexivity.
Qed.




(** X7. The alignment map of a pass that returns has one row of weights per
    sample and output step, each over the memory positions, with every
    weight in [0, 1] and every row summing to at most 1. *)
Theorem forward_alignment_map (input_lengths : list Z) context alignment
  termination self' :
  projects_3M self ->
  forward self input (MemTensor mem) input_lengths =
    inr (self', (context, alignment, termination)) ->
  length alignment = size0 input /\
  Forall (fun ab : list vec =>
            length ab = size1 input /\
            Forall (fun w =>
                      length w = size1 mem /\
                      Forall (fun x => 0 <= x <= 1) w /\ Rsum w <= 1) ab)
         alignment.
Proof.
  intros Hproj Hfw.
  destruct (forward_up_to_gather input_lengths)
    as (s & hidden & _ & Hlen & Hall & Hh & Heq).
  rewrite Heq in Hfw. apply bind_ok in Hfw.
  destruct Hfw as (t & _ & Hret). injection Hret as _ _ <- _.
  unfold alignment_of. split; [autorewrite with shapes; now rewrite HB |].
  apply Forall_forall. intros ab Hab. in_map Hab b Hb.
  split; [now autorewrite with shapes |].
  apply Forall_forall. intros w Hw. in_map Hw hs Hhs.
  split; [apply length_row_weights |].
  destruct (row_weights_bounded self (W_g self (nth b hs [])) (size1 mem)
              (Hproj _)) as (H1 & H2 & _).
  now split.
Qed.

End Gather.

Lemma demo_query1_rows : length (data demo_query1) = size0 demo_query1.
Proof. reflexivity. Defined.

Lemma demo_memory_rows : length (data demo_memory) = size0 demo_memory.
Proof. reflexivity. Defined.

Lemma demo_width : size2 demo_query1 <> 1%nat.
Proof. discriminate. Defined.


(** X7 at a query of one step, two samples and two memory slots. *)
Lemma forward_alignment_map_witness :
  exists self' context alignment termination,
    forward demo_attention demo_query1 (MemTensor demo_memory) demo_lengths =
      inr (self', (context, alignment, termination)) /\
    length alignment = 2%nat /\
    Forall (fun ab : list vec =>
              length ab = 1%nat /\
              Forall (fun w =>
                        length w = 2%nat /\
                        Forall (fun x => 0 <= x <= 1) w /\ Rsum w <= 1) ab)
           alignment.
Proof.
  destruct (forward_ok demo_attention demo_query1 demo_memory
              demo_query1_rows demo_memory_rows eq_refl demo_width
              demo_lengths (le_n 1) (le_n 2) demo_lengths_ok)
    as (s & hidden & _ & _ & _ & _ & _ & _ & _ & Hfw).
  eexists _, _, _, _. split; [exact Hfw |].
  exact (forward_alignment_map demo_attention demo_query1 demo_memory
           demo_query1_rows demo_memory_rows eq_refl demo_width
           (le_n 1) demo_lengths _ _ _ _ demo_projects Hfw).
Defined.

End EngineLimits.

(* ------------------------------------------------------------------ *)
(** ** The sequence model: what [TTS.forward] reads and returns *)

Module TeacherForcing.

Import Tts Facts Rows Frames AttentionStep AttentionForward Examples Fixtures.
Import Engine.
Import SequenceModel.
Local Open Scope R_scope.

(** *** The shifted inputs *)

Lemma nth_error_removelast_cons {A : Type} (d a : A) (r : list A) (i : nat) :
  (i < length r)%nat ->
  nth_error (removelast (a :: r)) i =
  Some (match i with O => a | S j => nth j r d end).
Proof.
  revert a i. induction r as [| c r IH]; intros a i Hi; [simpl in Hi; lia |].
  change (removelast (a :: c :: r)) with (a :: removelast (c :: r)).
  destruct i as [| j]; [reflexivity |].
  change (nth_error (a :: removelast (c :: r)) (S j))
    with (nth_error (removelast (c :: r)) j).
  rewrite IH by (simpl in Hi; lia). destruct j; reflexivity.
Qed.

Lemma length_removelast_cons {A : Type} (a : A) (r : list A) :
  length (removelast (a :: r)) = length r.
Proof.
  revert a. induction r as [| c r IH]; intros a; [reflexivity |].
  change (removelast (a :: c :: r)) with (a :: removelast (c :: r)).
  change (length (a :: removelast (c :: r)))
    with (S (length (removelast (c :: r)))).
  now rewrite IH.
Qed.

Lemma nth_shift_right (r : vec) (i : nat) :
  (i < length r)%nat ->
  nth i (shift_right r) 0 = match i with O => 0 | S j => nth j r 0 end.
Proof.
  intros Hi. apply nth_error_nth. unfold shift_right.
  now apply nth_error_removelast_cons.
Qed.

Lemma length_shift_right (r : vec) : length (shift_right r) = length r.
Proof. apply length_removelast_cons. Qed.

Lemma wf3_sample (x : Tensor3) b m :
  wf3 x -> nth_error (data x) b = Some m ->
  length m = size1 x /\ Forall (fun v : vec => length v = size2 x) m.
Proof.
  intros [_ Hall] Hb. rewrite Forall_forall in Hall.
  apply Hall. eapply nth_error_In. exact Hb.
Qed.

Lemma nth_error_zeros (n i : nat) :
  (i < n)%nat -> nth_error (zeros n) i = Some 0.
Proof.
  intros Hi. unfold zeros.
  rewrite (nth_error_nth' _ 0) by now rewrite repeat_length.
  now rewrite nth_repeat.
Qed.

(** The three inputs of sample [b], entry by entry. *)
Lemma delayed_views (self : TTS) (x : Tensor3) (b : nat)
  (m : mat) :
  wf3 x -> nth_error (data x) b = Some m ->
  (forall f i, (f < size1 x)%nat -> (i < size2 x)%nat ->
     cell (lift_scalar (W_t_0 self) (pad_time (data x))) b f i =
     Some (W_t_0 self [match i with
                       | O => 0
                       | S j => nth j (nth f m []) 0
                       end])) /\
  (forall f i, (f < size1 x)%nat -> (i < size2 x)%nat ->
     cell (lift_scalar (W_f_0 self) (pad_freq (size2 x) (data x))) b f i =
     Some (W_f_0 self [match f with
                       | O => 0
                       | S g => nth i (nth g m []) 0
                       end])) /\
  (forall i, (i < size2 x)%nat ->
     nth_error (nth b (data (context_query self x)) []) i =
     Some (W_c_0 self (match i with
                       | O => map (fun _ => 0) m
                       | S j => map (fun row => nth j row 0) m
                       end))).
Proof.
  intros Hwf Hb. destruct (wf3_sample x b m Hwf Hb) as [HM HT].
  rewrite Forall_forall in HT.
  split; [| split].
  - intros f i Hf Hi. unfold cell, lift_scalar, map3, pad_time.
    rewrite !nth_error_map, Hb. simpl.
    rewrite !nth_error_map.
    rewrite (nth_error_nth' m []) by lia. simpl.
    assert (Hrow : length (nth f m []) = size2 x)
      by (apply HT, nth_In; lia).
    rewrite nth_error_map. unfold shift_right.
    rewrite (nth_error_removelast_cons 0) by lia. reflexivity.
  - intros f i Hf Hi. unfold cell, lift_scalar, map3, pad_freq.
    rewrite !nth_error_map, Hb. cbn [option_map].
    rewrite nth_error_map.
    rewrite (nth_error_removelast_cons []) by lia. cbn [option_map].
    rewrite nth_error_map. destruct f as [| g].
    + now rewrite nth_error_zeros.
    + assert (Hrow : length (nth g m []) = size2 x)
        by (apply HT, nth_In; lia).
      rewrite (nth_error_nth' _ 0) by lia. reflexivity.
  - intros i Hi. unfold context_query, pad_time. simpl data.
    erewrite (nth_error_nth _ _ []);
      [| rewrite !nth_error_map, Hb; reflexivity].
    unfold transpose. rewrite !nth_error_map.
    rewrite (nth_error_nth' _ 0%nat) by now rewrite length_seq.
    rewrite seq_nth by exact Hi. simpl. do 2 f_equal.
    rewrite map_map.
    destruct i as [| j]; apply map_ext_in; intros row Hrow;
      rewrite nth_shift_right by (rewrite (HT row Hrow); lia); reflexivity.
Qed.

(** X8. What [TTS.forward] feeds its layers and its attention is delayed
    by one step. For a well-shaped [x], the call is the attention pass on
    a query, then the layer stack on two views [h_t] and [h_f] and the
    context, then the mixture parameters of the projected frequency view,
    where: [h_t] at sample [b], bin [f], frame [i] is [W_t_0] of
    [x[b, f, i-1]] (of 0 at frame 0); [h_f] there is [W_f_0] of
    [x[b, f-1, i]] (of 0 at bin 0); and row [i] of the query of sample [b]
    is [W_c_0] of the whole frame [i-1] (of the zero frame at [i = 0]). *)
Theorem TTS_forward_inputs_delayed (self : TTS) (x : Tensor3)
  (text : list (list Z)) (input_lengths output_lengths : list Z) :
  wf3 x ->
  exists (h_t h_f : tensor4) (query : Tensor3),
    (forall b f i,
       (b < size0 x)%nat -> (f < size1 x)%nat -> (i < size2 x)%nat ->
       cell h_t b f i =
       Some (W_t_0 self [match i with
                         | O => 0
                         | S j => entry x b f j
                         end])) /\
    (forall b f i,
       (b < size0 x)%nat -> (f < size1 x)%nat -> (i < size2 x)%nat ->
       cell h_f b f i =
       Some (W_f_0 self [match f with
                         | O => 0
                         | S g => entry x b g i
                         end])) /\
    size0 query = size0 x /\ size1 query = size2 x /\
    (forall b i,
       (b < size0 x)%nat -> (i < size2 x)%nat ->
       nth_error (nth b (data query) []) i =
       Some (W_c_0 self
               (map (fun f => match i with
                              | O => 0
                              | S j => entry x b f j
                              end)
                    (seq 0 (size1 x))))) /\
    TTS_forward self x text input_lengths output_lengths =
    (let '(memory, _) := TextEncoder self text in
     ' (att, (h_c, alignment, termination)) <-
         forward (self_attention self) query (MemTensor memory)
                 input_lengths ;;
     ' (mu, std, pi) <-
         mixture_parameters self
           (let '(_, h_f', _) := run_layers self (h_t, h_f, h_c) in
            map3 (W_theta self) h_f')
           output_lengths ;;
     ret (set_attention self att, (mu, std, pi, alignment))).
Proof.
  intros Hwf.
  exists (lift_scalar (W_t_0 self) (pad_time (data x))),
         (lift_scalar (W_f_0 self) (pad_freq (size2 x) (data x))),
         (context_query self x).
  assert (Hsample : forall b, (b < size0 x)%nat ->
            nth_error (data x) b = Some (nth b (data x) []) /\
            length (nth b (data x) []) = size1 x).
  { intros b Hb. destruct Hwf as [HB Hall].
    assert (Hnth : nth_error (data x) b = Some (nth b (data x) []))
      by (apply nth_error_nth'; lia).
    split; [exact Hnth |].
    rewrite Forall_forall in Hall.
    apply Hall. eapply nth_error_In. exact Hnth. }
  split; [| split; [| split; [reflexivity | split; [reflexivity | split]]]].
  - intros b f i Hb Hf Hi. destruct (Hsample b Hb) as [Hnth _].
    destruct (delayed_views self x b _ Hwf Hnth) as (Ht & _ & _).
    now apply Ht.
  - intros b f i Hb Hf Hi. destruct (Hsample b Hb) as [Hnth _].
    destruct (delayed_views self x b _ Hwf Hnth) as (_ & Hfr & _).
    now apply Hfr.
  - intros b i Hb Hi. destruct (Hsample b Hb) as [Hnth HM].
    destruct (delayed_views self x b _ Hwf Hnth) as (_ & _ & Hq).
    rewrite (Hq i Hi). do 2 f_equal.
    destruct i as [| j]; rewrite (map_by_position []), HM; reflexivity.
  - unfold TTS_forward, theta_hat_of. reflexivity.
Qed.

(** X8 at sample 1, bin 0, frame 1 of [demo_x]. *)
Lemma TTS_forward_inputs_delayed_witness :
  exists (h_t h_f : tensor4) (query : Tensor3),
    cell h_t 1 0 1 = Some (W_t_0 demo_tts [3]) /\
    cell h_f 1 0 1 = Some (W_f_0 demo_tts [0]) /\
    nth_error (nth 1 (data query) []) 1 = Some (W_c_0 demo_tts [3]) /\
    TTS_forward demo_tts demo_x demo_text demo_lengths demo_output_lengths =
    (let '(memory, _) := TextEncoder demo_tts demo_text in
     ' (att, (h_c, alignment, termination)) <-
         forward (self_attention demo_tts) query (MemTensor memory)
                 demo_lengths ;;
     ' (mu, std, pi) <-
         mixture_parameters demo_tts
           (let '(_, h_f', _) := run_layers demo_tts (h_t, h_f, h_c) in
            map3 (W_theta demo_tts) h_f')
           demo_output_lengths ;;
     ret (set_attention demo_tts att, (mu, std, pi, alignment))).
Proof.
  destruct (TTS_forward_inputs_delayed demo_tts demo_x demo_text
              demo_lengths demo_output_lengths)
    as (h_t & h_f & query & Ht & Hf & _ & _ & Hq & Hrun).
  - unfold wf3, demo_x; simpl. repeat constructor.
  - exists h_t, h_f, query.
    split; [exact (Ht 1%nat 0%nat 1%nat (le_n 2) (le_n 1) (le_n 2)) |].
    split; [exact (Hf 1%nat 0%nat 1%nat (le_n 2) (le_n 1) (le_n 2)) |].
    split; [exact (Hq 1%nat 1%nat (le_n 2) (le_n 2)) | exact Hrun].
Defined.

Lemma tensor_ext (B M T : nat) (t t' : list mat) :
  wf3 (mkTensor3 B M T t) -> wf3 (mkTensor3 B M T t') ->
  (forall b m i, (b < B)%nat -> (m < M)%nat -> (i < T)%nat ->
     nth i (nth m (nth b t []) []) 0 = nth i (nth m (nth b t' []) []) 0) ->
  t = t'.
Proof.
  intros [HB Hall] [HB' Hall'] Heq. simpl in *.
  rewrite Forall_forall in Hall, Hall'.
  apply (nth_ext _ _ [] []); [congruence |].
  intros b Hb.
  destruct (Hall (nth b t [])) as [HM HT]; [apply nth_In; lia |].
  destruct (Hall' (nth b t' [])) as [HM' HT']; [apply nth_In; lia |].
  rewrite Forall_forall in HT, HT'.
  apply (nth_ext _ _ [] []); [congruence |].
  intros m Hm.
  assert (H1 : length (nth m (nth b t []) []) = T)
    by (apply HT, nth_In; lia).
  assert (H2 : length (nth m (nth b t' []) []) = T)
    by (apply HT', nth_In; lia).
  apply (nth_ext _ _ 0 0); [congruence |].
  intros i Hi. apply Heq; lia.
Qed.

Lemma wf3_pad_time (x : Tensor3) :
  wf3 x -> wf3 (mkTensor3 (size0 x) (size1 x) (size2 x) (pad_time (data x))).
Proof.
  intros [HB Hall]. unfold wf3, pad_time. cbn [size0 size1 size2 data].
  split; [now rewrite length_map |].
  apply Forall_map. eapply Forall_impl; [| exact Hall].
  intros m [HM HT]. split; [now rewrite length_map |].
  apply Forall_map. eapply Forall_impl; [| exact HT].
  intros v Hv. now rewrite length_shift_right.
Qed.

Lemma wf3_pad_freq (x : Tensor3) :
  wf3 x ->
  wf3 (mkTensor3 (size0 x) (size1 x) (size2 x)
                 (pad_freq (size2 x) (data x))).
Proof.
  intros [HB Hall]. unfold wf3, pad_freq. cbn [size0 size1 size2 data].
  split; [now rewrite length_map |].
  apply Forall_map. eapply Forall_impl; [| exact Hall].
  intros m [HM HT]. split; [now rewrite length_removelast_cons |].
  apply Forall_forall. intros v Hv.
  apply In_nth_error in Hv. destruct Hv as [k Hk].
  assert (Hlt : (k < length m)%nat).
  { rewrite <- (length_removelast_cons (zeros (size2 x)) m).
    apply nth_error_Some. congruence. }
  rewrite (nth_error_removelast_cons []) in Hk by exact Hlt.
  injection Hk as <-. destruct k as [| g].
  - apply length_zeros.
  - rewrite Forall_forall in HT. apply HT, nth_In. lia.
Qed.

Lemma nth_map_default {A B : Type} (f : A -> B) (l : list A) (n : nat)
  (dA : A) (dB : B) :
  f dA = dB -> nth n (map f l) dB = f (nth n l dA).
Proof. intros <-. apply map_nth. Qed.

Lemma entry_pad_time (x : Tensor3) b m i :
  wf3 x -> (b < size0 x)%nat -> (m < size1 x)%nat -> (i < size2 x)%nat ->
  nth i (nth m (nth b (pad_time (data x)) []) []) 0 =
  match i with O => 0 | S j => entry x b m j end.
Proof.
  intros Hwf Hb Hm Hi. pose proof Hwf as [HB Hall].
  assert (Hbm : nth_error (data x) b = Some (nth b (data x) []))
    by (apply nth_error_nth'; lia).
  destruct (wf3_sample x b _ Hwf Hbm) as [HM HT].
  rewrite Forall_forall in HT.
  unfold pad_time, entry.
  rewrite (nth_map_default (map shift_right) _ _ [] []) by reflexivity.
  rewrite (nth_map_default shift_right _ _ [] []) by reflexivity.
  apply nth_shift_right. rewrite (HT (nth m (nth b (data x) []) [])); [lia |].
  apply nth_In. lia.
Qed.

Lemma entry_pad_freq (x : Tensor3) b m i :
  wf3 x -> (b < size0 x)%nat -> (m < size1 x)%nat -> (i < size2 x)%nat ->
  nth i (nth m (nth b (pad_freq (size2 x) (data x)) []) []) 0 =
  match m with O => 0 | S g => entry x b g i end.
Proof.
  intros Hwf Hb Hm Hi. pose proof Hwf as [HB Hall].
  assert (Hbm : nth_error (data x) b = Some (nth b (data x) []))
    by (apply nth_error_nth'; lia).
  destruct (wf3_sample x b _ Hwf Hbm) as [HM HT].
  unfold pad_freq, entry.
  rewrite (nth_map_default
             (fun m0 : mat => removelast (zeros (size2 x) :: m0)) _ _ [] [])
    by reflexivity.
  assert (Hlt : (m < length (nth b (data x) []))%nat) by lia.
  rewrite (nth_error_nth _ _ []
             (nth_error_removelast_cons [] (zeros (size2 x)) _ m Hlt)).
  destruct m as [| g]; [| reflexivity].
  unfold zeros. apply nth_repeat.
Qed.

(** X9. The last entry of the autoregressive order is read nowhere: two
    batches of spectrograms of the same shape that agree everywhere except
    at the last frame of the last frequency bin give the same result of
    [TTS.forward], value or exception, for every text, every lengths and
    every layer stack. *)
Theorem TTS_forward_ignores_last_entry (self : TTS) (x x' : Tensor3)
  (text : list (list Z)) (input_lengths output_lengths : list Z) :
  wf3 x -> wf3 x' ->
  size0 x = size0 x' -> size1 x = size1 x' -> size2 x = size2 x' ->
  (forall b m i,
     (b < size0 x)%nat -> (m < size1 x)%nat -> (i < size2 x)%nat ->
     (S m < size1 x)%nat \/ (S i < size2 x)%nat ->
     entry x b m i = entry x' b m i) ->
  TTS_forward self x text input_lengths output_lengths =
  TTS_forward self x' text input_lengths output_lengths.
Proof.
  intros Hwf Hwf' H0 H1 H2 Hagree.
  assert (Htime : pad_time (data x) = pad_time (data x')).
  { apply (tensor_ext (size0 x) (size1 x) (size2 x)).
    - now apply wf3_pad_time.
    - rewrite H0, H1, H2. now apply wf3_pad_time.
    - intros b m i Hb Hm Hi.
      rewrite entry_pad_time by assumption.
      rewrite entry_pad_time by (try assumption; lia).
      destruct i as [| j]; [reflexivity |]. apply Hagree; lia. }
  assert (Hfreq : pad_freq (size2 x) (data x) = pad_freq (size2 x') (data x')).
  { apply (tensor_ext (size0 x) (size1 x) (size2 x)).
    - now apply wf3_pad_freq.
    - rewrite H0, H1, H2. now apply wf3_pad_freq.
    - intros b m i Hb Hm Hi.
      rewrite entry_pad_freq by assumption.
      rewrite entry_pad_freq by (try assumption; lia).
      destruct m as [| g]; [reflexivity |]. apply Hagree; lia. }
  unfold TTS_forward, context_query, theta_hat_of.
  now rewrite Htime, Hfreq, H0, H2.
Qed.

(** X9 at [demo_x] and a batch that differs from it in the last frame of
    its only bin. *)
Lemma TTS_forward_ignores_last_entry_witness :
  TTS_forward demo_tts demo_x demo_text demo_lengths demo_output_lengths =
  TTS_forward demo_tts demo_x_other demo_text demo_lengths
              demo_output_lengths.
Proof.
  apply TTS_forward_ignores_last_entry; try reflexivity.
  - unfold wf3, demo_x; simpl. repeat constructor.
  - unfold wf3, demo_x_other; simpl. repeat constructor.
  - intros [| [| b]] [| m] [| i] Hb Hm Hi Hor; simpl in *;
      try lia; reflexivity.
Defined.

(** *** The mixture returned *)

Lemma Rsum_exp_pos (v : vec) : v <> [] -> 0 < Rsum (map exp v).
Proof.
  intros Hne. destruct v as [| a v]; [congruence |]. simpl.
  assert (0 <= Rsum (map exp v)).
  { apply Rsum_nonneg, Forall_map, Forall_forall. intros y _.
    left. apply exp_pos. }
  pose proof (exp_pos a). lra.
Qed.

Lemma softmax_distribution (v : vec) :
  v <> [] ->
  length (softmax v) = length v /\
  Forall (fun p => 0 < p) (softmax v) /\ Rsum (softmax v) = 1.
Proof.
  intros Hne. pose proof (Rsum_exp_pos v Hne) as Hz. unfold softmax.
  split; [apply length_map |]. split.
  - apply Forall_map, Forall_forall. intros y _.
    apply Rdiv_lt_0_compat; [apply exp_pos | exact Hz].
  - rewrite (Rsum_ext _ (fun y => / Rsum (map exp v) * exp y))
      by (intros; unfold Rdiv; apply Rmult_comm).
    rewrite Rsum_scal. field. lra.
Qed.

(** X10. Whatever the layers compute, what [TTS.forward] returns
    parameterises a mixture. With [K >= 1] components and a [W_theta] of
    width [3 K], at every position of [theta_hat]: [mu], [std] and [pi]
    hold [K] numbers each, every scale is strictly positive (masked or
    not), and the mixture weights are strictly positive and sum to 1. *)
Theorem TTS_forward_mixture_valid (self : TTS) (x : Tensor3)
  (text : list (list Z)) (input_lengths output_lengths : list Z)
  (att : Attention) (h_c : context_val) (alignment : list mat)
  (termination : list vec) :
  forward (self_attention self) (context_query self x)
          (MemTensor (fst (TextEncoder self text))) input_lengths =
    inr (att, (h_c, alignment, termination)) ->
  length output_lengths = length (theta_hat_of self x h_c) ->
  rectangular (theta_hat_of self x h_c) (size_m2 (theta_hat_of self x h_c)) ->
  (1 <= K self)%nat ->
  (forall h, length (W_theta self h) = (3 * K self)%nat) ->
  exists mu std pi,
    TTS_forward self x text input_lengths output_lengths =
      inr (set_attention self att, (mu, std, pi, alignment)) /\
    forall b m i v,
      cell (theta_hat_of self x h_c) b m i = Some v ->
      exists vm vs vp,
        cell mu b m i = Some vm /\ cell std b m i = Some vs /\
        cell pi b m i = Some vp /\
        length vm = K self /\ length vs = K self /\ length vp = K self /\
        Forall (fun s => 0 < s) vs /\
        Forall (fun p => 0 < p) vp /\ Rsum vp = 1.
Proof.
  intros Hfw Hlen Hrect HK Hproj.
  destruct (mixture_parameters_ok self (theta_hat_of self x h_c)
              output_lengths Hlen Hrect) as (mu & std & Hmp & Hcells).
  exists mu, std. eexists.
  unfold TTS_forward. destruct (TextEncoder self text) as [memory hc].
  simpl in Hfw. rewrite Hfw. cbv beta iota delta [bind ret].
  rewrite Hmp. split; [reflexivity |].
  intros b m i v Hv.
  assert (Hvlen : length v = (3 * K self)%nat).
  { unfold theta_hat_of in Hv.
    destruct (run_layers self _) as [[h_t h_f] h_c'].
    rewrite cell_map3 in Hv.
    destruct (cell h_f b m i) as [h |]; [| discriminate].
    injection Hv as <-. apply Hproj. }
  assert (Hb : (b < length output_lengths)%nat).
  { rewrite Hlen. apply nth_error_Some. unfold cell in Hv.
    destruct (nth_error (theta_hat_of self x h_c) b); congruence. }
  destruct (nth_error output_lengths b) as [n |] eqn:Hn;
    [| apply nth_error_None in Hn; lia].
  destruct (Hcells b m i n v Hn Hv) as [Hmu Hstd].
  do 3 eexists. split; [exact Hmu |]. split; [exact Hstd |].
  rewrite cell_map3, Hv. split; [reflexivity |].
  assert (Hskip : skipn (2 * K self) v <> []).
  { intros Hnil. apply (f_equal (@length R)) in Hnil.
    rewrite length_skipn in Hnil. simpl in Hnil. lia. }
  destruct (softmax_distribution _ Hskip) as (Hl & Hpos & Hsum).
  assert (Hs1 : length (slice 0 (K self) v) = K self)
    by (rewrite length_slice; lia).
  assert (Hs2 : length (slice (K self) (2 * K self) v) = K self)
    by (rewrite length_slice; lia).
  split; [destruct (n <? Z.of_nat (S i))%Z; now rewrite ?length_map |].
  split; [destruct (n <? Z.of_nat (S i))%Z; now rewrite ?length_map |].
  split; [rewrite Hl, length_skipn; lia |].
  split; [| now split].
  assert (Hsq : 0 < 1 / sqrt (2 * PI)).
  { apply Rdiv_lt_0_compat; [lra |]. apply sqrt_lt_R0.
    pose proof PI_RGT_0. lra. }
  destruct (n <? Z.of_nat (S i))%Z; apply Forall_map, Forall_forall;
    intros y _; [exact Hsq | apply exp_pos].
Qed.

(** X10 at the masked frame of the first sample of [demo_x]. *)
Lemma TTS_forward_mixture_valid_witness :
  exists mu std pi alignment att,
    TTS_forward demo_tts demo_x demo_text demo_lengths demo_output_lengths =
      inr (set_attention demo_tts att, (mu, std, pi, alignment)) /\
    exists vs vp,
      cell std 0 0 1 = Some vs /\ cell pi 0 0 1 = Some vp /\
      Forall (fun s => 0 < s) vs /\ Forall (fun p => 0 < p) vp /\
      Rsum vp = 1.
Proof.
  destruct (forward_ok demo_attention (context_query demo_tts demo_x)
              demo_memory eq_refl eq_refl eq_refl
              (fun H => O_S 0 (eq_sym (eq_add_S _ _ H)))
              demo_lengths (le_S 1 1 (le_n 1)) (le_n 2) demo_lengths_ok)
    as (s & hidden & _ & _ & _ & _ & _ & _ & _ & Hfw).
  destruct (TTS_forward_mixture_valid demo_tts demo_x demo_text demo_lengths
              demo_output_lengths _ _ _ _ Hfw eq_refl
              (Forall_cons _ (Forall_cons _ eq_refl (Forall_nil _))
                 (Forall_cons _ (Forall_cons _ eq_refl (Forall_nil _))
                    (Forall_nil _)))
              (le_n 1) (fun _ => eq_refl))
    as (mu & std & pi & Hrun & Hcells).
  exists mu, std, pi. do 2 eexists. split; [exact Hrun |].
  destruct (Hcells 0%nat 0%nat 1%nat [1; 2; 3] eq_refl)
    as (vm & vs & vp & _ & Hs & Hp & _ & _ & _ & Hpos & Hppos & Hsum).
  exists vs, vp. repeat split; assumption.
Defined.

Lemma expand_batch_mismatch (mask : list (list bool)) (B : nat) :
  length mask <> B -> length mask <> 1%nat ->
  expand_batch mask B = inl RuntimeError.
Proof.
  intros H1 H2. unfold expand_batch.
  apply Nat.eqb_neq in H1. rewrite H1.
  destruct mask as [| m [| m' rest]]; try reflexivity.
  simpl in H2. congruence.
Qed.

(** X11. The output lengths must come one per sample: when the attention
    pass returned and the batch holds more than one sample (or none), a
    vector of output lengths whose size is neither the batch size nor 1
    makes the first [masked_fill] raise [RuntimeError], and nothing is
    returned. *)
Theorem TTS_forward_output_lengths_mismatch (self : TTS) (x : Tensor3)
  (text : list (list Z)) (input_lengths output_lengths : list Z)
  (att : Attention) (h_c : context_val) (alignment : list mat)
  (termination : list vec) :
  forward (self_attention self) (context_query self x)
          (MemTensor (fst (TextEncoder self text))) input_lengths =
    inr (att, (h_c, alignment, termination)) ->
  length (theta_hat_of self x h_c) <> 1%nat ->
  length output_lengths <> length (theta_hat_of self x h_c) ->
  length output_lengths <> 1%nat ->
  TTS_forward self x text input_lengths output_lengths = inl RuntimeError.
Proof.
  intros Hfw _ Hlen H1.
  unfold TTS_forward. destruct (TextEncoder self text) as [memory hc].
  simpl in Hfw. rewrite Hfw. cbv beta iota delta [bind ret].
  unfold mixture_parameters, masked_fill.
  rewrite expand_batch_mismatch; [reflexivity | |].
  - rewrite length_length_mask. unfold map3. now rewrite length_map.
  - now rewrite length_length_mask.
Qed.

(** X11 at three output lengths for the two samples of [demo_x]. *)
Lemma TTS_forward_output_lengths_mismatch_witness :
  TTS_forward demo_tts demo_x demo_text demo_lengths [1%Z; 2%Z; 2%Z] =
  inl RuntimeError.
Proof.
  destruct (forward_ok demo_attention (context_query demo_tts demo_x)
              demo_memory eq_refl eq_refl eq_refl
              (fun H => O_S 0 (eq_sym (eq_add_S _ _ H)))
              demo_lengths (le_S 1 1 (le_n 1)) (le_n 2) demo_lengths_ok)
    as (s & hidden & _ & _ & _ & _ & _ & _ & _ & Hfw).
  apply (TTS_forward_output_lengths_mismatch demo_tts demo_x demo_text
           demo_lengths [1%Z; 2%Z; 2%Z] _ _ _ _ Hfw); simpl; lia.
Defined.

End TeacherForcing.

(* ------------------------------------------------------------------ *)
(** ** The datasets: what is enumerated, and what an item request does *)

Module Enumeration.

Import Facts Raises Wavloader Batches Items Transcript Examples Fixtures.
Import Assembler SampleSource.

(** *** The two parts of a dataset *)

Lemma demo_shuffle_reverses : shuffle_permutes demo_blizzard_env.
Proof. intros A l. apply Permutation_rev. Defined.

Lemma NoDup_app_disjoint {A : Type} (l1 l2 : list A) :
  NoDup (l1 ++ l2) -> forall a, In a l1 -> ~ In a l2.
Proof.
  induction l1 as [| x l1 IH]; intros Hnd a Hin; [contradiction |].
  simpl in Hnd. inversion Hnd as [| ? ? Hx Hrest]; subst.
  destruct Hin as [<- | Hin].
  - intros H2. apply Hx. apply in_or_app. now right.
  - now apply IH.
Qed.

Lemma split_parts {A : Type} env (l : list A) :
  split_part env true l ++ split_part env false l = l.
Proof. unfold split_part. apply firstn_skipn. Qed.

(** X12. The training and the validation part of [AudioOnlyDataset]
    partition the files found: together they are a rearrangement of the
    result of the glob, their [__len__] add up to the number of files, and
    when the glob lists no file twice no file is in both parts. (The two
    constructor calls seed the shuffle alike; [random.shuffle] is assumed
    to permute.) *)
Theorem AudioOnlyDataset_split_partition (env : Env) (hp : HParams) :
  shuffle_permutes env ->
  let files :=
    glob env (path_join env [data_path hp; "**"%string; data_extension hp]) in
  let training := AudioOnlyDataset_init env hp true in
  let validation := AudioOnlyDataset_init env hp false in
  Permutation (training ++ validation) files /\
  (AudioOnlyDataset_len training + AudioOnlyDataset_len validation =
   length files)%nat /\
  (NoDup files -> forall f, In f training -> ~ In f validation).
Proof.
  intros Hperm files training validation.
  assert (Happ : training ++ validation = shuffle env string files)
    by apply split_parts.
  assert (HP : Permutation (training ++ validation) files)
    by (rewrite Happ; apply Permutation_sym, Hperm).
  split; [exact HP |]. split.
  - unfold AudioOnlyDataset_len. rewrite <- length_app.
    now apply Permutation_length.
  - intros Hnd. apply NoDup_app_disjoint.
    apply (Permutation_NoDup (Permutation_sym HP) Hnd).
Qed.

(** X12 at a directory of two files. *)
Lemma AudioOnlyDataset_split_partition_witness :
  Permutation (AudioOnlyDataset_init demo_blizzard_env demo_blizzard_hp true ++
               AudioOnlyDataset_init demo_blizzard_env demo_blizzard_hp false)
              [ "a.wav"%string; "b.wav"%string ] /\
  (AudioOnlyDataset_len
     (AudioOnlyDataset_init demo_blizzard_env demo_blizzard_hp true) +
   AudioOnlyDataset_len
     (AudioOnlyDataset_init demo_blizzard_env demo_blizzard_hp false) = 2)%nat.
Proof.
  destruct (AudioOnlyDataset_split_partition demo_blizzard_env
              demo_blizzard_hp demo_shuffle_reverses)
    as (HP & Hlen & _).
  split; [exact HP | exact Hlen].
Defined.

(** *** The KSS transcript *)

Lemma kss_lines_keeps env hp lines :
  forall acc dataset,
    kss_lines env hp lines acc = inr dataset ->
    forall sample,
      In sample acc \/
      (exists line, In line lines /\ kss_source env hp line sample) ->
      In sample dataset.
Proof.
  induction lines as [| line rest IH]; intros acc dataset Hrun sample Hin.
  - simpl in Hrun. injection Hrun as <-.
    destruct Hin as [Hacc | (l & [] & _)]. exact Hacc.
  - simpl in Hrun.
    destruct (split "|"%char line)
      as [| w [| f1 [| f2 [| text [| len [| f5 [| extra more]]]]]]] eqn:Hsplit;
      try discriminate.
    destruct (float env len) as [e | d] eqn:Hfloat; [discriminate |].
    simpl in Hrun.
    destruct Hin as [Hacc | (l & [<- | Hl] & Hsrc)].
    + destruct (float_lt d (audio_duration hp));
        apply (IH _ _ Hrun); left; [apply in_or_app; now left | exact Hacc].
    + destruct Hsrc as (w' & a & b & len' & c & d' & Hs & Hpath & Hf & Hlt).
      rewrite Hsplit in Hs. injection Hs as -> _ _ Htext -> _.
      rewrite Hfloat in Hf. injection Hf as ->.
      rewrite Hlt in Hrun. apply (IH _ _ Hrun). left.
      apply in_or_app. right. left.
      destruct sample as [p t]. simpl in *. congruence.
    + destruct (float_lt d (audio_duration hp));
        apply (IH _ _ Hrun); right; exists l; auto.
Qed.

Lemma AudioTextDataset_init_KSS env hp train lines :
  data_name hp = "KSS"%string ->
  read_lines env
    (path_join env [data_path hp; "transcript.v.1.3.txt"%string]) =
    inr lines ->
  AudioTextDataset_init env hp train =
  (dataset <- kss_lines env hp lines [] ;;
   ret (split_part env train (shuffle env (string * string)%type dataset))).
Proof.
  intros Hname Hread. unfold AudioTextDataset_init.
  rewrite Hname. change (String.eqb "KSS" "KSS") with true.
  cbv iota. now rewrite Hread.
Qed.

(** X13. The KSS enumeration is exact. When the training part is built, so
    is the validation part, and a sample is in one of the two iff some
    line of the transcript yields it (its first field under [kss/], its
    fourth field as text) with a duration field strictly below the maximum:
    nothing qualifying is lost, nothing else is added. *)
Theorem AudioTextDataset_KSS_exact (env : Env) (hp : HParams)
  (lines : list string) (training : list (string * string)) :
  shuffle_permutes env ->
  data_name hp = "KSS"%string ->
  read_lines env
    (path_join env [data_path hp; "transcript.v.1.3.txt"%string]) =
    inr lines ->
  AudioTextDataset_init env hp true = inr training ->
  exists validation,
    AudioTextDataset_init env hp false = inr validation /\
    forall sample,
      In sample (training ++ validation) <->
      exists line, In line lines /\ kss_source env hp line sample.
Proof.
  intros Hperm Hname Hread Htrain.
  rewrite (AudioTextDataset_init_KSS env hp true lines Hname Hread) in Htrain.
  rewrite (AudioTextDataset_init_KSS env hp false lines Hname Hread).
  destruct (kss_lines env hp lines []) as [e | ds] eqn:Hloop;
    cbv beta iota delta [bind ret] in *; [discriminate |].
  assert (Ht : training =
               split_part env true (shuffle env (string * string)%type ds))
    by (injection Htrain as <-; reflexivity).
  rewrite Ht. eexists. split; [reflexivity |].
  intros sample. rewrite split_parts. split.
  - intros Hin.
    apply (Permutation_in _ (Permutation_sym (Hperm _ ds))) in Hin.
    destruct (kss_lines_below env hp lines [] ds Hloop sample Hin)
      as [[] | H]. exact H.
  - intros H. apply (Permutation_in _ (Hperm _ ds)).
    apply (kss_lines_keeps env hp lines [] ds Hloop). now right.
Qed.

(** X13 at the transcript of two lines, of 3.5 and 12 seconds. *)
Lemma AudioTextDataset_KSS_exact_witness :
  exists validation,
    AudioTextDataset_init demo_env demo_hp false = inr validation /\
    forall sample,
      In sample ([] ++ validation) <->
      exists line,
        In line [ "a.wav|1|2|hello|3.5|x"%string;
                  "b.wav|1|2|good bye|12.0|x"%string ] /\
        kss_source demo_env demo_hp line sample.
Proof.
  exact (AudioTextDataset_KSS_exact demo_env demo_hp _ []
           demo_shuffle_permutes eq_refl eq_refl eq_refl).
Defined.

Lemma kss_lines_returns env hp lines :
  forall acc,
    (exists dataset, kss_lines env hp lines acc = inr dataset) <->
    Forall (kss_well_formed env) lines.
Proof.
  induction lines as [| line rest IH]; intros acc.
  - simpl. split; [constructor | eauto].
  - simpl. split.
    + intros [ds Hrun].
      destruct (split "|"%char line)
        as [| w [| f1 [| f2 [| text [| len [| f5 [| extra more]]]]]]]
        eqn:Hsplit; try discriminate.
      destruct (float env len) as [e | d] eqn:Hfloat; [discriminate |].
      simpl in Hrun. constructor.
      * exists w, f1, f2, text, len, f5, d. auto.
      * destruct (float_lt d (audio_duration hp));
          eapply IH; eauto.
    + intros Hall. apply Forall_cons_iff in Hall as [Hline Hrest].
      destruct Hline as (w & f1 & f2 & text & len & f5 & d & -> & ->).
      simpl. destruct (float_lt d (audio_duration hp)); now apply IH.
Qed.

(** X14. The KSS enumeration is all or nothing. The loop over the
    transcript completes iff every line has exactly six fields between the
    bars and a fifth field that [float] parses; the constructor returns only
    in that case; and one malformed line, anywhere in the file and whatever
    the other lines hold, makes the constructor raise, for the training and
    for the validation part alike. *)
Theorem AudioTextDataset_KSS_all_or_nothing (env : Env) (hp : HParams)
  (train : bool) (lines : list string) :
  data_name hp = "KSS"%string ->
  read_lines env
    (path_join env [data_path hp; "transcript.v.1.3.txt"%string]) =
    inr lines ->
  ((exists dataset, kss_lines env hp lines [] = inr dataset) <->
   Forall (kss_well_formed env) lines) /\
  ((exists dataset, AudioTextDataset_init env hp train = inr dataset) ->
   Forall (kss_well_formed env) lines) /\
  (forall line,
     In line lines -> ~ kss_well_formed env line ->
     exists e, AudioTextDataset_init env hp train = inl e).
Proof.
  intros Hname Hread.
  assert (Hret : (exists dataset,
                    AudioTextDataset_init env hp train = inr dataset) ->
                 Forall (kss_well_formed env) lines).
  { rewrite <- (kss_lines_returns env hp lines []).
    rewrite (AudioTextDataset_init_KSS env hp _ lines Hname Hread).
    destruct (kss_lines env hp lines []) as [e | ds];
      cbv beta iota delta [bind ret].
    - intros [d H]. discriminate.
    - eauto. }
  split; [apply kss_lines_returns |]. split; [exact Hret |].
  intros line Hin Hbad.
  destruct (AudioTextDataset_init env hp train) as [e | ds] eqn:Hrun;
    [eauto |].
  exfalso. apply Hbad.
  assert (Hall : Forall (kss_well_formed env) lines) by (apply Hret; eauto).
  rewrite Forall_forall in Hall. now apply Hall.
Qed.

(** X14 at the transcript of two well-formed lines. *)
Lemma AudioTextDataset_KSS_all_or_nothing_witness :
  (exists dataset, AudioTextDataset_init demo_env demo_hp true = inr dataset) /\
  Forall (kss_well_formed demo_env)
         [ "a.wav|1|2|hello|3.5|x"%string;
           "b.wav|1|2|good bye|12.0|x"%string ].
Proof.
  destruct (AudioTextDataset_KSS_all_or_nothing demo_env demo_hp true _
              eq_refl eq_refl) as (_ & Hwf & _).
  split; [eexists; reflexivity |].
  apply Hwf. eexists. reflexivity.
Defined.

(** *** The Blizzard prompts *)

Lemma nth_error_every_third {A : Type} (k : nat) :
  forall l : list A, nth_error (every_third l) k = nth_error l (3 * k).
Proof.
  induction k as [| k IH]; intros l.
  - destruct l as [| a [| b [| c rest]]]; reflexivity.
  - replace (3 * S k)%nat with (S (S (S (3 * k)))) by lia.
    destruct l as [| a [| b [| c rest]]].
    + reflexivity.
    + simpl. now destruct k.
    + simpl. now destruct k.
    + change (every_third (a :: b :: c :: rest))
        with (a :: every_third rest).
      simpl nth_error. apply IH.
Qed.

Lemma nth_error_tl {A : Type} (l : list A) (k : nat) :
  nth_error (tl l) k = nth_error l (S k).
Proof. destruct l; [now destruct k | reflexivity]. Qed.

Lemma In_nth_error_iff {A : Type} (l : list A) (a : A) :
  In a l <-> exists k, nth_error l k = Some a.
Proof.
  split; [apply In_nth_error |]. intros [k Hk]. eapply nth_error_In; eauto.
Qed.

(** The pairs [zip(lines[::3], lines[1::3])] yields. *)
Lemma prompt_pairs (lines : list string) (filename sentence : string) :
  In (filename, sentence)
     (combine (every_third lines) (every_third (tl lines))) <->
  exists k,
    nth_error lines (3 * k) = Some filename /\
    nth_error lines (3 * k + 1) = Some sentence.
Proof.
  rewrite In_nth_error_iff. split; intros [k Hk]; exists k.
  - rewrite nth_error_combine, !nth_error_every_third, nth_error_tl in Hk.
    replace (3 * k + 1)%nat with (S (3 * k)) by lia.
    destruct (nth_error lines (3 * k)); [| discriminate].
    destruct (nth_error lines (S (3 * k))); [| discriminate].
    injection Hk as -> ->. auto.
  - destruct Hk as [Hf Hs].
    rewrite nth_error_combine, !nth_error_every_third, nth_error_tl.
    replace (S (3 * k)) with (3 * k + 1)%nat by lia.
    now rewrite Hf, Hs.
Qed.

Lemma blizzard_pairs_exact env hp pairs :
  forall acc sample,
    In sample (blizzard_pairs env hp pairs acc) <->
    In sample acc \/
    exists filename,
      In (filename, snd sample) pairs /\
      fst sample = path_join env [data_path hp; "wavn"%string;
                                  (filename ++ ".wav")%string] /\
      float_lt (get_length env (fst sample) (audio_sr hp)) (audio_duration hp)
        = true.
Proof.
  induction pairs as [| [filename sentence] rest IH]; intros acc sample.
  - simpl. split; [now left | intros [H | (f & [] & _)]; exact H].
  - simpl blizzard_pairs.
    destruct (float_lt _ (audio_duration hp)) eqn:Hlt; rewrite IH; split.
    + intros [Hacc | (f & Hf & Hp & Hl)].
      * apply in_app_or in Hacc. destruct Hacc as [Hacc | [<- | []]].
        -- now left.
        -- right. exists filename. simpl. auto.
      * right. exists f. split; [now right | auto].
    + intros [Hacc | (f & [Hf | Hf] & Hp & Hl)].
      * left. apply in_or_app. now left.
      * left. apply in_or_app. right. left.
        injection Hf as Hf1 Hf2. destruct sample; simpl in *. congruence.
      * right. exists f. auto.
    + intros [Hacc | (f & Hf & Hp & Hl)]; [now left |].
      right. exists f. split; [now right | auto].
    + intros [Hacc | (f & [Hf | Hf] & Hp & Hl)]; [now left | |].
      * injection Hf as Hf1 Hf2. rewrite Hp, <- Hf1 in Hl. congruence.
      * right. exists f. auto.
Qed.

(** X15. The Blizzard enumeration is exact. The prompt file is read in
    records of three lines: line [3k] is a file name, line [3k + 1] its
    sentence, line [3k + 2] is skipped, and a file name without a sentence
    at the end of the file is dropped. When the training part is built, so
    is the validation part, and a sample is in one of the two iff some
    record yields it and its audio file, under [wavn/] with [.wav]
    appended, is strictly shorter than the maximum. *)
Theorem AudioTextDataset_Blizzard_exact (env : Env) (hp : HParams)
  (lines : list string) (training : list (string * string)) :
  shuffle_permutes env ->
  data_name hp = "Blizzard"%string ->
  read_lines env (path_join env [data_path hp; "prompts.gui"%string]) =
    inr lines ->
  AudioTextDataset_init env hp true = inr training ->
  exists validation,
    AudioTextDataset_init env hp false = inr validation /\
    forall sample,
      In sample (training ++ validation) <->
      exists k filename,
        nth_error lines (3 * k) = Some filename /\
        nth_error lines (3 * k + 1) = Some (snd sample) /\
        fst sample = path_join env [data_path hp; "wavn"%string;
                                    (filename ++ ".wav")%string] /\
        float_lt (get_length env (fst sample) (audio_sr hp))
                 (audio_duration hp) = true.
Proof.
  intros Hperm Hname Hread Htrain.
  assert (Hinit : forall train,
            AudioTextDataset_init env hp train =
            inr (split_part env train
                   (shuffle env (string * string)%type
                      (blizzard_pairs env hp
                         (combine (every_third lines)
                                  (every_third (tl lines))) [])))).
  { intros train. unfold AudioTextDataset_init. rewrite Hname.
    change (String.eqb "Blizzard" "KSS") with false.
    change (String.eqb "Blizzard" "Blizzard") with true.
    cbv iota. now rewrite Hread. }
  assert (Ht : training =
               split_part env true
                 (shuffle env (string * string)%type
                    (blizzard_pairs env hp
                       (combine (every_third lines)
                                (every_third (tl lines))) [])))
    by (rewrite Hinit in Htrain; injection Htrain as <-; reflexivity).
  rewrite Ht. eexists. split; [apply Hinit |].
  intros sample. rewrite split_parts. split.
  - intros Hin.
    apply (Permutation_in _ (Permutation_sym (Hperm _ _))) in Hin.
    apply blizzard_pairs_exact in Hin.
    destruct Hin as [[] | (f & Hf & Hp & Hl)].
    apply prompt_pairs in Hf. destruct Hf as (k & H1 & H2).
    exists k, f. auto.
  - intros (k & f & H1 & H2 & Hp & Hl).
    apply (Permutation_in _ (Hperm _ _)).
    apply blizzard_pairs_exact. right. exists f.
    split; [apply prompt_pairs; eauto | auto].
Qed.

(** X15 at a prompt file of two records, one of them short enough. *)
Lemma AudioTextDataset_Blizzard_exact_witness :
  exists validation,
    AudioTextDataset_init demo_blizzard_env demo_blizzard_hp false =
      inr validation /\
    In ("data/wavn/f1.wav"%string, "Hello."%string) ([] ++ validation).
Proof.
  destruct (AudioTextDataset_Blizzard_exact demo_blizzard_env
              demo_blizzard_hp _ [] demo_shuffle_reverses
              eq_refl eq_refl eq_refl)
    as (va & Hva & Hiff).
  exists va. split; [exact Hva |].
  apply Hiff. exists 0%nat, "f1"%string. repeat split.
Defined.

(** *** Item requests *)

Lemma list_getitem_out_of_range {A : Type} (l : list A) (idx : Z) :
  (idx < - Z.of_nat (length l) \/ Z.of_nat (length l) <= idx)%Z ->
  list_getitem l idx = inl IndexError.
Proof.
  intros H. unfold list_getitem.
  destruct (idx <? 0)%Z eqn:Hneg.
  - apply Z.ltb_lt in Hneg.
    replace (idx + Z.of_nat (length l) <? 0)%Z with true; [reflexivity |].
    symmetry. apply Z.ltb_lt. lia.
  - apply Z.ltb_ge in Hneg.
    replace (idx <? 0)%Z with false by (symmetry; apply Z.ltb_ge; lia).
    replace (nth_error l (Z.to_nat idx)) with (@None A); [reflexivity |].
    symmetry. apply nth_error_None. lia.
Qed.

Lemma list_getitem_in_range {A : Type} (d : A) (l : list A) (idx : Z) :
  (- Z.of_nat (length l) <= idx < Z.of_nat (length l))%Z ->
  list_getitem l idx =
  inr (nth (Z.to_nat (idx mod Z.of_nat (length l))) l d).
Proof.
  intros H. unfold list_getitem.
  destruct (idx <? 0)%Z eqn:Hneg.
  - apply Z.ltb_lt in Hneg.
    replace (idx + Z.of_nat (length l) <? 0)%Z with false
      by (symmetry; apply Z.ltb_ge; lia).
    replace (idx mod Z.of_nat (length l))%Z
      with (idx + Z.of_nat (length l))%Z.
    + rewrite (nth_error_nth' l d) by lia. reflexivity.
    + apply Z.mod_unique with (q := (-1)%Z); lia.
  - apply Z.ltb_ge in Hneg.
    replace (idx <? 0)%Z with false by (symmetry; apply Z.ltb_ge; lia).
    rewrite Z.mod_small by lia.
    rewrite (nth_error_nth' l d) by lia. reflexivity.
Qed.

(** X16. An item request with an index outside [-len, len) raises
    [IndexError] in both datasets, whatever the library calls would do: the
    list is indexed before any file is read or any text converted. *)
Theorem getitem_out_of_range (ld : Loader) (hp : HParams) (tier : Z)
  (file_list : list string) (dataset : list (string * string)) (idx : Z) :
  ((idx < - Z.of_nat (AudioOnlyDataset_len file_list) \/
    Z.of_nat (AudioOnlyDataset_len file_list) <= idx)%Z ->
   AudioOnlyDataset_getitem ld hp tier file_list idx = inl IndexError) /\
  ((idx < - Z.of_nat (AudioTextDataset_len dataset) \/
    Z.of_nat (AudioTextDataset_len dataset) <= idx)%Z ->
   AudioTextDataset_getitem ld hp tier dataset idx = inl IndexError).
Proof.
  split; intros H.
  - unfold AudioOnlyDataset_getitem.
    now rewrite list_getitem_out_of_range.
  - unfold AudioTextDataset_getitem.
    now rewrite list_getitem_out_of_range.
Qed.

(** X16 at index 1 and index -2 of datasets of one item. *)
Lemma getitem_out_of_range_witness :
  AudioOnlyDataset_getitem demo_loader demo_hp 1 [ "long.wav"%string ] 1 =
    inl IndexError /\
  AudioTextDataset_getitem demo_loader demo_hp 1
    [("data/kss/a.wav"%string, "hello"%string)] (-2) = inl IndexError.
Proof.
  destruct (getitem_out_of_range demo_loader demo_hp 1 [ "long.wav"%string ]
              [("data/kss/a.wav"%string, "hello"%string)] 1) as [Ha _].
  destruct (getitem_out_of_range demo_loader demo_hp 1 [ "long.wav"%string ]
              [("data/kss/a.wav"%string, "hello"%string)] (-2)) as [_ Ht].
  split; [apply Ha | apply Ht]; simpl; lia.
Defined.

Lemma AudioTextDataset_init_name env hp train dataset :
  AudioTextDataset_init env hp train = inr dataset ->
  data_name hp = "KSS"%string \/ data_name hp = "Blizzard"%string.
Proof.
  unfold AudioTextDataset_init. intros H.
  destruct (String.eqb_spec (data_name hp) "KSS"); [now left |].
  destruct (String.eqb_spec (data_name hp) "Blizzard"); [now right |].
  discriminate.
Qed.

(** X17. On a dataset its constructor built, an item request within
    [-len, len) reads entry [idx mod len] (a negative index counts from the
    end), converts its text with [text_to_sequence] for KSS and with
    [process_blizzard] for Blizzard, and loads its audio file: the name
    [seq] is always bound at the [return], since the constructor left no
    other dataset name through, and the request fails only where a library
    call fails. *)
Theorem AudioTextDataset_getitem_in_range (env : Env) (ld : Loader)
  (hp : HParams) (train : bool) (tier : Z)
  (dataset : list (string * string)) (idx : Z) :
  AudioTextDataset_init env hp train = inr dataset ->
  (- Z.of_nat (AudioTextDataset_len dataset) <= idx
   < Z.of_nat (AudioTextDataset_len dataset))%Z ->
  exists path text,
    nth_error dataset
      (Z.to_nat (idx mod Z.of_nat (AudioTextDataset_len dataset))) =
      Some (path, text) /\
    AudioTextDataset_getitem ld hp tier dataset idx =
    (seq <- (if String.eqb (data_name hp) "KSS"
             then text_to_sequence ld text
             else process_blizzard ld text) ;;
     wav <- read_wav_np ld path (audio_sr hp) ;;
     mel <- get_normalized_mel ld wav ;;
     ' (source, target) <- cut_divide_tiers ld mel tier ;;
     ret (seq, source, target)).
Proof.
  intros Hinit Hidx. unfold AudioTextDataset_len in *.
  assert (Hpos : (0 <= idx mod Z.of_nat (length dataset)
                  < Z.of_nat (length dataset))%Z)
    by (apply Z.mod_pos_bound; lia).
  destruct (nth_error dataset
              (Z.to_nat (idx mod Z.of_nat (length dataset))))
    as [[path text] |] eqn:Hnth; [| apply nth_error_None in Hnth; lia].
  exists path, text. split; [reflexivity |].
  unfold AudioTextDataset_getitem.
  rewrite (list_getitem_in_range (path, text)) by exact Hidx.
  rewrite (nth_error_nth _ _ _ Hnth).
  cbv beta iota delta [bind ret fst snd].
  destruct (AudioTextDataset_init_name _ _ _ _ Hinit) as [-> | ->].
  - change (String.eqb "KSS" "KSS") with true. cbv iota.
    destruct (text_to_sequence ld text) as [e | s]; [reflexivity |].
    destruct (read_wav_np ld path (audio_sr hp)) as [e | wav];
      [reflexivity |].
    destruct (get_normalized_mel ld wav) as [e | mel]; [reflexivity |].
    destruct (cut_divide_tiers ld mel tier) as [e | [source target]];
      reflexivity.
  - change (String.eqb "Blizzard" "KSS") with false.
    change (String.eqb "Blizzard" "Blizzard") with true. cbv iota.
    destruct (process_blizzard ld text) as [e | s]; [reflexivity |].
    destruct (read_wav_np ld path (audio_sr hp)) as [e | wav];
      [reflexivity |].
    destruct (get_normalized_mel ld wav) as [e | mel]; [reflexivity |].
    destruct (cut_divide_tiers ld mel tier) as [e | [source target]];
      reflexivity.
Qed.

(** X17 at index -1 of the validation part of the KSS example. *)
Lemma AudioTextDataset_getitem_in_range_witness :
  AudioTextDataset_getitem demo_loader demo_hp 1
    [("data/kss/a.wav"%string, "hello"%string)] (-1) =
  inr (tokens [1%Z], spectrogram [[0%R]], spectrogram [[0%R]]).
Proof.
  destruct (AudioTextDataset_getitem_in_range demo_env demo_loader demo_hp
              false 1 [("data/kss/a.wav"%string, "hello"%string)] (-1)
              eq_refl) as (path & text & Hnth & Hget).
  - simpl. lia.
  - rewrite Hget. reflexivity.
Defined.

(** *** Batches the collate functions refuse *)

Lemma shape_at_raises {A : Type} (a : ndarray A) (k : nat) :
  (length (shape a) <= k)%nat -> shape_at a k = inl IndexError.
Proof.
  intros H. unfold shape_at.
  now replace (nth_error (shape a) k) with (@None nat)
    by (symmetry; now apply nth_error_None).
Qed.

Lemma shape_at_exn {A : Type} (a : ndarray A) (k : nat) e :
  shape_at a k = inl e -> e = IndexError.
Proof.
  unfold shape_at. destruct (nth_error (shape a) k); [discriminate |].
  intros H. now inversion H.
Qed.

(** X18. The collate functions read the lengths before they pad: an audio
    batch holding one item whose source has fewer than two axes makes
    [AudioCollate] raise [IndexError], and a text batch holding one item
    whose token array has no axis makes [TextCollate] raise [IndexError],
    wherever the item stands in the batch and whatever the other items
    are. *)
Theorem collate_rejects_flat_items :
  (forall (batch : list audio_sample) (x : audio_sample),
     In x batch -> (length (shape (fst x)) < 2)%nat ->
     AudioCollate_call batch = inl IndexError) /\
  (forall (batch : list text_sample) (x : text_sample),
     In x batch -> shape (fst (fst x)) = [] ->
     TextCollate_call batch = inl IndexError).
Proof.
  split; intros batch x Hin Hflat.
  - unfold AudioCollate_call.
    rewrite (map_res_raises _ IndexError); [reflexivity | |].
    + intros a e' _. apply shape_at_exn.
    + exists x. split; [exact Hin |]. apply shape_at_raises. lia.
  - unfold TextCollate_call.
    rewrite (map_res_raises _ IndexError); [reflexivity | |].
    + intros a e' _. apply shape_at_exn.
    + exists (long (fst (fst x))). split.
      * apply in_map_iff. exists x. auto.
      * apply shape_at_raises. unfold long. rewrite Hflat. apply le_n.
Qed.

(** X18 at a batch whose second source has one axis. *)
Lemma collate_rejects_flat_items_witness :
  AudioCollate_call
    [ (spectrogram [[1%R; 2%R]], spectrogram [[3%R; 4%R]]);
      (mkArray [3%nat] (fun _ => 0%R), spectrogram [[6%R]]) ] =
  inl IndexError.
Proof.
  destruct collate_rejects_flat_items as [Haudio _].
  apply (Haudio _ (mkArray [3%nat] (fun _ => 0%R), spectrogram [[6%R]])).
  - right. left. reflexivity.
  - apply le_n.
Defined.

End Enumeration.
